(** * SignageFlow: pairing, playlist editing and playback

    A shallow embedding of the client-side logic of SignageFlow:
    - the display client (pairing form, playlist subscription, media player
      effect, video-end handler),
    - the screen editor (append, remove, shuffle, save, pairing code),
    - the drag-and-drop upload of a screen card,
    over an in-memory model of the [screens] and [media] tables.

    The record store is modelled at its interface: a request either reaches
    the store and is executed, or fails and leaves the tables as they were.
    [Store] executes a request as it does for the owner of the rows;
    [Policy] adds the row-level security of the migration, under which what
    a request sees and changes depends on who sends it.

    A string stands for the sequence of its UTF-8 code units. *)

From Stdlib Require Import ZArith QArith String Ascii List Lia Bool.
From stdpp Require Import base option list gmap strings pretty sorting.

Local Open Scope string_scope.
Local Open Scope Z_scope.

(** ** JavaScript values used by the code *)

Module JS.

(** A number that may be [NaN]: indices only ever hold integers or the
    result of [x % 0]. *)
Inductive number : Type :=
| Num (z : Z)
| NaN.

(** A property read on an object: absent, [null], or holding a value. *)
Inductive prop (A : Type) : Type :=
| undefined
| null
| val (a : A).
Arguments undefined {A}.
Arguments null {A}.
Arguments val {A} a.

Definition number_eqb (a b : number) : bool :=
  match a, b with
  | Num x, Num y => x =? y
  | NaN, NaN => true
  | _, _ => false
  end.

(** [a + 1] *)
Definition succ (a : number) : number :=
  match a with
  | Num z => Num (z + 1)
  | NaN => NaN
  end.

(** [a % b] for an integer [b]: the remainder has the sign of the dividend
    and [a % 0] is [NaN]. *)
Definition rem (a : number) (b : Z) : number :=
  match a with
  | Num z => if b =? 0 then NaN else Num (Z.rem z b)
  | NaN => NaN
  end.

(** [arr[i]]: [undefined] (here [None]) unless [i] is an index of [arr]. *)
Definition index {A : Type} (arr : list A) (i : number) : option A :=
  match i with
  | Num z => if z <? 0 then None else arr !! Z.to_nat z
  | NaN => None
  end.

(** [x || d] on a numeric property: [undefined], [null] and [0] are falsy. *)
Definition or_default (x : prop Z) (d : Z) : Z :=
  match x with
  | val z => if z =? 0 then d else z
  | _ => d
  end.

(** [c.toUpperCase()] on one ASCII code unit. *)
Definition upper_ascii (c : ascii) : ascii :=
  let n := nat_of_ascii c in
  if ((97 <=? n) && (n <=? 122))%nat then ascii_of_nat (n - 32) else c.

Definition is_lower (c : ascii) : bool :=
  let n := nat_of_ascii c in ((97 <=? n) && (n <=? 122))%nat.

(** [s.toUpperCase()] on a string of ASCII characters, where it changes
    the letters a to z and nothing else. On other strings the engine's
    function also maps the cased letters outside ASCII, which this one
    leaves as they are: where a result depends on it for such a string, the
    engine's function is a parameter, as in [Policy.handlePairing]. *)
Fixpoint toUpperCase (s : string) : string :=
  match s with
  | EmptyString => EmptyString
  | String c s' => String (upper_ascii c) (toUpperCase s')
  end.

(** Every code unit is below 128: the string is made of ASCII characters. *)
Fixpoint is_ascii (s : string) : bool :=
  match s with
  | EmptyString => true
  | String c s' => (nat_of_ascii c <? 128)%nat && is_ascii s'
  end.

(** [s.startsWith(p)] *)
Definition startsWith (s p : string) : bool := String.prefix p s.

(** [m?.startsWith(p)] used as a condition: [null] is falsy. *)
Definition opt_startsWith (m : option string) (p : string) : bool :=
  match m with
  | Some s => startsWith s p
  | None => false
  end.

(** Equality of two strings up to the case of ASCII letters, stated
    character by character and without reference to [toUpperCase]. *)
Inductive same_letter : ascii -> ascii -> Prop :=
| same_char c : same_letter c c
| lower_upper c : is_lower c = true -> same_letter c (upper_ascii c)
| upper_lower c : is_lower c = true -> same_letter (upper_ascii c) c.

Inductive eq_nocase : string -> string -> Prop :=
| eq_nocase_nil : eq_nocase EmptyString EmptyString
| eq_nocase_cons a b s t :
    same_letter a b -> eq_nocase s t -> eq_nocase (String a s) (String b t).

End JS.

(** ** Rows and playlist items *)

Module Media.
(** A row of the [media] table. *)
Record t : Type := mk {
  id : string;
  user_id : string;
  name : string;
  file_path : string;
  file_size : option Z;
  mime_type : option string;
  duration : option Z;
  created_at : string;
  url : option string
}.
End Media.

Module PlaylistItem.
(** An entry of a stored playlist. The two paths that create entries do
    not write the same set of properties, so the properties that one of
    them leaves out record their absence. *)
Record t : Type := mk {
  id : string;
  name : string;
  file_path : string;
  mime_type : option string;
  user_id : option string;
  file_size : JS.prop Z;
  duration : JS.prop Z;
  created_at : option string;
  url : option string
}.
End PlaylistItem.

Module Screen.
(** A row of the [screens] table. [playlist] is a nullable JSON column:
    [None] stands for a value that is not an array. *)
Record t : Type := mk {
  id : string;
  user_id : string;
  name : string;
  pairing_code : option string;
  playlist : option (list PlaylistItem.t);
  is_online : bool;
  last_ping_at : option string;
  created_at : string
}.

Definition set_pairing_code (c : option string) (s : t) : t :=
  mk (id s) (user_id s) (name s) c (playlist s) (is_online s)
     (last_ping_at s) (created_at s).

Definition set_playlist (p : option (list PlaylistItem.t)) (s : t) : t :=
  mk (id s) (user_id s) (name s) (pairing_code s) p (is_online s)
     (last_ping_at s) (created_at s).
End Screen.

(** ** The record store, at its interface *)

Module Store.

(** The [{ data, error }] pair of a request. *)
Inductive response (A : Type) : Type :=
| Data (a : A)
| Error.
Arguments Data {A} a.
Arguments Error {A}.

Definition is_error {A : Type} (r : response A) : bool :=
  match r with
  | Data _ => false
  | Error => true
  end.

(** [.eq('pairing_code', c)]: a [NULL] code equals nothing. *)
Definition has_code (c : string) (s : Screen.t) : bool :=
  match Screen.pairing_code s with
  | Some c' => String.eqb c' c
  | None => false
  end.

(** [.eq('id', i)] *)
Definition has_id (i : string) (s : Screen.t) : bool :=
  String.eqb (Screen.id s) i.

(** [.select(..).eq(..).single()]: an error unless exactly one row matches.
    [net] tells whether the request reaches the store. *)
Definition select_single (net : bool) (p : Screen.t -> bool)
    (db : list Screen.t) : response Screen.t :=
  if net then
    match List.filter p db with
    | [s] => Data s
    | _ => Error
    end
  else Error.

(** [.update(f).eq('id', i)] on the rows. *)
Definition update_rows (f : Screen.t -> Screen.t) (i : string)
    (db : list Screen.t) : list Screen.t :=
  List.map (fun s => if has_id i s then f s else s) db.

Definition code_count (c : string) (db : list Screen.t) : nat :=
  length (List.filter (has_code c) db).

(** [.update({ playlist: p }).eq('id', i)] *)
Definition update_playlist (net : bool) (i : string)
    (p : list PlaylistItem.t) (db : list Screen.t)
    : response unit * list Screen.t :=
  if net then (Data tt, update_rows (Screen.set_playlist (Some p)) i db)
  else (Error, db).

(** [.update({ pairing_code: c }).eq('id', i)], sent by the owner of the
    row. The column is [UNIQUE]: a non-null code that would end up on two
    rows is refused and nothing is written. *)
Definition update_pairing_code (net : bool) (i : string)
    (c : option string) (db : list Screen.t)
    : response unit * list Screen.t :=
  if net then
    let db' := update_rows (Screen.set_pairing_code c) i db in
    match c with
    | Some code =>
        if existsb (has_id i) db && (1 <? code_count code db')%nat
        then (Error, db)
        else (Data tt, db')
    | None => (Data tt, db')
    end
  else (Error, db).

(** The schema's constraints on [screens]: [id] is the primary key and
    [pairing_code] is [UNIQUE] (among non-null values). *)
Definition well_formed (db : list Screen.t) : Prop :=
  NoDup (List.map Screen.id db) /\ NoDup (omap Screen.pairing_code db).

End Store.

(** ** Notifications shown to the user *)

Inductive Toast : Type :=
| toast_error (msg : string)
| toast_success (msg : string)
| toast_plain (msg : string).

(** ** The display client *)

Module Display.

Record State : Type := mk {
  pairingCode : string;
  loading : bool;
  screenId : option string;
  playlist : list PlaylistItem.t;
  currentItemIndex : JS.number;
  mediaUrl : option string;
  (** the pending [setTimeout] of the player effect and its remaining
      delay in milliseconds *)
  timer : option Z
}.

Definition setLoading (b : bool) (st : State) : State :=
  mk (pairingCode st) b (screenId st) (playlist st) (currentItemIndex st)
     (mediaUrl st) (timer st).

Definition setScreenId (i : option string) (st : State) : State :=
  mk (pairingCode st) (loading st) i (playlist st) (currentItemIndex st)
     (mediaUrl st) (timer st).

Definition setMediaUrl (u : option string) (st : State) : State :=
  mk (pairingCode st) (loading st) (screenId st) (playlist st)
     (currentItemIndex st) u (timer st).

Definition setTimer (t : option Z) (st : State) : State :=
  mk (pairingCode st) (loading st) (screenId st) (playlist st)
     (currentItemIndex st) (mediaUrl st) t.

(** The bare state writes, before React re-renders. *)
Definition writeIndex (i : JS.number) (st : State) : State :=
  mk (pairingCode st) (loading st) (screenId st) (playlist st) i
     (mediaUrl st) (timer st).

Definition writePlaylist (p : list PlaylistItem.t) (st : State) : State :=
  mk (pairingCode st) (loading st) (screenId st) p (currentItemIndex st)
     (mediaUrl st) (timer st).

(** The component as first rendered. *)
Definition initial : State :=
  mk "" false None [] (JS.Num 0) None None.

Definition storage_key : string := "signageflow_screen_id".
Definition InvalidCode : Toast :=
  toast_error "Invalid pairing code. Please try again.".
Definition Paired : Toast := toast_success "Screen paired successfully!".

Definition truthy (s : option string) : bool :=
  match s with
  | Some (String _ _) => true
  | _ => false
  end.

Definition is_video (item : PlaylistItem.t) : bool :=
  JS.opt_startsWith (PlaylistItem.mime_type item) "video/".

Definition is_image (item : PlaylistItem.t) : bool :=
  JS.opt_startsWith (PlaylistItem.mime_type item) "image/".

(** The delay of the advance timer: [(currentItem.duration || 10) * 1000]. *)
Definition timer_delay (item : PlaylistItem.t) : Z :=
  JS.or_default (PlaylistItem.duration item) 10 * 1000.

(** [setTimeout] keeps its delay in a signed 32-bit integer: a longer
    delay does not wait that long. *)
Definition max_delay : Z := 2147483647.

Section WithStorage.

(** [supabase.storage.from('media').getPublicUrl(path).data.publicUrl] *)
Variable getPublicUrl : string -> string.

(** The media player effect, run after a render in which [playlist] or
    [currentItemIndex] changed. The cleanup of the previous run comes
    first and clears its timer. *)
Definition playerEffect (st0 : State) : State :=
  let st := setTimer None st0 in
  if (length (playlist st) =? 0)%nat then setMediaUrl None st
  else
    match JS.index (playlist st) (currentItemIndex st) with
    | None => st
    | Some currentItem =>
        let st1 :=
          setMediaUrl
            (Some (getPublicUrl (PlaylistItem.file_path currentItem))) st in
        if negb (is_video currentItem)
        then setTimer (Some (timer_delay currentItem)) st1
        else st1
    end.

(** [setCurrentItemIndex(f)]: a write of the value the state already
    holds does not re-render and so does not re-run the effect. *)
Definition setCurrentItemIndex (f : JS.number -> JS.number) (st : State)
    : State :=
  let next := f (currentItemIndex st) in
  if JS.number_eqb next (currentItemIndex st) then st
  else playerEffect (writeIndex next st).

(** The update both the timer callback and [handleVideoEnded] perform:
    [prev => (prev + 1) % playlist.length]. *)
Definition advance (st : State) : State :=
  setCurrentItemIndex
    (fun prev => JS.rem (JS.succ prev) (Z.of_nat (length (playlist st))))
    st.

Definition handleVideoEnded (st : State) : State := advance st.

(** The pending timer fires. Its callback closes over the playlist of
    the effect run that set it, which is the current one: any change of
    the playlist re-runs the effect and clears the timer. *)
Definition timerFires (st : State) : State :=
  match timer st with
  | Some _ => advance (setTimer None st)
  | None => st
  end.

(** One millisecond passes. The count-down is that of [setTimeout] for
    the delays it can hold, which are those up to [max_delay]. *)
Definition tick (st : State) : State :=
  match timer st with
  | Some d => if d <=? 1 then timerFires st else setTimer (Some (d - 1)) st
  | None => st
  end.

(** [n] milliseconds pass with no other event. *)
Definition elapse (n : nat) (st : State) : State := Nat.iter n tick st.

(** The subscription callback, on a payload whose [playlist] is the
    array [newPlaylist]. *)
Definition onPlaylistUpdate (newPlaylist : list PlaylistItem.t)
    (st : State) : State * Toast :=
  (playerEffect (writeIndex (JS.Num 0) (writePlaylist newPlaylist st)),
   toast_plain "Playlist updated!").

(** What the component renders. *)
Inductive Content : Type :=
| Blank
| Img (src alt : string)
| Video (src : string).

Inductive View : Type :=
| PairingForm
| EmptyPlaylistMessage
| Player (c : Content)
| RenderError.

Definition render (st : State) : View :=
  if truthy (screenId st) then
    if (length (playlist st) =? 0)%nat then EmptyPlaylistMessage
    else
      if truthy (mediaUrl st) then
        match JS.index (playlist st) (currentItemIndex st), mediaUrl st with
        | Some currentItem, Some u =>
            if is_image currentItem
            then Player (Img u (PlaylistItem.name currentItem))
            else if is_video currentItem then Player (Video u)
            else Player Blank
        | _, _ => RenderError
        end
      else Player Blank
  else PairingForm.

End WithStorage.

(** The mount effect: a stored binding is restored. *)
Definition onMount (stored : gmap string string) (st : State) : State :=
  if truthy (stored !! storage_key)
  then setScreenId (stored !! storage_key) st
  else st.

(** What [handlePairing] reads and writes: the component state, the
    browser's local storage and the [screens] table. *)
Record World : Type := mkWorld {
  client : State;
  localStorage : gmap string string;
  screens : list Screen.t
}.

(** [handlePairing], in a session that owns the rows of the table (for
    any session, see [Policy.handlePairing]); [net_select] and
    [net_update] tell whether the two requests reach the store. The
    outcome of the update is not looked at. *)
Definition handlePairing (net_select net_update : bool) (w : World)
    : World * Toast :=
  match
    Store.select_single net_select
      (Store.has_code (JS.toUpperCase (pairingCode (client w))))
      (screens w)
  with
  | Store.Error =>
      (mkWorld (setLoading false (client w)) (localStorage w) (screens w),
       InvalidCode)
  | Store.Data data =>
      (mkWorld
         (setLoading false (setScreenId (Some (Screen.id data)) (client w)))
         (<[storage_key := Screen.id data]> (localStorage w))
         (snd (Store.update_pairing_code net_update (Screen.id data) None
                 (screens w))),
       Paired)
  end.

End Display.

(** ** The random comparator and the engine's sort *)

Module Sort.

(** A computation that draws from [Math.random]: the argument and the
    second result count the draws made so far. *)
Definition Rand (A : Type) : Type := nat -> A * nat.

Definition ret {A : Type} (a : A) : Rand A := fun k => (a, k).

Definition bind {A B : Type} (m : Rand A) (f : A -> Rand B) : Rand B :=
  fun k => let (a, k1) := m k in f a k1.

Notation "'draw' x <- c 'in' f" := (bind c (fun x => f))
  (at level 10, x name, c at level 100, f at level 200).

Section WithRandom.

(** The successive results of [Math.random()], each in [0, 1). *)
Variable random : nat -> Q.

Definition Math_random : Rand Q := fun k => (random k, S k).

(** [() => Math.random() - 0.5] *)
Definition comparator {A : Type} (_ _ : A) : Rand Q :=
  draw r <- Math_random in ret (r - (1 # 2))%Q.

(** [v > 0]: the first argument sorts after the second. *)
Definition positive (v : Q) : bool := negb (Qle_bool v 0).

(** [Array.prototype.sort(comparefn)] belongs to the engine. It is
    modelled as an insertion sort that calls [comparefn] once for each
    pair it compares and moves elements according to the sign of the
    answer. *)
Fixpoint insert {A : Type} (comparefn : A -> A -> Rand Q) (x : A)
    (sorted : list A) : Rand (list A) :=
  match sorted with
  | [] => ret [x]
  | y :: rest =>
      draw v <- comparefn x y in
      if positive v
      then (draw r <- insert comparefn x rest in ret (y :: r))
      else ret (x :: y :: rest)
  end.

Fixpoint sort {A : Type} (comparefn : A -> A -> Rand Q) (arr : list A)
    : Rand (list A) :=
  match arr with
  | [] => ret []
  | x :: rest => draw s <- sort comparefn rest in insert comparefn x s
  end.

End WithRandom.

End Sort.

(** ** The screen editor *)

Module Editor.

Definition falsy_id (screenId : option string) : bool :=
  negb (Display.truthy screenId).

(** [media.duration || (media.mime_type?.startsWith('image/') ? 10 : 30)] *)
Definition resolved_duration (media : Media.t) : Z :=
  let fallback :=
    if JS.opt_startsWith (Media.mime_type media) "image/" then 10 else 30 in
  match Media.duration media with
  | Some d => if d =? 0 then fallback else d
  | None => fallback
  end.

Definition of_nullable {A : Type} (x : option A) : JS.prop A :=
  match x with
  | Some a => JS.val a
  | None => JS.null
  end.

(** [{ ...media, duration: .. }] *)
Definition playlistItem_of (media : Media.t) : PlaylistItem.t :=
  PlaylistItem.mk (Media.id media) (Media.name media)
    (Media.file_path media) (Media.mime_type media)
    (Some (Media.user_id media)) (of_nullable (Media.file_size media))
    (JS.val (resolved_duration media)) (Some (Media.created_at media))
    (Media.url media).

Definition addToPlaylist (media : Media.t) (playlist : list PlaylistItem.t)
    : list PlaylistItem.t * Toast :=
  ((playlist ++ [playlistItem_of media])%list,
   toast_success "Added to playlist").

(** [prev.filter((_, i) => i !== index)] *)
Fixpoint filter_index {A : Type} (keep : nat -> bool) (i : nat) (l : list A)
    : list A :=
  match l with
  | [] => []
  | x :: l' =>
      if keep i then x :: filter_index keep (S i) l'
      else filter_index keep (S i) l'
  end.

Definition removeFromPlaylist (index : nat) (playlist : list PlaylistItem.t)
    : list PlaylistItem.t * Toast :=
  (filter_index (fun i => negb (i =? index)%nat) 0%nat playlist,
   toast_success "Removed from playlist").

(** [[...prev].sort(() => Math.random() - 0.5)]; [k] draws were made
    before the call. *)
Definition shufflePlaylist (random : nat -> Q) (k : nat)
    (playlist : list PlaylistItem.t) : list PlaylistItem.t * Toast :=
  (fst (Sort.sort (Sort.comparator random) playlist k),
   toast_success "Playlist shuffled").

(** [savePlaylist]: returns the table and the notification, if any. *)
Definition savePlaylist (net : bool) (screenId : option string)
    (playlist : list PlaylistItem.t) (db : list Screen.t)
    : list Screen.t * option Toast :=
  match screenId with
  | Some i =>
      if falsy_id screenId then (db, None)
      else
        let (r, db') := Store.update_playlist net i playlist db in
        if Store.is_error r
        then (db', Some (toast_error "Failed to save playlist."))
        else (db', Some (toast_success "Playlist saved successfully!"))
  | None => (db, None)
  end.

(** [fetchScreen], as far as the playlist goes: the working playlist it
    sets, or [None] when the request fails and the state is kept. *)
Definition fetchScreen (net : bool) (screenId : option string)
    (db : list Screen.t) : option (list PlaylistItem.t) :=
  match screenId with
  | Some i =>
      if falsy_id screenId then None
      else
        match Store.select_single net (Store.has_id i) db with
        | Store.Data screenData =>
            Some (default [] (Screen.playlist screenData))
        | Store.Error => None
        end
  | None => None
  end.

(** [handleShowPairingCode]; [newCode] is what [generatePairingCode()]
    returned. The second result is the code shown in the dialog. *)
Definition handleShowPairingCode (net : bool) (newCode : string)
    (screenId : option string) (db : list Screen.t)
    : list Screen.t * option string * option Toast :=
  match screenId with
  | Some i =>
      if falsy_id screenId then (db, None, None)
      else
        let (r, db') := Store.update_pairing_code net i (Some newCode) db in
        if Store.is_error r
        then
          (db', None, Some (toast_error "Failed to generate pairing code."))
        else (db', Some newCode, None)
  | None => (db, None, None)
  end.

End Editor.

(** ** The screen card: drag and drop *)

Module ScreenCard.

Record File : Type := mkFile {
  file_name : string;
  file_size : Z;
  file_type : string
}.

(** The row that [insert(..).select().single()] returns: the columns the
    client sent, [id] and [created_at] chosen by the store, no duration. *)
Definition inserted_row (id created_at user_id filePath : string)
    (file : File) : Media.t :=
  Media.mk id user_id (file_name file) filePath (Some (file_size file))
    (Some (file_type file)) None created_at None.

(** Step 3: the entry built from [newMedia]. *)
Definition newPlaylistItem (newMedia : Media.t) : PlaylistItem.t :=
  PlaylistItem.mk (Media.id newMedia) (Media.name newMedia)
    (Media.file_path newMedia) (Media.mime_type newMedia)
    None JS.undefined JS.undefined None None.

(** [Array.isArray(screen.playlist) ? screen.playlist : []] *)
Definition currentPlaylist (screen : Screen.t) : list PlaylistItem.t :=
  match Screen.playlist screen with
  | Some l => l
  | None => []
  end.

Definition updatedPlaylist (screen : Screen.t) (newMedia : Media.t)
    : list PlaylistItem.t :=
  (currentPlaylist screen ++ [newPlaylistItem newMedia])%list.

(** [onDrop]. [user] is the signed-in user's id, [screen] the row the
    card was rendered with, [now] the value of [Date.now()]; [upload_ok]
    tells whether the upload succeeded, [inserted] is the store's answer to
    the insert ([id] and [created_at] of the new row), [net] tells whether
    the final update reaches the store and [message] is the message of
    the error thrown, if one is. Returns both tables and the closing
    notification. *)
Definition onDrop (user : option string) (screen : Screen.t)
    (acceptedFiles : list File) (now : Z) (upload_ok : bool)
    (inserted : Store.response (string * string)) (net : bool)
    (message : string) (media : list Media.t) (db : list Screen.t)
    : list Media.t * list Screen.t * option Toast :=
  match user, acceptedFiles with
  | None, _ => (media, db, None)
  | Some _, [] => (media, db, None)
  | Some uid, file :: _ =>
      let filePath := uid +:+ "/" +:+ pretty now +:+ "-" +:+ file_name file in
      if negb upload_ok then
        (media, db, Some (toast_error ("Failed: " +:+ message)))
      else
        match inserted with
        | Store.Error =>
            (media, db, Some (toast_error ("Failed: " +:+ message)))
        | Store.Data (id, created_at) =>
            let newMedia := inserted_row id created_at uid filePath file in
            let media' := (media ++ [newMedia])%list in
            let (r, db') :=
              Store.update_playlist net (Screen.id screen)
                (updatedPlaylist screen newMedia) db in
            if Store.is_error r
            then (media', db', Some (toast_error ("Failed: " +:+ message)))
            else
              (media', db',
               Some (toast_success
                       (file_name file +:+ " added to " +:+ Screen.name screen
                        +:+ "!")))
        end
  end.

End ScreenCard.

(** ** The playlist of the scenario *)

Module Playback.

(** The playlist of the scenario: an image shown for five seconds, then a
    video. *)
Definition image5 : PlaylistItem.t :=
  PlaylistItem.mk "m1" "poster.png" "u1/poster.png" (Some "image/png")
    (Some "u1") JS.null (JS.val 5) (Some "t0") None.

Definition video : PlaylistItem.t :=
  PlaylistItem.mk "m2" "clip.mp4" "u1/clip.mp4" (Some "video/mp4")
    None JS.undefined JS.undefined None None.

Definition image_then_video : list PlaylistItem.t := [image5; video].

End Playback.

(** ** Sample data *)

Module Sample.

Definition publicUrl (path : string) : string :=
  "https://cdn.example/media/" +:+ path.

Definition lobby : Screen.t :=
  Screen.mk "S1" "u1" "Lobby" (Some "AB12CD") (Some [Playback.image5])
    false None "t0".

Definition hall : Screen.t :=
  Screen.mk "S2" "u1" "Hall" None (Some []) false None "t1".

(** A screen whose stored code is in lower case. *)
Definition attic : Screen.t :=
  Screen.mk "S3" "u2" "Attic" (Some "ab12cd") (Some []) false None "t2".

Definition typing (code : string) : Display.State :=
  Display.mk code false None [] (JS.Num 0) None None.

Definition playing (playlist : list PlaylistItem.t) : Display.State :=
  Display.mk "" false (Some "S1") playlist (JS.Num 0) None None.

Definition leaflet : Media.t :=
  Media.mk "m3" "u1" "leaflet.pdf" "u1/leaflet.pdf" (Some 2048)
    (Some "application/pdf") None "t3" None.

Definition photo : ScreenCard.File :=
  ScreenCard.mkFile "photo.jpg" 4096 "image/jpeg".

Definition coin (k : nat) : Q := if Nat.even k then 3 # 4 else 1 # 4.

End Sample.

(** ** The display client, from mount to playback *)

Module Lifecycle.

Definition set_is_online (b : bool) (s : Screen.t) : Screen.t :=
  Screen.mk (Screen.id s) (Screen.user_id s) (Screen.name s)
    (Screen.pairing_code s) (Screen.playlist s) b (Screen.last_ping_at s)
    (Screen.created_at s).

(** [.update({ is_online: b }).eq('id', i)], sent by the owner of the
    row. *)
Definition update_is_online (net : bool) (i : string) (b : bool)
    (db : list Screen.t) : Store.response unit * list Screen.t :=
  if net then (Store.Data tt, Store.update_rows (set_is_online b) i db)
  else (Store.Error, db).

(** How a run of [fetchPlaylistAndSubscribe] ends. *)
Inductive Fetched : Type :=
| NotBound (w : Display.World)
| Loaded (w : Display.World)
| NotAnArray (w : Display.World)
| Unpaired (w : Display.World) (t : Toast).

Definition world_of (f : Fetched) : Display.World :=
  match f with
  | NotBound w | Loaded w | NotAnArray w | Unpaired w _ => w
  end.

Inductive event : Type :=
| PlaylistUpdated (newPlaylist : list PlaylistItem.t)
| MillisecondPassed
| VideoEnded.

Section WithStorage.

Variable getPublicUrl : string -> string.

(** The effect on [screenId], in a session that owns the rows of the
    table (for any session, see [Policy.fetchPlaylistAndSubscribe]).
    Without a binding it returns at once.
    Otherwise it marks the screen online (the outcome is not looked at)
    and reads the screen's playlist: on an error it drops the binding from
    local storage and from the state; on success it installs the playlist,
    keeping the index. [NotAnArray] is the case of a [NULL] playlist
    column: the state then holds a value without [length]. The function
    ends by subscribing to the updates that [onPlaylistUpdate] handles; the
    cleanup it returns from inside the [async] function is never handed to
    React. *)
Definition fetchPlaylistAndSubscribe (net_online net_select : bool)
    (w : Display.World) : Fetched :=
  match Display.screenId (Display.client w) with
  | Some screenId =>
      if Display.truthy (Some screenId) then
        let db := snd (update_is_online net_online screenId true
                         (Display.screens w)) in
        match Store.select_single net_select (Store.has_id screenId) db with
        | Store.Error =>
            Unpaired
              (Display.mkWorld (Display.setScreenId None (Display.client w))
                 (delete Display.storage_key (Display.localStorage w)) db)
              (toast_error "Could not fetch screen data. Unpairing.")
        | Store.Data data =>
            match Screen.playlist data with
            | Some playlist =>
                Loaded
                  (Display.mkWorld
                     (Display.playerEffect getPublicUrl
                        (Display.writePlaylist playlist (Display.client w)))
                     (Display.localStorage w) db)
            | None =>
                NotAnArray
                  (Display.mkWorld (Display.client w)
                     (Display.localStorage w) db)
            end
        end
      else NotBound w
  | None => NotBound w
  end.

(** What can happen to a playing client: an update arrives, time passes,
    or the video element reports its end. *)
Definition step (st : Display.State) (e : event) : Display.State :=
  match e with
  | PlaylistUpdated newPlaylist =>
      fst (Display.onPlaylistUpdate getPublicUrl newPlaylist st)
  | MillisecondPassed => Display.tick getPublicUrl st
  | VideoEnded => Display.handleVideoEnded getPublicUrl st
  end.

Definition run (events : list event) (st : Display.State) : Display.State :=
  fold_left step events st.

End WithStorage.

(** The current item exists whenever there is something to play. *)
Definition index_in_range (st : Display.State) : Prop :=
  Display.playlist st = [] \/
  exists item,
    JS.index (Display.playlist st) (Display.currentItemIndex st) = Some item.

(** A pending timer belongs to the current item, which is not a video, and
    has at most that item's delay left. *)
Definition timer_for_current (st : Display.State) : Prop :=
  forall d, Display.timer st = Some d ->
    exists item,
      JS.index (Display.playlist st) (Display.currentItemIndex st) =
        Some item /\
      Display.is_video item = false /\
      d <= Display.timer_delay item.

(** The time for one pass over a playlist without videos. *)
Definition total_delay (playlist : list PlaylistItem.t) : Z :=
  fold_right (fun item acc => Display.timer_delay item + acc) 0 playlist.

End Lifecycle.

(** ** Row-level security *)

Module Policy.

(** The migration enables row-level security on [screens] and declares two
    policies: "User can manage own screens", for every command, on
    [auth.uid() = user_id]; and "Anyone can read screen by pairing_code",
    for SELECT, on [pairing_code IS NOT NULL]. [actor] is the [auth.uid()]
    of the session that sends a request: [None] when nobody is signed in,
    which is how a display that has only ever opened the pairing page
    runs. *)
Definition owns (actor : option string) (s : Screen.t) : bool :=
  match actor with
  | Some uid => String.eqb uid (Screen.user_id s)
  | None => false
  end.

(** The rows a SELECT may return: those that either policy admits. *)
Definition visible (actor : option string) (s : Screen.t) : bool :=
  owns actor s ||
  match Screen.pairing_code s with
  | Some _ => true
  | None => false
  end.

(** [.select(..).eq(..).single()] sent by [actor]. *)
Definition select_single (actor : option string) (net : bool)
    (p : Screen.t -> bool) (db : list Screen.t) : Store.response Screen.t :=
  Store.select_single net p (List.filter (visible actor) db).

(** [.update(f).eq('id', i)] sent by [actor]: a row that the first policy
    does not admit is passed over, and that is not an error. *)
Definition update_rows (actor : option string) (f : Screen.t -> Screen.t)
    (i : string) (db : list Screen.t) : list Screen.t :=
  List.map (fun s => if Store.has_id i s && owns actor s then f s else s) db.

(** [.update({ pairing_code: null }).eq('id', i)] *)
Definition clear_pairing_code (actor : option string) (net : bool)
    (i : string) (db : list Screen.t) : Store.response unit * list Screen.t :=
  if net
  then (Store.Data tt, update_rows actor (Screen.set_pairing_code None) i db)
  else (Store.Error, db).

(** [.update({ is_online: b }).eq('id', i)] *)
Definition update_is_online (actor : option string) (net : bool)
    (i : string) (b : bool) (db : list Screen.t)
    : Store.response unit * list Screen.t :=
  if net
  then (Store.Data tt, update_rows actor (Lifecycle.set_is_online b) i db)
  else (Store.Error, db).

(** [handlePairing] run in the session of [actor]. [toUpperCase] is the
    engine's [String.prototype.toUpperCase]; [net_select] and [net_update]
    tell whether the two requests reach the store. The outcome of the
    update, which the source comments as "Invalidate the code", is not
    looked at. *)
Definition handlePairing (actor : option string)
    (toUpperCase : string -> string) (net_select net_update : bool)
    (w : Display.World) : Display.World * Toast :=
  match
    select_single actor net_select
      (Store.has_code (toUpperCase (Display.pairingCode (Display.client w))))
      (Display.screens w)
  with
  | Store.Error =>
      (Display.mkWorld (Display.setLoading false (Display.client w))
         (Display.localStorage w) (Display.screens w),
       Display.InvalidCode)
  | Store.Data data =>
      (Display.mkWorld
         (Display.setLoading false
            (Display.setScreenId (Some (Screen.id data)) (Display.client w)))
         (<[Display.storage_key := Screen.id data]> (Display.localStorage w))
         (snd (clear_pairing_code actor net_update (Screen.id data)
                 (Display.screens w))),
       Display.Paired)
  end.

Section WithStorage.

Variable getPublicUrl : string -> string.

(** [fetchPlaylistAndSubscribe] run in the session of [actor]. *)
Definition fetchPlaylistAndSubscribe (actor : option string)
    (net_online net_select : bool) (w : Display.World) : Lifecycle.Fetched :=
  match Display.screenId (Display.client w) with
  | Some screenId =>
      if Display.truthy (Some screenId) then
        let db := snd (update_is_online actor net_online screenId true
                         (Display.screens w)) in
        match select_single actor net_select (Store.has_id screenId) db with
        | Store.Error =>
            Lifecycle.Unpaired
              (Display.mkWorld (Display.setScreenId None (Display.client w))
                 (delete Display.storage_key (Display.localStorage w)) db)
              (toast_error "Could not fetch screen data. Unpairing.")
        | Store.Data data =>
            match Screen.playlist data with
            | Some playlist =>
                Lifecycle.Loaded
                  (Display.mkWorld
                     (Display.playerEffect getPublicUrl
                        (Display.writePlaylist playlist (Display.client w)))
                     (Display.localStorage w) db)
            | None =>
                Lifecycle.NotAnArray
                  (Display.mkWorld (Display.client w)
                     (Display.localStorage w) db)
            end
        end
      else Lifecycle.NotBound w
  | None => Lifecycle.NotBound w
  end.

End WithStorage.

End Policy.

(** ** The screens page *)

Module ScreensPage.

(** The characters [trim()] removes are the white space and the line
    terminators of the language. Those of one code unit: tab, line feed,
    vertical tab, form feed, carriage return and space. *)
Definition is_space (c : ascii) : bool :=
  let n := nat_of_ascii c in
  ((9 <=? n) && (n <=? 13) || (n =? 32))%nat.

(** Of two code units: U+00A0, the no-break space. *)
Definition is_space2 (a b : ascii) : bool :=
  ((nat_of_ascii a =? 194) && (nat_of_ascii b =? 160))%nat.

(** Of three code units: U+1680; U+2000 to U+200A; the line and paragraph
    separators U+2028 and U+2029; U+202F; U+205F; U+3000; and the byte
    order mark U+FEFF. *)
Definition is_space3 (a b c : ascii) : bool :=
  let x := nat_of_ascii a in
  let y := nat_of_ascii b in
  let z := nat_of_ascii c in
  ((x =? 225) && (y =? 154) && (z =? 128) ||
   (x =? 226) && (y =? 128) &&
     ((128 <=? z) && (z <=? 138) || (z =? 168) || (z =? 169) || (z =? 175)) ||
   (x =? 226) && (y =? 129) && (z =? 159) ||
   (x =? 227) && (y =? 128) && (z =? 128) ||
   (x =? 239) && (y =? 187) && (z =? 191))%nat.

(** [!name.trim()]: nothing but white space. *)
Fixpoint blank (name : string) : bool :=
  match name with
  | EmptyString => true
  | String a rest =>
      if is_space a then blank rest
      else
        match rest with
        | EmptyString => false
        | String b rest2 =>
            if is_space2 a b then blank rest2
            else
              match rest2 with
              | EmptyString => false
              | String c rest3 => is_space3 a b c && blank rest3
              end
        end
  end.

(** The row that [insert({ name, user_id })] creates: the columns sent,
    [id] and [created_at] chosen by the store, the schema's defaults for the
    rest. *)
Definition new_screen (id created_at name user_id : string) : Screen.t :=
  Screen.mk id user_id name None (Some []) false None created_at.

(** [.from('screens').insert(..)]: refused when the primary key is
    taken. *)
Definition insert_screen (net : bool) (row : Screen.t) (db : list Screen.t)
    : Store.response unit * list Screen.t :=
  if net then
    if existsb (Store.has_id (Screen.id row)) db then (Store.Error, db)
    else (Store.Data tt, (db ++ [row])%list)
  else (Store.Error, db).

(** [handleCreateScreen]; [id] and [created_at] are the values the store
    picks for the new row. Returns the table, the name left in the form
    and the notification, if any. *)
Definition handleCreateScreen (net : bool) (id created_at : string)
    (user : option string) (newScreenName : string) (db : list Screen.t)
    : list Screen.t * string * option Toast :=
  match user with
  | Some uid =>
      if blank newScreenName then (db, newScreenName, None)
      else
        let (r, db') :=
          insert_screen net (new_screen id created_at newScreenName uid) db in
        if Store.is_error r
        then (db', newScreenName, Some (toast_error "Failed to create screen."))
        else (db', "", Some (toast_success "Screen created successfully!"))
  | None => (db, newScreenName, None)
  end.

End ScreensPage.

(** ** The dashboard *)

Module Dashboard.

Inductive ActivityType : Type :=
| screen_created
| media_uploaded
| screen_updated.

Record Activity : Type := mkActivity {
  id : string;
  type : ActivityType;
  message : string;
  timestamp : string
}.

Record DashboardStats : Type := mkStats {
  totalScreens : nat;
  onlineScreens : nat;
  totalMediaItems : nat;
  totalStorageUsed : Z;
  recentActivity : list Activity
}.

Definition initial : DashboardStats := mkStats 0 0 0 0 [].

Definition dq : string := String (ascii_of_nat 34) EmptyString.

Definition screen_activity (screen : Screen.t) : Activity :=
  mkActivity ("screen-" +:+ Screen.id screen) screen_created
    ("Screen " +:+ dq +:+ Screen.name screen +:+ dq +:+ " was created")
    (Screen.created_at screen).

Definition media_activity (item : Media.t) : Activity :=
  mkActivity ("media-" +:+ Media.id item) media_uploaded
    ("Media " +:+ dq +:+ Media.name item +:+ dq +:+ " was uploaded")
    (Media.created_at item).

(** [.eq('user_id', uid)] on either table. *)
Definition own_screens (uid : string) (db : list Screen.t) : list Screen.t :=
  List.filter (fun s => String.eqb (Screen.user_id s) uid) db.

Definition own_media (uid : string) (media : list Media.t) : list Media.t :=
  List.filter (fun m => String.eqb (Media.user_id m) uid) media.

(** [total + (item.file_size || 0)] *)
Definition add_size (total : Z) (item : Media.t) : Z :=
  total + match Media.file_size item with
          | Some z => z
          | None => 0
          end.

Section WithClock.

(** [new Date(timestamp).getTime()], for the timestamps the store writes. *)
Variable getTime : string -> Z.

(** [a] is at least as recent as [b]. *)
Definition newer (a b : Activity) : Prop :=
  getTime (timestamp b) <= getTime (timestamp a).

(** [(a, b) => getTime(b.timestamp) - getTime(a.timestamp)] *)
Definition newest_first (a b : Activity) : Sort.Rand Q :=
  Sort.ret (inject_Z (getTime (timestamp b) - getTime (timestamp a))).

(** The statistics computed from the two query results. *)
Definition computeStats (screens : list Screen.t) (media : list Media.t)
    : DashboardStats :=
  mkStats
    (length screens)
    (length (List.filter Screen.is_online screens))
    (length media)
    (fold_left add_size media 0)
    (take 5
       (fst (Sort.sort newest_first
               (List.map screen_activity screens ++
                List.map media_activity media)%list 0%nat))).

(** [fetchDashboardData]: the statistics shown afterwards and the
    notification, if any; [net_screens] and [net_media] tell whether the
    two queries succeed. *)
Definition fetchDashboardData (net_screens net_media : bool)
    (user : option string) (db : list Screen.t) (media : list Media.t)
    (stats : DashboardStats) : DashboardStats * option Toast :=
  match user with
  | Some uid =>
      if net_screens && net_media
      then (computeStats (own_screens uid db) (own_media uid media), None)
      else (stats, Some (toast_error "Failed to load dashboard data"))
  | None => (stats, None)
  end.

End WithClock.

(** [formatTimeAgo]; [now] and [time] are in milliseconds. *)
Definition formatTimeAgo (now time : Z) : string :=
  let diffInSeconds := (now - time) / 1000 in
  if diffInSeconds <? 60 then "Just now"
  else if diffInSeconds <? 3600 then pretty (diffInSeconds / 60) +:+ "m ago"
  else if diffInSeconds <? 86400 then pretty (diffInSeconds / 3600) +:+ "h ago"
  else pretty (diffInSeconds / 86400) +:+ "d ago".

End Dashboard.

(** ** The editor's preview *)

Module Preview.

(** The part of the editor's state the preview works on. *)
Record State : Type := mk {
  playlist : list PlaylistItem.t;
  currentPreviewIndex : JS.number;
  previewUrl : option string;
  (** the pending [setTimeout] of the preview effect *)
  timer : option Z
}.

Inductive Shown : Type :=
| NoContent
| Nothing
| Img (src alt : string)
| Video (src : string).

Section WithStorage.

Variable getPublicUrl : string -> string.

(** The preview effect, run after a render in which [playlist] or
    [currentPreviewIndex] changed; the cleanup of the previous run clears
    its timer first. *)
Definition previewEffect (st : State) : State :=
  if (length (playlist st) =? 0)%nat
  then mk (playlist st) (currentPreviewIndex st) None None
  else
    match JS.index (playlist st) (currentPreviewIndex st) with
    | None => mk (playlist st) (currentPreviewIndex st) (previewUrl st) None
    | Some currentItem =>
        mk (playlist st) (currentPreviewIndex st)
          (Some (getPublicUrl (PlaylistItem.file_path currentItem)))
          (if negb (Display.is_video currentItem)
           then Some (Display.timer_delay currentItem)
           else None)
    end.

(** [setPlaylist(prev => f(prev))]: every edit makes a new array, so the
    effect runs again; the index is not touched. *)
Definition setPlaylist
    (f : list PlaylistItem.t -> list PlaylistItem.t) (st : State) : State :=
  previewEffect
    (mk (f (playlist st)) (currentPreviewIndex st) (previewUrl st) (timer st)).

(** [setCurrentPreviewIndex(f)], with no re-render when the value stays. *)
Definition setCurrentPreviewIndex (f : JS.number -> JS.number) (st : State)
    : State :=
  let next := f (currentPreviewIndex st) in
  if JS.number_eqb next (currentPreviewIndex st) then st
  else previewEffect (mk (playlist st) next (previewUrl st) (timer st)).

(** [prev => (prev + 1) % playlist.length] *)
Definition advance (st : State) : State :=
  setCurrentPreviewIndex
    (fun prev => JS.rem (JS.succ prev) (Z.of_nat (length (playlist st)))) st.

Definition handleVideoEnded (st : State) : State := advance st.

Definition timerFires (st : State) : State :=
  match timer st with
  | Some _ =>
      advance (mk (playlist st) (currentPreviewIndex st) (previewUrl st) None)
  | None => st
  end.

(** One millisecond passes. *)
Definition tick (st : State) : State :=
  match timer st with
  | Some d =>
      if d <=? 1 then timerFires st
      else mk (playlist st) (currentPreviewIndex st) (previewUrl st)
             (Some (d - 1))
  | None => st
  end.

Definition elapse (n : nat) (st : State) : State := Nat.iter n tick st.

(** What the preview pane shows. *)
Definition render (st : State) : Shown :=
  if Display.truthy (previewUrl st) then
    match JS.index (playlist st) (currentPreviewIndex st), previewUrl st with
    | Some item, Some u =>
        if Display.is_image item then Img u (PlaylistItem.name item)
        else if Display.is_video item then Video u
        else Nothing
    | _, _ => Nothing
    end
  else NoContent.

End WithStorage.

End Preview.

(** ** Further sample data *)

Module Fixture.

Definition clock (timestamp : string) : Z :=
  Z.of_nat (String.length timestamp).

Definition banner : PlaylistItem.t :=
  PlaylistItem.mk "m4" "banner.png" "u1/banner.png" (Some "image/png")
    (Some "u1") JS.null (JS.val 3) (Some "t4") None.

Definition two_images : list PlaylistItem.t := [Playback.image5; banner].

Definition tables : list Screen.t := [Sample.lobby; Sample.hall].

(** A display about to submit the lobby's code in lower case. *)
Definition at_the_form : Display.World :=
  Display.mkWorld (Sample.typing "ab12cd") ∅ tables.

(** A display bound to the lobby that has not loaded its playlist yet. *)
Definition bound_to_lobby : Display.World :=
  Display.mkWorld (Sample.playing [])
    {[ Display.storage_key := "S1" ]} tables.

(** A display bound to a screen that no row stands for. *)
Definition bound_to_nothing : Display.World :=
  Display.mkWorld
    (Display.mk "" false (Some "S9") [] (JS.Num 0) None None)
    {[ Display.storage_key := "S9" ]} tables.

(** A display that reaches its first load with an index left over. *)
Definition bound_with_stale_index : Display.World :=
  Display.mkWorld
    (Display.mk "" false (Some "S1") two_images (JS.Num 1)
       (Some "https://cdn.example/media/u1/banner.png") None)
    {[ Display.storage_key := "S1" ]} tables.

Definition clip : Media.t :=
  Media.mk "m5" "u1" "clip.mp4" "u1/clip.mp4" (Some 1000) (Some "video/mp4")
    None "2024-05-01" None.

Definition previewing_last : Preview.State :=
  Preview.mk two_images (JS.Num 1)
    (Some "https://cdn.example/media/u1/banner.png") (Some 3000).

End Fixture.

(** * Properties *)

(** ** The playback state machine *)

Section PlaybackFacts.

Variable getPublicUrl : string -> string.

Abbreviation playerEffect := (Display.playerEffect getPublicUrl).
Abbreviation advance := (Display.advance getPublicUrl).
Abbreviation tick := (Display.tick getPublicUrl).
Abbreviation elapse := (Display.elapse getPublicUrl).

Lemma number_eqb_eq (a b : JS.number) :
  JS.number_eqb a b = true <-> a = b.
Proof.
  destruct a as [x|], b as [y|]; simpl; split; intros H;
    try discriminate; try reflexivity.
  - apply Z.eqb_eq in H. now subst.
  - inversion H. apply Z.eqb_refl.
Qed.

(** The player effect writes [mediaUrl] and [timer] only: a field it does
    not write is the same on each of its branches. *)
Ltac effect_cases st :=
  unfold Display.playerEffect;
  let p := fresh "p" in
  let i := fresh "i" in
  destruct st as [? ? ? p i ? ?]; simpl;
  destruct (length p =? 0)%nat; [reflexivity|];
  destruct (JS.index p i); [|reflexivity];
  match goal with
  | |- context [negb ?b] => destruct b; reflexivity
  end.

Lemma playerEffect_playlist st :
  Display.playlist (playerEffect st) = Display.playlist st.
Proof. effect_cases st. Qed.

Lemma playerEffect_index st :
  Display.currentItemIndex (playerEffect st) = Display.currentItemIndex st.
Proof. effect_cases st. Qed.

Lemma playerEffect_screenId st :
  Display.screenId (playerEffect st) = Display.screenId st.
Proof. effect_cases st. Qed.

Lemma advance_playlist st :
  Display.playlist (advance st) = Display.playlist st.
Proof.
  unfold Display.advance, Display.setCurrentItemIndex.
  destruct (JS.number_eqb _ _); [reflexivity|].
  rewrite playerEffect_playlist. now destruct st.
Qed.

Lemma advance_index st :
  Display.currentItemIndex (advance st) =
  JS.rem (JS.succ (Display.currentItemIndex st))
         (Z.of_nat (length (Display.playlist st))).
Proof.
  unfold Display.advance, Display.setCurrentItemIndex.
  destruct (JS.number_eqb _ _) eqn:E.
  - apply number_eqb_eq in E. now rewrite E.
  - rewrite playerEffect_index. now destruct st.
Qed.

Lemma timerFires_playlist st :
  Display.playlist (Display.timerFires getPublicUrl st) = Display.playlist st.
Proof.
  unfold Display.timerFires. destruct (Display.timer st); [|reflexivity].
  rewrite advance_playlist. now destruct st.
Qed.

Lemma timerFires_index st :
  is_Some (Display.timer st) ->
  Display.currentItemIndex (Display.timerFires getPublicUrl st) =
  JS.rem (JS.succ (Display.currentItemIndex st))
         (Z.of_nat (length (Display.playlist st))).
Proof.
  intros [d Hd]. unfold Display.timerFires. rewrite Hd, advance_index.
  now destruct st.
Qed.

Lemma setTimer_same st : Display.setTimer (Display.timer st) st = st.
Proof. now destruct st. Qed.

Lemma elapse_succ (n : nat) st : elapse (S n) st = tick (elapse n st).
Proof. reflexivity. Qed.

Lemma elapse_add (n m : nat) st : elapse (n + m) st = elapse m (elapse n st).
Proof.
  unfold Display.elapse. rewrite Nat.add_comm. apply Nat.iter_add.
Qed.

(** While the timer has more than [n] milliseconds left, [n] milliseconds
    only count it down. *)
Lemma elapse_before (n : nat) (d : Z) st :
  Display.timer st = Some d -> Z.of_nat n < d ->
  elapse n st = Display.setTimer (Some (d - Z.of_nat n)) st.
Proof.
  intros Ht. induction n as [|n IH]; intros Hn.
  - simpl. rewrite Z.sub_0_r, <- Ht. symmetry. apply setTimer_same.
  - rewrite elapse_succ, IH by lia.
    unfold Display.tick. destruct st as [c l s p i u t]; simpl.
    destruct (Z.leb_spec (d - Z.of_nat n) 1) as [Hle|_]; [lia|].
    unfold Display.setTimer; simpl. do 2 f_equal. lia.
Qed.

(** With no timer pending, the passing of time changes nothing. *)
Lemma elapse_no_timer (n : nat) st :
  Display.timer st = None -> elapse n st = st.
Proof.
  intros Ht. induction n as [|n IH]; [reflexivity|].
  rewrite elapse_succ, IH. unfold Display.tick. now rewrite Ht.
Qed.

Lemma playerEffect_video st item :
  JS.index (Display.playlist st) (Display.currentItemIndex st) = Some item ->
  Display.is_video item = true ->
  Display.timer (playerEffect st) = None.
Proof.
  intros Hit Hv. unfold Display.playerEffect.
  destruct st as [c l s p i u t]; simpl in *.
  destruct (length p =? 0)%nat; [reflexivity|].
  rewrite Hit, Hv. reflexivity.
Qed.

Lemma playerEffect_empty st :
  Display.playlist st = [] ->
  playerEffect st =
  Display.setMediaUrl None (Display.setTimer None st).
Proof.
  intros Hp. unfold Display.playerEffect.
  destruct st as [c l s p i u t]; simpl in *. now subst p.
Qed.

(** C3. A playlist of one item reaches a state that only a new playlist
    leaves. Its first advance, whether by the timer or by the end of the
    video, computes [(0 + 1) % 1], the index the state already holds: the
    write does not re-render, so the effect does not run, no timer is set
    and the [<video>] element is given nothing new to play. From then on
    neither the passing of time nor an end signal changes the state. *)
Theorem one_item_playlist_stops_after_first_advance (item : PlaylistItem.t)
    (st : Display.State) (events : list Lifecycle.event) :
  Forall (fun e => e = Lifecycle.MillisecondPassed \/ e = Lifecycle.VideoEnded)
    events ->
  let loaded := fst (Display.onPlaylistUpdate getPublicUrl [item] st) in
  let stopped := Display.setTimer None loaded in
  Display.timerFires getPublicUrl loaded = stopped /\
  (Display.is_video item = true ->
   loaded = stopped /\
   Display.handleVideoEnded getPublicUrl loaded = stopped) /\
  Display.playlist stopped = [item] /\
  Display.currentItemIndex stopped = JS.Num 0 /\
  Display.timer stopped = None /\
  Lifecycle.run getPublicUrl events stopped = stopped.
Proof.
  intros Hev loaded stopped.
  assert (Hstopped :
    stopped =
    Display.mk (Display.pairingCode st) (Display.loading st)
      (Display.screenId st) [item] (JS.Num 0)
      (Some (getPublicUrl (PlaylistItem.file_path item))) None).
  { subst stopped loaded. unfold Display.onPlaylistUpdate, Display.playerEffect.
    destruct st as [c l s p i u t]; simpl.
    destruct (Display.is_video item); reflexivity. }
  assert (Hadv : advance stopped = stopped) by (now rewrite Hstopped).
  split; [|split; [|split; [|split; [|split]]]].
  - unfold Display.timerFires. destruct (Display.timer loaded) eqn:Et.
    + exact Hadv.
    + subst stopped. rewrite <- Et. symmetry. apply setTimer_same.
  - intros Hv.
    assert (Hl : loaded = stopped).
    { subst stopped. unfold loaded, Display.onPlaylistUpdate,
        Display.playerEffect.
      destruct st as [c l s p i u t]; simpl. now rewrite Hv. }
    split; [exact Hl|]. rewrite Hl. exact Hadv.
  - now rewrite Hstopped.
  - now rewrite Hstopped.
  - now rewrite Hstopped.
  - unfold Lifecycle.run.
    induction Hev as [|e events [-> | ->] _ IH]; [reflexivity| |]; simpl.
    + unfold Display.tick.
      replace (Display.timer stopped) with (@None Z) by (now rewrite Hstopped).
      exact IH.
    + unfold Display.handleVideoEnded. rewrite Hadv. exact IH.
Qed.

(** C6. The subscription callback, whatever the state it finds, installs
    the delivered playlist as it is and sets the index to 0. *)
Theorem update_replaces_playlist_and_resets_index
    (newPlaylist : list PlaylistItem.t) (st : Display.State) :
  Display.playlist (fst (Display.onPlaylistUpdate getPublicUrl newPlaylist st))
    = newPlaylist /\
  Display.currentItemIndex
    (fst (Display.onPlaylistUpdate getPublicUrl newPlaylist st)) = JS.Num 0.
Proof.
  unfold Display.onPlaylistUpdate; simpl.
  rewrite playerEffect_playlist, playerEffect_index.
  now destruct st.
Qed.

(** C7. Entering an index that holds a video schedules no timer: time
    passing leaves the state as it is and no timer can fire, and the
    end-of-playback handler moves the index to [(index + 1) % length]. On
    the playlist [image for 5 s; video] the index is 0 for the first
    5000 ms, is 1 from then on for as long as no end signal comes, and
    the end signal then brings it back to 0. *)
Theorem video_advances_only_on_end (st : Display.State)
    (item : PlaylistItem.t) :
  JS.index (Display.playlist st) (Display.currentItemIndex st) = Some item ->
  Display.is_video item = true ->
  (Display.timer (playerEffect st) = None /\
   (forall n, elapse n (playerEffect st) = playerEffect st) /\
   Display.timerFires getPublicUrl (playerEffect st) = playerEffect st /\
   Display.currentItemIndex
     (Display.handleVideoEnded getPublicUrl (playerEffect st)) =
   JS.rem (JS.succ (Display.currentItemIndex st))
          (Z.of_nat (length (Display.playlist st)))) /\
  (forall st0 n,
      let s0 :=
        fst (Display.onPlaylistUpdate getPublicUrl
               Playback.image_then_video st0) in
      (Z.of_nat n < 5000 ->
       Display.currentItemIndex (elapse n s0) = JS.Num 0) /\
      (5000 <= Z.of_nat n ->
       Display.currentItemIndex (elapse n s0) = JS.Num 1 /\
       Display.timer (elapse n s0) = None /\
       Display.currentItemIndex
         (Display.handleVideoEnded getPublicUrl (elapse n s0)) = JS.Num 0)).
Proof.
  intros Hit Hv. split.
  - pose proof (playerEffect_video st item Hit Hv) as Ht.
    repeat split.
    + exact Ht.
    + intros n. now apply elapse_no_timer.
    + unfold Display.timerFires. now rewrite Ht.
    + unfold Display.handleVideoEnded.
      now rewrite advance_index, playerEffect_index, playerEffect_playlist.
  - clear st item Hit Hv. intros st0 n s0.
    assert (Ht0 : Display.timer s0 = Some 5000)
      by (destruct st0; reflexivity).
    assert (Hat : elapse (Z.to_nat 5000) s0 =
                  Display.mk (Display.pairingCode st0) (Display.loading st0)
                    (Display.screenId st0) Playback.image_then_video
                    (JS.Num 1) (Some (getPublicUrl "u1/clip.mp4")) None).
    { replace (Z.to_nat 5000) with (S (Z.to_nat 4999)) by lia.
      rewrite elapse_succ, (elapse_before _ 5000) by (auto; lia).
      rewrite Z2Nat.id by lia. destruct st0; reflexivity. }
    split.
    + intros Hn. rewrite (elapse_before n 5000) by auto.
      destruct st0; reflexivity.
    + intros Hn.
      replace n with (Z.to_nat 5000 + (n - Z.to_nat 5000))%nat by lia.
      rewrite elapse_add, Hat, elapse_no_timer by reflexivity.
      repeat split.
Qed.

(** C9. With an empty playlist the player effect schedules no timer and
    clears the media URL, and a bound client renders the empty-playlist
    message; the same holds when an update delivers an empty playlist.
    An advance in that state returns a state (the index becomes [NaN]),
    still without timer or media and still rendered as the empty-playlist
    message, never as an error, and the next delivered playlist starts
    again at index 0. *)
Theorem empty_playlist_is_idle (st : Display.State) :
  Display.playlist st = [] ->
  (Display.timer (playerEffect st) = None /\
   Display.mediaUrl (playerEffect st) = None /\
   (Display.truthy (Display.screenId st) = true ->
    Display.render (playerEffect st) = Display.EmptyPlaylistMessage)) /\
  (forall st0,
      let s := fst (Display.onPlaylistUpdate getPublicUrl [] st0) in
      Display.timer s = None /\ Display.mediaUrl s = None /\
      (Display.truthy (Display.screenId st0) = true ->
       Display.render s = Display.EmptyPlaylistMessage)) /\
  (let s := advance (playerEffect st) in
   Display.playlist s = [] /\
   Display.timer s = None /\ Display.mediaUrl s = None /\
   Display.currentItemIndex s = JS.NaN /\
   (forall n, elapse n s = s) /\
   (Display.truthy (Display.screenId st) = true ->
    Display.render s = Display.EmptyPlaylistMessage) /\
   forall newPlaylist,
     Display.currentItemIndex
       (fst (Display.onPlaylistUpdate getPublicUrl newPlaylist s)) =
     JS.Num 0).
Proof.
  intros Hp. split; [|split].
  - rewrite (playerEffect_empty st Hp).
    destruct st as [c l s p i u t]; simpl in *; subst p.
    repeat split. intros Hb. unfold Display.render; simpl. now rewrite Hb.
  - intros st0 s. subst s. unfold Display.onPlaylistUpdate; simpl.
    rewrite playerEffect_empty by (now destruct st0).
    destruct st0 as [c l s p i u t]; simpl.
    repeat split. intros Hb. unfold Display.render; simpl. now rewrite Hb.
  - rewrite (playerEffect_empty st Hp).
    destruct st as [c l s p i u t]; simpl in *; subst p.
    assert (Hadv :
      advance (Display.setMediaUrl None
                 (Display.setTimer None (Display.mk c l s [] i u t))) =
      Display.mk c l s [] JS.NaN None None).
    { unfold Display.advance, Display.setCurrentItemIndex; simpl.
      destruct i; reflexivity. }
    rewrite Hadv. repeat split.
    + intros n. now apply elapse_no_timer.
    + intros Hb. unfold Display.render; simpl. now rewrite Hb.
    + intros newPlaylist. unfold Display.onPlaylistUpdate; simpl.
      now rewrite playerEffect_index.
Qed.

End PlaybackFacts.

(** ** Letter case *)

Section LetterCase.

Lemma is_lower_range (c : ascii) :
  JS.is_lower c = true <->
  (97 <= nat_of_ascii c /\ nat_of_ascii c <= 122)%nat.
Proof.
  unfold JS.is_lower. rewrite andb_true_iff, !Nat.leb_le. tauto.
Qed.

Lemma upper_ascii_lower (c : ascii) :
  JS.is_lower c = true ->
  JS.upper_ascii c = ascii_of_nat (nat_of_ascii c - 32).
Proof.
  unfold JS.upper_ascii, JS.is_lower. now intros ->.
Qed.

Lemma upper_ascii_other (c : ascii) :
  JS.is_lower c = false -> JS.upper_ascii c = c.
Proof.
  unfold JS.upper_ascii, JS.is_lower. now intros ->.
Qed.

Lemma nat_of_upper_lower (c : ascii) :
  JS.is_lower c = true ->
  nat_of_ascii (JS.upper_ascii c) = (nat_of_ascii c - 32)%nat.
Proof.
  intros H. rewrite (upper_ascii_lower c H).
  apply is_lower_range in H. apply nat_ascii_embedding. lia.
Qed.

(** An upper-cased character is not a lower-case letter. *)
Lemma upper_not_lower (c : ascii) : JS.is_lower (JS.upper_ascii c) = false.
Proof.
  destruct (JS.is_lower c) eqn:E.
  - apply not_true_is_false. intros H. apply is_lower_range in H.
    rewrite (nat_of_upper_lower c E) in H.
    apply is_lower_range in E. lia.
  - now rewrite (upper_ascii_other c E).
Qed.

Lemma upper_ascii_idem (c : ascii) :
  JS.upper_ascii (JS.upper_ascii c) = JS.upper_ascii c.
Proof. apply upper_ascii_other, upper_not_lower. Qed.

Lemma upper_ascii_inj_lower (a b : ascii) :
  JS.is_lower a = true -> JS.is_lower b = true ->
  JS.upper_ascii a = JS.upper_ascii b -> a = b.
Proof.
  intros Ha Hb H. apply (f_equal nat_of_ascii) in H.
  rewrite (nat_of_upper_lower a Ha), (nat_of_upper_lower b Hb) in H.
  apply is_lower_range in Ha, Hb.
  rewrite <- (ascii_nat_embedding a), <- (ascii_nat_embedding b).
  f_equal. lia.
Qed.

Lemma same_letter_upper (a b : ascii) :
  JS.same_letter a b <-> JS.upper_ascii a = JS.upper_ascii b.
Proof.
  split.
  - intros H. destruct H as [c|c Hc|c Hc].
    + reflexivity.
    + symmetry. apply upper_ascii_idem.
    + apply upper_ascii_idem.
  - intros H.
    destruct (JS.is_lower a) eqn:Ea, (JS.is_lower b) eqn:Eb.
    + rewrite (upper_ascii_inj_lower a b Ea Eb H). constructor.
    + rewrite (upper_ascii_other b Eb) in H. subst b. now constructor.
    + rewrite (upper_ascii_other a Ea) in H. subst a. now constructor.
    + rewrite (upper_ascii_other a Ea), (upper_ascii_other b Eb) in H.
      subst b. constructor.
Qed.

(** Two strings are equal up to letter case exactly when their upper-case
    forms coincide. *)
Lemma eq_nocase_upper (s t : string) :
  JS.eq_nocase s t <-> JS.toUpperCase s = JS.toUpperCase t.
Proof.
  split.
  - intros H. induction H as [|a b s t Hab _ IH]; [reflexivity|].
    simpl. apply same_letter_upper in Hab. now rewrite Hab, IH.
  - revert t. induction s as [|a s IH]; intros [|b t] H; simpl in H;
      try discriminate.
    + constructor.
    + injection H as Hab Hst. constructor.
      * now apply same_letter_upper.
      * now apply IH.
Qed.

Lemma eq_nocase_refl (s : string) : JS.eq_nocase s s.
Proof. now apply eq_nocase_upper. Qed.

Lemma toUpperCase_idem (s : string) :
  JS.toUpperCase (JS.toUpperCase s) = JS.toUpperCase s.
Proof.
  induction s as [|a s IH]; [reflexivity|].
  simpl. now rewrite upper_ascii_idem, IH.
Qed.

End LetterCase.

(** ** Queries on the [screens] table *)

Section StoreFacts.

Lemma has_code_true (c : string) (s : Screen.t) :
  Store.has_code c s = true <-> Screen.pairing_code s = Some c.
Proof.
  unfold Store.has_code. destruct (Screen.pairing_code s) as [c'|].
  - rewrite String.eqb_eq. split; congruence.
  - split; discriminate.
Qed.

Lemma has_id_true (i : string) (s : Screen.t) :
  Store.has_id i s = true <-> Screen.id s = i.
Proof. unfold Store.has_id. apply String.eqb_eq. Qed.

Lemma filter_none {A : Type} (p : A -> bool) (l : list A) :
  (forall x, x ∈ l -> p x = false) -> List.filter p l = [].
Proof.
  induction l as [|a l IH]; intros H; [reflexivity|].
  simpl. rewrite (H a) by constructor.
  apply IH. intros x Hx. apply H. now constructor.
Qed.

Lemma code_in_codes (c : string) (s : Screen.t) (db : list Screen.t) :
  s ∈ db -> Screen.pairing_code s = Some c ->
  c ∈ omap Screen.pairing_code db.
Proof. intros Hs Hc. apply list_elem_of_omap. eauto. Qed.

(** Under the [UNIQUE] constraint a code held by a row selects that row
    and no other. *)
Lemma filter_has_code_unique (c : string) (s : Screen.t)
    (db : list Screen.t) :
  NoDup (omap Screen.pairing_code db) ->
  s ∈ db -> Screen.pairing_code s = Some c ->
  List.filter (Store.has_code c) db = [s].
Proof.
  induction db as [|a db IH]; intros Hnd Hs Hc.
  - inversion Hs.
  - simpl in Hnd. apply elem_of_cons in Hs as [->|Hs].
    + rewrite Hc in Hnd. apply NoDup_cons in Hnd as [Hnotin _].
      simpl. rewrite (proj2 (has_code_true c a) Hc). f_equal.
      apply filter_none. intros x Hx.
      apply not_true_is_false. intros Hx'. apply has_code_true in Hx'.
      apply Hnotin. now apply (code_in_codes c x).
    + simpl. destruct (Store.has_code c a) eqn:Ea.
      * apply has_code_true in Ea. rewrite Ea in Hnd.
        apply NoDup_cons in Hnd as [Hnotin _].
        exfalso. apply Hnotin. now apply (code_in_codes c s).
      * apply IH; auto.
        destruct (Screen.pairing_code a); [|exact Hnd].
        now apply NoDup_cons in Hnd as [_ Hnd].
Qed.

Lemma elem_of_update_rows (f : Screen.t -> Screen.t) (i : string)
    (db : list Screen.t) (r : Screen.t) :
  r ∈ Store.update_rows f i db <->
  exists r0, r0 ∈ db /\ r = if Store.has_id i r0 then f r0 else r0.
Proof.
  unfold Store.update_rows. rewrite list_elem_of_In, in_map_iff.
  split; intros (r0 & H1 & H2).
  - exists r0. rewrite list_elem_of_In. auto.
  - exists r0. rewrite <- list_elem_of_In. auto.
Qed.

Lemma update_rows_other (f : Screen.t -> Screen.t) (i : string)
    (db : list Screen.t) (r : Screen.t) :
  r ∈ db -> Screen.id r <> i -> r ∈ Store.update_rows f i db.
Proof.
  intros Hr Hne. apply elem_of_update_rows. exists r. split; [exact Hr|].
  destruct (Store.has_id i r) eqn:E; [|reflexivity].
  apply has_id_true in E. contradiction.
Qed.

Lemma update_rows_target (f : Screen.t -> Screen.t) (i : string)
    (db : list Screen.t) (r : Screen.t) :
  r ∈ db -> Screen.id r = i -> f r ∈ Store.update_rows f i db.
Proof.
  intros Hr Hi. apply elem_of_update_rows. exists r. split; [exact Hr|].
  now rewrite (proj2 (has_id_true i r) Hi).
Qed.

(** Clearing the code of the rows with one id leaves no row with that id
    holding a code, and gives no row a code it did not have. *)
Lemma cleared_rows (i : string) (db : list Screen.t) (r : Screen.t) :
  r ∈ Store.update_rows (Screen.set_pairing_code None) i db ->
  (Screen.id r = i -> Screen.pairing_code r = None) /\
  (forall c, Screen.pairing_code r = Some c ->
             r ∈ db /\ Screen.id r <> i).
Proof.
  intros Hr. apply elem_of_update_rows in Hr as (r0 & Hr0 & ->).
  destruct (Store.has_id i r0) eqn:E.
  - split; [reflexivity|]. intros c Hc. discriminate.
  - split.
    + intros Hi. apply has_id_true in Hi. congruence.
    + intros c _. split; [exact Hr0|].
      intros Hi. apply has_id_true in Hi. congruence.
Qed.

(** The primary key: two rows of the table with the same id are the same
    row. *)
Lemma same_id_same_row (db : list Screen.t) (r s : Screen.t) :
  NoDup (List.map Screen.id db) -> r ∈ db -> s ∈ db ->
  Screen.id r = Screen.id s -> r = s.
Proof.
  induction db as [|a db IH]; intros Hnd Hr Hs Hid.
  - inversion Hr.
  - simpl in Hnd. apply NoDup_cons in Hnd as [Hnotin Hnd].
    apply elem_of_cons in Hr as [->|Hr]; apply elem_of_cons in Hs as [->|Hs].
    + reflexivity.
    + exfalso. apply Hnotin. rewrite Hid.
      apply list_elem_of_In, in_map. now apply list_elem_of_In.
    + exfalso. apply Hnotin. rewrite <- Hid.
      apply list_elem_of_In, in_map. now apply list_elem_of_In.
    + now apply IH.
Qed.

(** Two updates of the same rows amount to one. *)
Lemma update_rows_twice (f g : Screen.t -> Screen.t) (i : string)
    (db : list Screen.t) :
  (forall r, Screen.id (f r) = Screen.id r) ->
  Store.update_rows g i (Store.update_rows f i db) =
  Store.update_rows (fun r => g (f r)) i db.
Proof.
  intros Hf. unfold Store.update_rows. rewrite List.map_map.
  apply List.map_ext. intros r.
  destruct (Store.has_id i r) eqn:E; [|now rewrite E].
  unfold Store.has_id in *. now rewrite Hf, E.
Qed.

End StoreFacts.

(** ** Pairing *)

Section PairingFacts.

Lemma handlePairing_match (net_update : bool) (w : Display.World)
    (s : Screen.t) :
  List.filter
    (Store.has_code (JS.toUpperCase (Display.pairingCode (Display.client w))))
    (Display.screens w) = [s] ->
  Display.handlePairing true net_update w =
  (Display.mkWorld
     (Display.setLoading false
        (Display.setScreenId (Some (Screen.id s)) (Display.client w)))
     (<[Display.storage_key := Screen.id s]> (Display.localStorage w))
     (snd (Store.update_pairing_code net_update (Screen.id s) None
             (Display.screens w))),
   Display.Paired).
Proof.
  intros H. unfold Display.handlePairing, Store.select_single.
  now rewrite H.
Qed.

Lemma handlePairing_no_match (net_select net_update : bool)
    (w : Display.World) :
  (forall s, s ∈ Display.screens w ->
     Screen.pairing_code s <>
     Some (JS.toUpperCase (Display.pairingCode (Display.client w)))) ->
  Display.handlePairing net_select net_update w =
  (Display.mkWorld (Display.setLoading false (Display.client w))
     (Display.localStorage w) (Display.screens w),
   Display.InvalidCode).
Proof.
  intros H. unfold Display.handlePairing, Store.select_single.
  rewrite filter_none.
  - now destruct net_select.
  - intros x Hx. apply not_true_is_false. intros Hc.
    apply has_code_true in Hc. now apply (H x).
Qed.

(** A successful pairing comes from exactly one matching row. *)
Lemma handlePairing_paired_inv (net_select net_update : bool)
    (w w' : Display.World) :
  Display.handlePairing net_select net_update w = (w', Display.Paired) ->
  exists s,
    s ∈ Display.screens w /\
    Screen.pairing_code s =
      Some (JS.toUpperCase (Display.pairingCode (Display.client w))) /\
    Display.screenId (Display.client w') = Some (Screen.id s).
Proof.
  unfold Display.handlePairing, Store.select_single.
  destruct net_select; [|discriminate].
  destruct (List.filter _ _) as [|s [|s' l]] eqn:E; try discriminate.
  intros H. injection H as <-.
  assert (Hin : In s (List.filter
            (Store.has_code
               (JS.toUpperCase (Display.pairingCode (Display.client w))))
            (Display.screens w))) by (rewrite E; now left).
  apply filter_In in Hin as [Hin Hc].
  exists s. split; [now apply list_elem_of_In|].
  split; [now apply has_code_true|].
  now destruct (Display.client w).
Qed.

(** *** Under the row-level policies *)

Lemma filter_filter_comm {A : Type} (p q : A -> bool) (l : list A) :
  List.filter p (List.filter q l) = List.filter q (List.filter p l).
Proof.
  induction l as [|a l IH]; [reflexivity|]. simpl.
  destruct (q a) eqn:Eq, (p a) eqn:Ep; simpl; rewrite ?Eq, ?Ep, IH;
    reflexivity.
Qed.

(** A row that holds a code is visible to every session. *)
Lemma visible_code (actor : option string) (c : string) (s : Screen.t) :
  Store.has_code c s = true -> Policy.visible actor s = true.
Proof.
  unfold Store.has_code, Policy.visible.
  destruct (Screen.pairing_code s); [intros _; apply orb_true_r|discriminate].
Qed.

Lemma filter_visible_code (actor : option string) (c : string)
    (db : list Screen.t) :
  List.filter (Store.has_code c) (List.filter (Policy.visible actor) db) =
  List.filter (Store.has_code c) db.
Proof.
  induction db as [|a db IH]; [reflexivity|]. simpl.
  destruct (Store.has_code c a) eqn:E.
  - rewrite (visible_code actor c a E). simpl. now rewrite E, IH.
  - destruct (Policy.visible actor a); simpl; rewrite ?E; exact IH.
Qed.

(** Under the primary key, an update by id reaches the one row with that
    id when the session owns it, and nothing otherwise. *)
Lemma policy_update_rows_cases (actor : option string)
    (f : Screen.t -> Screen.t) (i : string) (s : Screen.t)
    (db : list Screen.t) :
  NoDup (List.map Screen.id db) -> s ∈ db -> Screen.id s = i ->
  Policy.update_rows actor f i db =
  if Policy.owns actor s then Store.update_rows f i db else db.
Proof.
  intros Hpk Hs Hi.
  assert (Hrow : forall r, In r db -> Store.has_id i r = true -> r = s).
  { intros r Hr E. apply has_id_true in E.
    apply (same_id_same_row db); auto; [now apply list_elem_of_In|congruence]. }
  unfold Policy.update_rows, Store.update_rows.
  destruct (Policy.owns actor s) eqn:Eo.
  - apply List.map_ext_in. intros r Hr.
    destruct (Store.has_id i r) eqn:E; [|reflexivity].
    now rewrite (Hrow r Hr E), Eo.
  - rewrite <- (List.map_id db) at 2. apply List.map_ext_in. intros r Hr.
    destruct (Store.has_id i r) eqn:E; [|reflexivity].
    now rewrite (Hrow r Hr E), Eo.
Qed.

Lemma policy_handlePairing_match (actor : option string)
    (toUpperCase : string -> string) (net_update : bool)
    (w : Display.World) (s : Screen.t) :
  List.filter
    (Store.has_code (toUpperCase (Display.pairingCode (Display.client w))))
    (Display.screens w) = [s] ->
  Policy.handlePairing actor toUpperCase true net_update w =
  (Display.mkWorld
     (Display.setLoading false
        (Display.setScreenId (Some (Screen.id s)) (Display.client w)))
     (<[Display.storage_key := Screen.id s]> (Display.localStorage w))
     (snd (Policy.clear_pairing_code actor net_update (Screen.id s)
             (Display.screens w))),
   Display.Paired).
Proof.
  intros H.
  unfold Policy.handlePairing, Policy.select_single, Store.select_single.
  now rewrite filter_visible_code, H.
Qed.

(** A successful pairing comes from exactly one matching row, whoever
    asks. *)
Lemma policy_handlePairing_paired_inv (actor : option string)
    (toUpperCase : string -> string) (net_select net_update : bool)
    (w w' : Display.World) :
  Policy.handlePairing actor toUpperCase net_select net_update w =
    (w', Display.Paired) ->
  exists s,
    s ∈ Display.screens w /\
    Screen.pairing_code s =
      Some (toUpperCase (Display.pairingCode (Display.client w))) /\
    Display.screenId (Display.client w') = Some (Screen.id s).
Proof.
  unfold Policy.handlePairing, Policy.select_single, Store.select_single.
  rewrite filter_visible_code.
  destruct net_select; [|discriminate].
  destruct (List.filter _ _) as [|s [|s' l]] eqn:E; try discriminate.
  intros H. injection H as <-.
  assert (Hin : In s (List.filter
            (Store.has_code
               (toUpperCase (Display.pairingCode (Display.client w))))
            (Display.screens w))) by (rewrite E; now left).
  apply filter_In in Hin as [Hin Hc].
  exists s. split; [now apply list_elem_of_In|].
  split; [now apply has_code_true|].
  now destruct (Display.client w).
Qed.

(** The functions of [Display] are those of a session that owns the rows
    of the table. *)
Lemma handlePairing_of_owner (uid : string) (net_select net_update : bool)
    (w : Display.World) :
  (forall r, r ∈ Display.screens w -> Screen.user_id r = uid) ->
  Policy.handlePairing (Some uid) JS.toUpperCase net_select net_update w =
  Display.handlePairing net_select net_update w.
Proof.
  intros Hown.
  assert (Hupd : forall f i,
    Policy.update_rows (Some uid) f i (Display.screens w) =
    Store.update_rows f i (Display.screens w)).
  { intros f i. unfold Policy.update_rows, Store.update_rows.
    apply List.map_ext_in. intros r Hr.
    assert (Ho : Policy.owns (Some uid) r = true).
    { simpl. apply String.eqb_eq. symmetry. apply Hown.
      now apply list_elem_of_In. }
    now rewrite Ho, andb_true_r. }
  unfold Policy.handlePairing, Display.handlePairing, Policy.select_single,
    Store.select_single, Policy.clear_pairing_code, Store.update_pairing_code.
  rewrite filter_visible_code.
  destruct net_select; [|reflexivity].
  destruct (List.filter _ _) as [|s [|s' l]]; try reflexivity.
  destruct net_update; [|reflexivity]. simpl. now rewrite Hupd.
Qed.

(** C1. A redemption retires the code only when the display's session
    owns the screen and the update goes through. In every other run, and
    so for every display that is not signed in, [handlePairing] finds the
    screen that holds the submitted code (in upper case), reports success
    and binds the client to it in its state and in local storage, while the
    table stays exactly as it was: the code is still there, and a second
    attempt with it, from any such display, pairs again with the same
    screen. *)
Theorem redemption_leaves_code_redeemable (toUpperCase : string -> string)
    (actor : option string) (net_update : bool) (w : Display.World)
    (s : Screen.t) :
  Store.well_formed (Display.screens w) ->
  s ∈ Display.screens w ->
  Screen.pairing_code s =
    Some (toUpperCase (Display.pairingCode (Display.client w))) ->
  Policy.owns actor s && net_update = false ->
  Policy.owns None s = false /\
  Policy.handlePairing actor toUpperCase true net_update w =
    (Display.mkWorld
       (Display.setLoading false
          (Display.setScreenId (Some (Screen.id s)) (Display.client w)))
       (<[Display.storage_key := Screen.id s]> (Display.localStorage w))
       (Display.screens w),
     Display.Paired) /\
  forall actor2 net_update2 st2 ls2,
    Policy.owns actor2 s && net_update2 = false ->
    toUpperCase (Display.pairingCode st2) =
    toUpperCase (Display.pairingCode (Display.client w)) ->
    Policy.handlePairing actor2 toUpperCase true net_update2
      (Display.mkWorld st2 ls2 (Display.screens w)) =
    (Display.mkWorld
       (Display.setLoading false
          (Display.setScreenId (Some (Screen.id s)) st2))
       (<[Display.storage_key := Screen.id s]> ls2)
       (Display.screens w),
     Display.Paired).
Proof.
  intros [Hpk Huq] Hs Hc Hlost.
  assert (Hrun : forall a n st ls,
    Policy.owns a s && n = false ->
    toUpperCase (Display.pairingCode st) =
    toUpperCase (Display.pairingCode (Display.client w)) ->
    Policy.handlePairing a toUpperCase true n
      (Display.mkWorld st ls (Display.screens w)) =
    (Display.mkWorld
       (Display.setLoading false
          (Display.setScreenId (Some (Screen.id s)) st))
       (<[Display.storage_key := Screen.id s]> ls)
       (Display.screens w),
     Display.Paired)).
  { intros a n st ls Hl Hsame.
    rewrite (policy_handlePairing_match a toUpperCase n
               (Display.mkWorld st ls (Display.screens w)) s).
    - cbn [Display.client Display.localStorage Display.screens].
      unfold Policy.clear_pairing_code.
      rewrite (policy_update_rows_cases a _ (Screen.id s) s) by auto.
      destruct n; [|reflexivity].
      rewrite andb_true_r in Hl. now rewrite Hl.
    - cbn [Display.client Display.screens]. rewrite Hsame.
      now apply filter_has_code_unique. }
  split; [reflexivity|]. split.
  - specialize (Hrun actor net_update (Display.client w)
                  (Display.localStorage w) Hlost eq_refl).
    now destruct w.
  - intros a n st ls Hl Hsame. now apply Hrun.
Qed.

(** Issuing code [c] on the screen with id [i] leaves that screen as the
    only holder of [c], when no other screen held it. *)
Lemma filter_after_issue (c i : string) (s1 : Screen.t)
    (db : list Screen.t) :
  NoDup (List.map Screen.id db) -> s1 ∈ db -> Screen.id s1 = i ->
  (forall r, r ∈ db -> r <> s1 -> Screen.pairing_code r <> Some c) ->
  List.filter (Store.has_code c)
    (Store.update_rows (Screen.set_pairing_code (Some c)) i db) =
  [Screen.set_pairing_code (Some c) s1].
Proof.
  induction db as [|a db IH]; intros Hnd Hs Hi Hothers.
  - inversion Hs.
  - simpl in Hnd. apply NoDup_cons in Hnd as [Hnotin Hnd].
    assert (Hids : forall r, r ∈ db -> Screen.id r <> Screen.id a).
    { intros r Hr E. apply Hnotin. rewrite <- E.
      apply list_elem_of_In, in_map. now apply list_elem_of_In. }
    apply elem_of_cons in Hs as [->|Hs].
    + cbn [Store.update_rows List.map].
      rewrite (proj2 (has_id_true i a) Hi). cbn [List.filter].
      rewrite (proj2 (has_code_true c (Screen.set_pairing_code (Some c) a))
                 eq_refl).
      f_equal.
      apply filter_none. intros x Hx.
      apply elem_of_update_rows in Hx as (r0 & Hr0 & ->).
      destruct (Store.has_id i r0) eqn:E.
      * apply has_id_true in E. exfalso. apply (Hids r0 Hr0). congruence.
      * apply not_true_is_false. intros Hc. apply has_code_true in Hc.
        apply (Hothers r0); [now right| |exact Hc].
        intros ->. now apply (Hids a Hr0).
    + assert (Hai : Screen.id a <> i).
      { intros E. apply (Hids s1 Hs). congruence. }
      cbn [Store.update_rows List.map].
      destruct (Store.has_id i a) eqn:E;
        [apply has_id_true in E; contradiction|].
      cbn [List.filter].
      destruct (Store.has_code c a) eqn:Ec.
      * apply has_code_true in Ec. exfalso.
        apply (Hothers a); [now left| |exact Ec].
        intros ->. now apply Hai.
      * apply IH; auto. intros r Hr. apply Hothers. now right.
Qed.

Lemma upper_ascii_below (c : ascii) :
  (nat_of_ascii (JS.upper_ascii c) <? 128)%nat = (nat_of_ascii c <? 128)%nat.
Proof.
  destruct (JS.is_lower c) eqn:E.
  - rewrite (nat_of_upper_lower c E). apply is_lower_range in E.
    transitivity true; [|symmetry]; apply Nat.ltb_lt; lia.
  - now rewrite (upper_ascii_other c E).
Qed.

Lemma is_ascii_upper (s : string) :
  JS.is_ascii (JS.toUpperCase s) = JS.is_ascii s.
Proof.
  induction s as [|a s IH]; [reflexivity|].
  simpl. now rewrite upper_ascii_below, IH.
Qed.

(** C4, as the code has it. [toUpperCase] is the engine's function, of
    which only its values on ASCII strings are used. For a screen whose
    stored code [C] is in upper-case form, a submitted string pairs the
    client with that screen (state and local storage hold its id) exactly
    when its upper-case form is [C]; for a submitted string of ASCII
    characters that is: exactly when it equals [C] up to letter case. This
    holds whoever runs the display and whatever becomes of the update that
    follows. In particular, once the owner has issued ["AB12CD"] on
    screen [S1], redeeming ["ab12cd"] succeeds and binds to [S1]. *)
Theorem redeem_matches_upper_case_code_up_to_case
    (toUpperCase : string -> string) :
  (forall s, JS.is_ascii s = true -> toUpperCase s = JS.toUpperCase s) ->
  (forall (actor : option string) (net_update : bool) (w : Display.World)
          (s : Screen.t) (C : string),
      Store.well_formed (Display.screens w) ->
      s ∈ Display.screens w ->
      Screen.pairing_code s = Some C ->
      toUpperCase C = C ->
      ((exists w1,
           Policy.handlePairing actor toUpperCase true net_update w =
             (w1, Display.Paired) /\
           Display.screenId (Display.client w1) = Some (Screen.id s) /\
           Display.localStorage w1 !! Display.storage_key =
             Some (Screen.id s))
       <-> toUpperCase (Display.pairingCode (Display.client w)) = C) /\
      (JS.is_ascii (Display.pairingCode (Display.client w)) = true ->
       (toUpperCase (Display.pairingCode (Display.client w)) = C
        <-> JS.eq_nocase (Display.pairingCode (Display.client w)) C))) /\
  (forall (actor : option string) (net_update : bool) (st : Display.State)
          (ls : gmap string string) (db : list Screen.t) (s1 : Screen.t),
      Store.well_formed db ->
      s1 ∈ db -> Screen.id s1 = "S1" ->
      (forall r, r ∈ db -> r <> s1 ->
                 Screen.pairing_code r <> Some "AB12CD") ->
      Display.pairingCode st = "ab12cd" ->
      exists db1 w2,
        Editor.handleShowPairingCode true "AB12CD" (Some "S1") db =
          (db1, Some "AB12CD", None) /\
        Screen.set_pairing_code (Some "AB12CD") s1 ∈ db1 /\
        Policy.handlePairing actor toUpperCase true net_update
          (Display.mkWorld st ls db1) = (w2, Display.Paired) /\
        Display.screenId (Display.client w2) = Some "S1" /\
        Display.localStorage w2 !! Display.storage_key = Some "S1").
Proof.
  intros Hascii. split.
  - intros actor nu w s C [Hpk Huq] Hs HC Hup. split; [split|].
    + intros (w1 & Hrun & Hid & _).
      apply policy_handlePairing_paired_inv in Hrun
        as (s' & Hs' & Hc' & Hid').
      rewrite Hid in Hid'. injection Hid' as Hid'.
      assert (s = s') as <-
        by now apply (same_id_same_row (Display.screens w)).
      rewrite HC in Hc'. now injection Hc'.
    + intros Heq. rewrite <- Heq in HC.
      pose proof (filter_has_code_unique _ s _ Huq Hs HC) as Hf.
      eexists. split; [apply (policy_handlePairing_match _ _ _ w s Hf)|].
      simpl. split; [now destruct (Display.client w)|].
      apply lookup_insert_eq.
    + intros Hc. rewrite (Hascii _ Hc). split.
      * intros Heq. apply eq_nocase_upper.
        now rewrite <- Heq, toUpperCase_idem.
      * intros Heq. apply eq_nocase_upper in Heq. rewrite Heq.
        rewrite <- Hascii; [exact Hup|].
        now rewrite <- is_ascii_upper, <- Heq, is_ascii_upper.
  - intros actor nu st ls db s1 [Hpk Huq] Hs Hi Hothers Hcode.
    pose proof (filter_after_issue "AB12CD" "S1" s1 db Hpk Hs Hi Hothers)
      as Hf.
    exists (Store.update_rows (Screen.set_pairing_code (Some "AB12CD"))
              "S1" db).
    eexists. split; [|split; [|split]].
    + unfold Editor.handleShowPairingCode, Store.update_pairing_code.
      simpl. unfold Store.code_count. rewrite Hf. simpl.
      now rewrite andb_false_r.
    + now apply update_rows_target.
    + apply (policy_handlePairing_match actor toUpperCase nu
               (Display.mkWorld st ls _)
               (Screen.set_pairing_code (Some "AB12CD") s1)).
      cbn [Display.client Display.screens Display.pairingCode].
      rewrite Hcode, (Hascii "ab12cd" eq_refl). exact Hf.
    + simpl. rewrite Hi. split; [now destruct st|].
      apply lookup_insert_eq.
Qed.

End PairingFacts.

(** ** The shuffle *)

Section SortFacts.

Context {A : Type}.
Variable comparefn : A -> A -> Sort.Rand Q.

Lemma insert_perm (x : A) (sorted : list A) (k : nat) :
  fst (Sort.insert comparefn x sorted k) ≡ₚ x :: sorted.
Proof.
  revert k. induction sorted as [|y rest IH]; intros k; [reflexivity|].
  simpl. unfold Sort.bind.
  destruct (comparefn x y k) as [v k1].
  destruct (Sort.positive v); [|reflexivity].
  specialize (IH k1).
  destruct (Sort.insert comparefn x rest k1) as [r k2]; simpl in *.
  rewrite IH. apply Permutation_swap.
Qed.

Lemma sort_perm (arr : list A) (k : nat) :
  fst (Sort.sort comparefn arr k) ≡ₚ arr.
Proof.
  revert k. induction arr as [|x rest IH]; intros k; [reflexivity|].
  simpl. unfold Sort.bind.
  specialize (IH k).
  destruct (Sort.sort comparefn rest k) as [s k1]; simpl in *.
  rewrite insert_perm. now rewrite IH.
Qed.

Lemma sort_short (arr : list A) (k : nat) :
  (length arr <= 1)%nat -> fst (Sort.sort comparefn arr k) = arr.
Proof.
  destruct arr as [|x [|y rest]]; simpl; intros H; try reflexivity; lia.
Qed.

End SortFacts.

(** ** The editor *)

Section EditorFacts.

(** C5. Whatever [Math.random] returns, the shuffle yields a permutation
    of the playlist: the same items with the same multiplicities, hence
    the same length; a playlist of at most one item comes back as it
    was. *)
Theorem shuffle_is_permutation (random : nat -> Q) (k : nat)
    (playlist : list PlaylistItem.t) :
  fst (Editor.shufflePlaylist random k playlist) ≡ₚ playlist /\
  length (fst (Editor.shufflePlaylist random k playlist)) = length playlist /\
  ((length playlist <= 1)%nat ->
   fst (Editor.shufflePlaylist random k playlist) = playlist).
Proof.
  unfold Editor.shufflePlaylist; simpl.
  pose proof (sort_perm (Sort.comparator random) playlist k) as Hp.
  split; [exact Hp|]. split.
  - now rewrite Hp.
  - apply sort_short.
Qed.

(** C2, as the code has it. [addToPlaylist] puts one new entry at the end
    of the playlist. Its duration is the media's own when that is set
    and not zero; otherwise it is 10 seconds for an [image/] MIME type
    and 30 seconds for any other or missing MIME type. *)
Theorem append_resolves_duration (media : Media.t)
    (playlist : list PlaylistItem.t) :
  exists item,
    fst (Editor.addToPlaylist media playlist) = (playlist ++ [item])%list /\
    PlaylistItem.id item = Media.id media /\
    PlaylistItem.mime_type item = Media.mime_type media /\
    (forall d, Media.duration media = Some d -> d <> 0 ->
               PlaylistItem.duration item = JS.val d) /\
    (Media.duration media = None \/ Media.duration media = Some 0 ->
     (JS.opt_startsWith (Media.mime_type media) "image/" = true ->
      PlaylistItem.duration item = JS.val 10) /\
     (JS.opt_startsWith (Media.mime_type media) "image/" = false ->
      PlaylistItem.duration item = JS.val 30)).
Proof.
  exists (Editor.playlistItem_of media). simpl.
  split; [reflexivity|]. split; [reflexivity|]. split; [reflexivity|].
  unfold Editor.resolved_duration. split.
  - intros d -> Hd. destruct (Z.eqb_spec d 0); [contradiction|reflexivity].
  - intros [-> | ->]; simpl; split; intros ->; reflexivity.
Qed.

Lemma select_single_by_id (i : string) (s : Screen.t) (db : list Screen.t) :
  NoDup (List.map Screen.id db) -> s ∈ db -> Screen.id s = i ->
  List.filter (Store.has_id i) db = [s].
Proof.
  induction db as [|a db IH]; intros Hnd Hs Hi.
  - inversion Hs.
  - simpl in Hnd. apply NoDup_cons in Hnd as [Hnotin Hnd].
    assert (Hids : forall r, r ∈ db -> Screen.id r <> Screen.id a).
    { intros r Hr E. apply Hnotin. rewrite <- E.
      apply list_elem_of_In, in_map. now apply list_elem_of_In. }
    apply elem_of_cons in Hs as [->|Hs]; cbn [List.filter].
    + rewrite (proj2 (has_id_true i a) Hi). f_equal.
      apply filter_none. intros x Hx. apply not_true_is_false.
      intros E. apply has_id_true in E. apply (Hids x Hx). congruence.
    + destruct (Store.has_id i a) eqn:E.
      * apply has_id_true in E. exfalso. apply (Hids s Hs). congruence.
      * now apply IH.
Qed.

Lemma update_rows_ids (f : Screen.t -> Screen.t) (i : string)
    (db : list Screen.t) :
  (forall r, Screen.id (f r) = Screen.id r) ->
  List.map Screen.id (Store.update_rows f i db) = List.map Screen.id db.
Proof.
  intros Hf. unfold Store.update_rows. rewrite List.map_map.
  apply List.map_ext. intros r. destruct (Store.has_id i r); auto.
Qed.

(** C8. A save that reaches the store replaces the playlist column of the
    screen's row by the working playlist as a whole, in one update: the
    row keeps its other columns, the other rows are as they were, and
    reading the screen back gives exactly the saved sequence. A save that
    fails leaves the table as it was and reports the failure. *)
Theorem save_replaces_playlist_and_reads_back (i : string)
    (playlist : list PlaylistItem.t) (db : list Screen.t) (s : Screen.t) :
  Store.well_formed db -> s ∈ db -> Screen.id s = i ->
  Display.truthy (Some i) = true ->
  (let db' := fst (Editor.savePlaylist true (Some i) playlist db) in
   Editor.savePlaylist true (Some i) playlist db =
     (db', Some (toast_success "Playlist saved successfully!")) /\
   Screen.set_playlist (Some playlist) s ∈ db' /\
   (forall r, r ∈ db' -> Screen.id r = i ->
              r = Screen.set_playlist (Some playlist) s) /\
   (forall r, r ∈ db -> r <> s -> r ∈ db') /\
   length db' = length db /\
   Editor.fetchScreen true (Some i) db' = Some playlist) /\
  Editor.savePlaylist false (Some i) playlist db =
    (db, Some (toast_error "Failed to save playlist.")).
Proof.
  intros [Hpk Huq] Hs Hi Htruthy.
  assert (Hfalsy : Editor.falsy_id (Some i) = false).
  { unfold Editor.falsy_id. now rewrite Htruthy. }
  unfold Editor.savePlaylist. rewrite Hfalsy. simpl.
  split; [|reflexivity].
  split; [reflexivity|]. split; [|split; [|split; [|split]]].
  - now apply update_rows_target.
  - intros r Hr Hri.
    apply elem_of_update_rows in Hr as (r0 & Hr0 & ->).
    destruct (Store.has_id i r0) eqn:E.
    + apply has_id_true in E. f_equal.
      apply (same_id_same_row db); auto. congruence.
    + apply has_id_true in Hri. congruence.
  - intros r Hr Hne. apply update_rows_other; [exact Hr|].
    intros E. apply Hne. apply (same_id_same_row db); auto. congruence.
  - unfold Store.update_rows. apply length_map.
  - unfold Editor.fetchScreen. rewrite Hfalsy.
    unfold Store.select_single.
    rewrite (select_single_by_id i (Screen.set_playlist (Some playlist) s)).
    + reflexivity.
    + now rewrite update_rows_ids.
    + now apply update_rows_target.
    + exact Hi.
Qed.

End EditorFacts.

(** ** The screen card *)

Section ScreenCardFacts.

Variable getPublicUrl : string -> string.

(** C10. A drop appends to the playlist of the row the card was rendered
    with, which the page does not refresh after a drop. The first drop on
    a card that shows the stored row does extend the stored playlist by its
    one entry. A second drop on the same card starts from the same rendered
    row again: the playlist it writes ends with the second entry and no
    longer holds the first, whose media row stays behind. Both drops report
    success. *)
Theorem second_drop_overwrites_first (uid : string) (screen : Screen.t)
    (file1 file2 : ScreenCard.File) (now1 now2 : Z)
    (id1 created1 id2 created2 message : string)
    (media : list Media.t) (db : list Screen.t) :
  screen ∈ db ->
  id1 <> id2 ->
  (forall x, x ∈ ScreenCard.currentPlaylist screen ->
             PlaylistItem.id x <> id1) ->
  let path1 :=
    uid +:+ "/" +:+ pretty now1 +:+ "-" +:+ ScreenCard.file_name file1 in
  let path2 :=
    uid +:+ "/" +:+ pretty now2 +:+ "-" +:+ ScreenCard.file_name file2 in
  let item1 :=
    PlaylistItem.mk id1 (ScreenCard.file_name file1) path1
      (Some (ScreenCard.file_type file1)) None JS.undefined JS.undefined
      None None in
  let item2 :=
    PlaylistItem.mk id2 (ScreenCard.file_name file2) path2
      (Some (ScreenCard.file_type file2)) None JS.undefined JS.undefined
      None None in
  let first :=
    ScreenCard.onDrop (Some uid) screen [file1] now1 true
      (Store.Data (id1, created1)) true message media db in
  let second :=
    ScreenCard.onDrop (Some uid) screen [file2] now2 true
      (Store.Data (id2, created2)) true message (fst (fst first))
      (snd (fst first)) in
  Screen.set_playlist
    (Some (ScreenCard.currentPlaylist screen ++ [item1])%list) screen
    ∈ snd (fst first) /\
  snd first =
    Some (toast_success
            (ScreenCard.file_name file1 +:+ " added to " +:+
             Screen.name screen +:+ "!")) /\
  snd second =
    Some (toast_success
            (ScreenCard.file_name file2 +:+ " added to " +:+
             Screen.name screen +:+ "!")) /\
  Screen.set_playlist
    (Some (ScreenCard.currentPlaylist screen ++ [item2])%list) screen
    ∈ snd (fst second) /\
  (forall r, r ∈ snd (fst second) -> Screen.id r = Screen.id screen ->
     Screen.playlist r =
       Some (ScreenCard.currentPlaylist screen ++ [item2])%list /\
     forall l, Screen.playlist r = Some l -> item1 ∉ l) /\
  fst (fst second) =
    (media ++
     [ScreenCard.inserted_row id1 created1 uid path1 file1;
      ScreenCard.inserted_row id2 created2 uid path2 file2])%list.
Proof.
  intros Hs Hne Hfresh path1 path2 item1 item2 first second.
  assert (Hfirst :
    first =
    ((media ++ [ScreenCard.inserted_row id1 created1 uid path1 file1])%list,
     Store.update_rows
       (Screen.set_playlist
          (Some (ScreenCard.currentPlaylist screen ++ [item1])%list))
       (Screen.id screen) db,
     Some (toast_success
             (ScreenCard.file_name file1 +:+ " added to " +:+
              Screen.name screen +:+ "!")))) by reflexivity.
  assert (Hsecond :
    second =
    (((media ++ [ScreenCard.inserted_row id1 created1 uid path1 file1]) ++
      [ScreenCard.inserted_row id2 created2 uid path2 file2])%list,
     Store.update_rows
       (Screen.set_playlist
          (Some (ScreenCard.currentPlaylist screen ++ [item2])%list))
       (Screen.id screen)
       (Store.update_rows
          (Screen.set_playlist
             (Some (ScreenCard.currentPlaylist screen ++ [item1])%list))
          (Screen.id screen) db),
     Some (toast_success
             (ScreenCard.file_name file2 +:+ " added to " +:+
              Screen.name screen +:+ "!")))).
  { subst second. rewrite Hfirst. reflexivity. }
  rewrite Hsecond, Hfirst. cbn [fst snd].
  rewrite update_rows_twice by reflexivity.
  split; [now apply update_rows_target|].
  split; [reflexivity|]. split; [reflexivity|].
  split; [now apply update_rows_target|]. split.
  - intros r Hr Hri.
    apply elem_of_update_rows in Hr as (r0 & Hr0 & ->).
    destruct (Store.has_id (Screen.id screen) r0) eqn:E;
      [|apply has_id_true in Hri; congruence].
    split; [reflexivity|].
    intros l Hl. injection Hl as <-. intros Hin.
    apply elem_of_app in Hin as [Hin|Hin].
    + now apply (Hfresh item1 Hin).
    + apply list_elem_of_singleton in Hin.
      apply (f_equal PlaylistItem.id) in Hin. now apply Hne.
  - now rewrite <- app_assoc.
Qed.

End ScreenCardFacts.

(** ** Instances and counterexamples *)

Lemma one_item_playlist_stops_after_first_advance_witness :
  let events :=
    [Lifecycle.VideoEnded; Lifecycle.MillisecondPassed; Lifecycle.VideoEnded] in
  let loaded :=
    fst (Display.onPlaylistUpdate Sample.publicUrl [Playback.video]
           (Sample.playing [])) in
  Forall (fun e => e = Lifecycle.MillisecondPassed \/ e = Lifecycle.VideoEnded)
    events /\
  Display.is_video Playback.video = true /\
  Display.handleVideoEnded Sample.publicUrl loaded = loaded /\
  Lifecycle.run Sample.publicUrl events loaded = loaded.
Proof.
  intros events loaded.
  assert (Hev : Forall (fun e => e = Lifecycle.MillisecondPassed \/
                                 e = Lifecycle.VideoEnded) events).
  { constructor; [now right|]. constructor; [now left|].
    constructor; [now right|]. constructor. }
  assert (Hv : Display.is_video Playback.video = true) by reflexivity.
  split; [exact Hev|]. split; [exact Hv|].
  pose proof (one_item_playlist_stops_after_first_advance Sample.publicUrl
                Playback.video (Sample.playing []) events Hev) as H.
  cbv zeta in H. destruct H as (_ & Hvideo & _ & _ & _ & Hrun).
  destruct (Hvideo Hv) as [Hl Hend].
  fold loaded in Hl, Hend, Hrun. rewrite <- Hl in Hend, Hrun.
  split; [exact Hend|exact Hrun].
Defined.

Lemma video_advances_only_on_end_witness :
  let st := Sample.playing [Playback.video] in
  JS.index (Display.playlist st) (Display.currentItemIndex st) =
    Some Playback.video /\
  Display.is_video Playback.video = true /\
  Display.timer (Display.playerEffect Sample.publicUrl st) = None /\
  Display.currentItemIndex
    (Display.elapse Sample.publicUrl 7
       (fst (Display.onPlaylistUpdate Sample.publicUrl
               Playback.image_then_video st))) = JS.Num 0.
Proof.
  intros st.
  assert (Hit : JS.index (Display.playlist st) (Display.currentItemIndex st) =
                Some Playback.video) by reflexivity.
  assert (Hv : Display.is_video Playback.video = true) by reflexivity.
  split; [exact Hit|]. split; [exact Hv|].
  destruct (video_advances_only_on_end Sample.publicUrl st Playback.video
              Hit Hv) as ((Ht & _) & Hscenario).
  split; [exact Ht|].
  apply (proj1 (Hscenario st 7%nat)). simpl. lia.
Defined.

Lemma empty_playlist_is_idle_witness :
  Display.playlist (Sample.playing []) = [] /\
  Display.render
    (Display.advance Sample.publicUrl
       (Display.playerEffect Sample.publicUrl (Sample.playing []))) =
  Display.EmptyPlaylistMessage.
Proof.
  assert (Hp : Display.playlist (Sample.playing []) = []) by reflexivity.
  split; [exact Hp|].
  destruct (empty_playlist_is_idle Sample.publicUrl (Sample.playing []) Hp)
    as (_ & _ & Hadv).
  apply Hadv. reflexivity.
Defined.

Lemma sample_well_formed :
  Store.well_formed [Sample.lobby; Sample.hall].
Proof.
  split; simpl.
  - apply NoDup_cons. split; [|apply NoDup_singleton].
    intros H. apply list_elem_of_singleton in H. discriminate.
  - apply NoDup_singleton.
Qed.

Lemma redemption_leaves_code_redeemable_witness :
  let w := Display.mkWorld (Sample.typing "ab12cd") ∅
             [Sample.lobby; Sample.hall] in
  Store.well_formed (Display.screens w) /\
  Sample.lobby ∈ Display.screens w /\
  Screen.pairing_code Sample.lobby =
    Some (JS.toUpperCase (Display.pairingCode (Display.client w))) /\
  Policy.owns None Sample.lobby && true = false /\
  Policy.handlePairing None JS.toUpperCase true true w =
    (Display.mkWorld
       (Display.mk "ab12cd" false (Some "S1") [] (JS.Num 0) None None)
       (<[Display.storage_key := "S1"]> ∅) [Sample.lobby; Sample.hall],
     Display.Paired) /\
  Policy.handlePairing None JS.toUpperCase true true
    (Display.mkWorld (Sample.typing "AB12CD") ∅ [Sample.lobby; Sample.hall]) =
    (Display.mkWorld
       (Display.mk "AB12CD" false (Some "S1") [] (JS.Num 0) None None)
       (<[Display.storage_key := "S1"]> ∅) [Sample.lobby; Sample.hall],
     Display.Paired).
Proof.
  intros w.
  assert (Hwf : Store.well_formed (Display.screens w))
    by exact sample_well_formed.
  assert (Hin : Sample.lobby ∈ Display.screens w) by (simpl; left).
  assert (Hc : Screen.pairing_code Sample.lobby =
               Some (JS.toUpperCase (Display.pairingCode (Display.client w))))
    by reflexivity.
  assert (Hlost : Policy.owns None Sample.lobby && true = false)
    by reflexivity.
  split; [exact Hwf|]. split; [exact Hin|]. split; [exact Hc|].
  split; [exact Hlost|].
  destruct (redemption_leaves_code_redeemable JS.toUpperCase None true w
              Sample.lobby Hwf Hin Hc Hlost) as (_ & Hfirst & Hagain).
  split; [exact Hfirst|].
  exact (Hagain None true (Sample.typing "AB12CD") ∅ Hlost eq_refl).
Defined.

(** The claim of C4 as the specification words it: for every stored code
    [C], redemption succeeds and binds to the screen exactly when the
    submitted string equals [C] up to letter case. It fails already among
    strings of ASCII characters, on a stored code in lower case, which no
    submitted string can match. *)
Lemma redeem_lower_case_code_never_matches :
  ~ (forall (actor : option string) (net_update : bool) (w : Display.World)
            (s : Screen.t) (C : string),
        Store.well_formed (Display.screens w) ->
        s ∈ Display.screens w ->
        Screen.pairing_code s = Some C ->
        JS.is_ascii C = true ->
        JS.is_ascii (Display.pairingCode (Display.client w)) = true ->
        ((exists w1,
             Policy.handlePairing actor JS.toUpperCase true net_update w =
               (w1, Display.Paired) /\
             Display.screenId (Display.client w1) = Some (Screen.id s))
         <-> JS.eq_nocase (Display.pairingCode (Display.client w)) C)).
Proof.
  intros claim.
  assert (Hwf : Store.well_formed [Sample.attic]).
  { split; simpl; apply NoDup_singleton. }
  destruct (proj2 (claim None true
              (Display.mkWorld (Sample.typing "ab12cd") ∅ [Sample.attic])
              Sample.attic "ab12cd" Hwf (list_elem_of_here _ _) eq_refl
              eq_refl eq_refl)
              (eq_nocase_refl _))
    as (w1 & Hrun & _).
  vm_compute in Hrun. discriminate Hrun.
Qed.

Lemma redeem_matches_upper_case_code_up_to_case_witness :
  let w := Display.mkWorld (Sample.typing "aB12cd") ∅
             [Sample.lobby; Sample.hall] in
  (forall s, JS.is_ascii s = true -> JS.toUpperCase s = JS.toUpperCase s) /\
  Store.well_formed (Display.screens w) /\
  Sample.lobby ∈ Display.screens w /\
  Screen.pairing_code Sample.lobby = Some "AB12CD" /\
  JS.toUpperCase "AB12CD" = "AB12CD" /\
  JS.is_ascii "aB12cd" = true /\
  ((exists w1,
       Policy.handlePairing None JS.toUpperCase true true w =
         (w1, Display.Paired) /\
       Display.screenId (Display.client w1) = Some "S1" /\
       Display.localStorage w1 !! Display.storage_key = Some "S1")
   <-> JS.toUpperCase "aB12cd" = "AB12CD") /\
  (JS.toUpperCase "aB12cd" = "AB12CD" <-> JS.eq_nocase "aB12cd" "AB12CD").
Proof.
  intros w.
  assert (Hup0 : forall s, JS.is_ascii s = true ->
                           JS.toUpperCase s = JS.toUpperCase s)
    by (intros s _; reflexivity).
  assert (Hwf : Store.well_formed (Display.screens w))
    by exact sample_well_formed.
  assert (Hin : Sample.lobby ∈ Display.screens w) by (simpl; left).
  assert (Hc : Screen.pairing_code Sample.lobby = Some "AB12CD")
    by reflexivity.
  assert (Hup : JS.toUpperCase "AB12CD" = "AB12CD") by reflexivity.
  assert (Hasc : JS.is_ascii "aB12cd" = true) by reflexivity.
  split; [exact Hup0|]. split; [exact Hwf|]. split; [exact Hin|].
  split; [exact Hc|]. split; [exact Hup|]. split; [exact Hasc|].
  destruct (proj1 (redeem_matches_upper_case_code_up_to_case JS.toUpperCase
                     Hup0) None true w Sample.lobby "AB12CD" Hwf Hin Hc Hup)
    as [Hpair Hcase].
  split; [exact Hpair|exact (Hcase Hasc)].
Defined.

(** The claim of C2 as the specification words it: the media's own
    duration when set, otherwise 10 seconds for every MIME type that is not
    a video. It fails on a PDF without duration, which gets 30 seconds. *)
Lemma append_gives_thirty_seconds_to_a_pdf :
  ~ (forall (media : Media.t) (playlist : list PlaylistItem.t)
            (item : PlaylistItem.t),
        fst (Editor.addToPlaylist media playlist) = (playlist ++ [item])%list ->
        (forall d, Media.duration media = Some d ->
                   PlaylistItem.duration item = JS.val d) /\
        (Media.duration media = None ->
         JS.opt_startsWith (Media.mime_type media) "video/" = false ->
         PlaylistItem.duration item = JS.val 10)).
Proof.
  intros claim.
  destruct (claim Sample.leaflet [] (Editor.playlistItem_of Sample.leaflet)
              eq_refl) as [_ Hdefault].
  specialize (Hdefault eq_refl eq_refl).
  vm_compute in Hdefault. discriminate Hdefault.
Qed.

Lemma append_resolves_duration_witness :
  exists item,
    fst (Editor.addToPlaylist Sample.leaflet [Playback.image5]) =
      [Playback.image5; item] /\
    PlaylistItem.duration item = JS.val 30.
Proof.
  destruct (append_resolves_duration Sample.leaflet [Playback.image5])
    as (item & Hfst & _ & _ & _ & Hdefault).
  exists item. split; [exact Hfst|].
  apply (Hdefault (or_introl eq_refl)). reflexivity.
Defined.

Lemma shuffle_is_permutation_witness :
  (length [Playback.video] <= 1)%nat /\
  fst (Editor.shufflePlaylist Sample.coin 0 [Playback.video]) =
    [Playback.video] /\
  fst (Editor.shufflePlaylist Sample.coin 0
         [Playback.image5; Playback.video; Playback.image5])
    ≡ₚ [Playback.image5; Playback.video; Playback.image5].
Proof.
  assert (Hlen : (length [Playback.video] <= 1)%nat) by (simpl; lia).
  split; [exact Hlen|]. split.
  - exact (proj2 (proj2 (shuffle_is_permutation Sample.coin 0
                           [Playback.video])) Hlen).
  - exact (proj1 (shuffle_is_permutation Sample.coin 0
                    [Playback.image5; Playback.video; Playback.image5])).
Defined.

Lemma save_replaces_playlist_and_reads_back_witness :
  let db := [Sample.lobby; Sample.hall] in
  Store.well_formed db /\
  Sample.hall ∈ db /\
  Screen.id Sample.hall = "S2" /\
  Display.truthy (Some "S2") = true /\
  Editor.fetchScreen true (Some "S2")
    (fst (Editor.savePlaylist true (Some "S2") Playback.image_then_video db)) =
    Some Playback.image_then_video /\
  Editor.savePlaylist false (Some "S2") Playback.image_then_video db =
    (db, Some (toast_error "Failed to save playlist.")).
Proof.
  intros db.
  assert (Hwf : Store.well_formed db) by exact sample_well_formed.
  assert (Hin : Sample.hall ∈ db) by (right; left).
  assert (Hid : Screen.id Sample.hall = "S2") by reflexivity.
  assert (Ht : Display.truthy (Some "S2") = true) by reflexivity.
  split; [exact Hwf|]. split; [exact Hin|]. split; [exact Hid|].
  split; [exact Ht|].
  destruct (save_replaces_playlist_and_reads_back "S2"
              Playback.image_then_video db Sample.hall Hwf Hin Hid Ht)
    as ((_ & _ & _ & _ & _ & Hread) & Hfail).
  split; [exact Hread|exact Hfail].
Defined.

Lemma second_drop_overwrites_first_witness :
  let clip := ScreenCard.mkFile "clip.mp4" 9000 "video/mp4" in
  let db := [Sample.lobby; Sample.hall] in
  let first :=
    ScreenCard.onDrop (Some "u1") Sample.lobby [Sample.photo] 1700000000000
      true (Store.Data ("m8", "t8")) true "" [] db in
  let second :=
    ScreenCard.onDrop (Some "u1") Sample.lobby [clip] 1700000005000
      true (Store.Data ("m9", "t9")) true "" (fst (fst first))
      (snd (fst first)) in
  Sample.lobby ∈ db /\
  "m8" <> "m9" /\
  (forall x, x ∈ ScreenCard.currentPlaylist Sample.lobby ->
             PlaylistItem.id x <> "m8") /\
  forall r, r ∈ snd (fst second) -> Screen.id r = "S1" ->
    Screen.playlist r =
    Some [Playback.image5;
          PlaylistItem.mk "m9" "clip.mp4" "u1/1700000005000-clip.mp4"
            (Some "video/mp4") None JS.undefined JS.undefined None None].
Proof.
  intros clip db first second.
  assert (Hin : Sample.lobby ∈ db) by (simpl; left).
  assert (Hne : "m8" <> "m9") by discriminate.
  assert (Hfresh : forall x, x ∈ ScreenCard.currentPlaylist Sample.lobby ->
                             PlaylistItem.id x <> "m8").
  { intros x Hx. apply list_elem_of_singleton in Hx as ->. discriminate. }
  split; [exact Hin|]. split; [exact Hne|]. split; [exact Hfresh|].
  pose proof (second_drop_overwrites_first "u1" Sample.lobby Sample.photo clip
                1700000000000 1700000005000 "m8" "t8" "m9" "t9" "" [] db
                Hin Hne Hfresh) as H.
  cbv zeta in H. destruct H as (_ & _ & _ & _ & Hrows & _).
  intros r Hr Hid. exact (proj1 (Hrows r Hr Hid)).
Defined.

(** * Further properties *)

(** ** The constraints of the [screens] table *)

Section TableFacts.

Lemma update_rows_cons (f : Screen.t -> Screen.t) (i : string)
    (a : Screen.t) (db : list Screen.t) :
  Store.update_rows f i (a :: db) =
  (if Store.has_id i a then f a else a) :: Store.update_rows f i db.
Proof. reflexivity. Qed.

Lemma codes_cons (a : Screen.t) (db : list Screen.t) :
  omap Screen.pairing_code (a :: db) =
  match Screen.pairing_code a with
  | Some c => c :: omap Screen.pairing_code db
  | None => omap Screen.pairing_code db
  end.
Proof. reflexivity. Qed.

Lemma update_rows_absent (f : Screen.t -> Screen.t) (i : string)
    (db : list Screen.t) :
  (forall r, r ∈ db -> Screen.id r <> i) -> Store.update_rows f i db = db.
Proof.
  induction db as [|a db IH]; intros H; [reflexivity|].
  rewrite update_rows_cons.
  destruct (Store.has_id i a) eqn:E.
  - apply has_id_true in E. exfalso. apply (H a); [now left|exact E].
  - f_equal. apply IH. intros r Hr. apply H. now right.
Qed.

Lemma update_rows_codes (f : Screen.t -> Screen.t) (i : string)
    (db : list Screen.t) :
  (forall r, Screen.pairing_code (f r) = Screen.pairing_code r) ->
  omap Screen.pairing_code (Store.update_rows f i db) =
  omap Screen.pairing_code db.
Proof.
  intros Hf. induction db as [|a db IH]; [reflexivity|].
  rewrite update_rows_cons, !codes_cons.
  assert (Ha : Screen.pairing_code (if Store.has_id i a then f a else a) =
               Screen.pairing_code a)
    by (destruct (Store.has_id i a); auto).
  rewrite Ha, IH. reflexivity.
Qed.

(** An update that touches neither ids nor codes keeps the constraints. *)
Lemma update_rows_well_formed (f : Screen.t -> Screen.t) (i : string)
    (db : list Screen.t) :
  (forall r, Screen.id (f r) = Screen.id r) ->
  (forall r, Screen.pairing_code (f r) = Screen.pairing_code r) ->
  Store.well_formed db -> Store.well_formed (Store.update_rows f i db).
Proof.
  intros Hid Hcode [Hpk Huq]. split.
  - now rewrite update_rows_ids.
  - now rewrite update_rows_codes.
Qed.

Lemma cleared_codes_sublist (i : string) (db : list Screen.t) :
  omap Screen.pairing_code
    (Store.update_rows (Screen.set_pairing_code None) i db)
  `sublist_of` omap Screen.pairing_code db.
Proof.
  induction db as [|a db IH]; [constructor|].
  rewrite update_rows_cons, !codes_cons.
  destruct (Store.has_id i a).
  - cbn [Screen.set_pairing_code Screen.pairing_code].
    destruct (Screen.pairing_code a); [now apply sublist_cons|exact IH].
  - destruct (Screen.pairing_code a); [now apply sublist_skip|exact IH].
Qed.

Lemma clear_code_well_formed (net : bool) (i : string) (db : list Screen.t) :
  Store.well_formed db ->
  Store.well_formed (snd (Store.update_pairing_code net i None db)).
Proof.
  intros [Hpk Huq]. unfold Store.update_pairing_code.
  destruct net; simpl; [|now split]. split.
  - now rewrite update_rows_ids.
  - eapply sublist_NoDup; [exact Huq|apply cleared_codes_sublist].
Qed.

(** A code found on the table after an issue was there before, or is the
    issued one. *)
Lemma issued_codes (c i x : string) (db : list Screen.t) :
  x ∈ omap Screen.pairing_code
        (Store.update_rows (Screen.set_pairing_code (Some c)) i db) ->
  x ∈ omap Screen.pairing_code db \/ x = c.
Proof.
  intros Hx. apply list_elem_of_omap in Hx as (r & Hr & Hc).
  apply elem_of_update_rows in Hr as (r0 & Hr0 & ->).
  destruct (Store.has_id i r0).
  - right. simpl in Hc. congruence.
  - left. apply list_elem_of_omap. eauto.
Qed.

Lemma filter_length_le {A : Type} (p : A -> bool) (a : A) (l : list A) :
  (length (List.filter p l) <= length (List.filter p (a :: l)))%nat.
Proof. simpl. destruct (p a); simpl; lia. Qed.

(** When the issued code ends up on at most one row, the codes of the
    table are still distinct. *)
Lemma issue_keeps_codes_distinct (c i : string) (db : list Screen.t) :
  NoDup (List.map Screen.id db) ->
  NoDup (omap Screen.pairing_code db) ->
  (Store.code_count c
     (Store.update_rows (Screen.set_pairing_code (Some c)) i db) <= 1)%nat ->
  NoDup (omap Screen.pairing_code
           (Store.update_rows (Screen.set_pairing_code (Some c)) i db)).
Proof.
  unfold Store.code_count.
  induction db as [|a db IH]; intros Hpk Huq Hcount; [constructor|].
  simpl in Hpk. apply NoDup_cons in Hpk as [Hnotin Hpk].
  assert (Htail : NoDup (omap Screen.pairing_code db)).
  { rewrite codes_cons in Huq.
    destruct (Screen.pairing_code a); [|exact Huq].
    now apply NoDup_cons in Huq as [_ Huq]. }
  rewrite update_rows_cons in *.
  destruct (Store.has_id i a) eqn:E.
  - apply has_id_true in E.
    assert (Hsame : Store.update_rows (Screen.set_pairing_code (Some c)) i db
                    = db).
    { apply update_rows_absent. intros r Hr Hi. apply Hnotin.
      rewrite E, <- Hi. apply list_elem_of_In, in_map.
      now apply list_elem_of_In. }
    rewrite Hsame in *. rewrite codes_cons.
    cbn [Screen.set_pairing_code Screen.pairing_code].
    apply NoDup_cons. split; [|exact Htail].
    intros Hin. apply list_elem_of_omap in Hin as (r & Hr & Hc).
    cbn [List.filter] in Hcount.
    rewrite (proj2 (has_code_true c (Screen.set_pairing_code (Some c) a))
               eq_refl) in Hcount.
    assert (Hr' : In r (List.filter (Store.has_code c) db)).
    { apply filter_In. split; [now apply list_elem_of_In|].
      now apply has_code_true. }
    destruct (List.filter (Store.has_code c) db); [inversion Hr'|].
    simpl in Hcount. lia.
  - assert (Hrest : (length (List.filter (Store.has_code c)
                       (Store.update_rows (Screen.set_pairing_code (Some c))
                          i db)) <= 1)%nat).
    { etransitivity; [apply (filter_length_le _ a)|exact Hcount]. }
    specialize (IH Hpk Htail Hrest).
    rewrite codes_cons.
    destruct (Screen.pairing_code a) as [ca|] eqn:Eca; [|exact IH].
    apply NoDup_cons. split; [|exact IH].
    intros Hin.
    destruct (issued_codes c i ca db Hin) as [Hold| ->].
    + rewrite codes_cons, Eca in Huq.
      now apply NoDup_cons in Huq as [Hno _].
    + apply list_elem_of_omap in Hin as (r & Hr & Hc).
      cbn [List.filter] in Hcount.
      rewrite (proj2 (has_code_true c a) Eca) in Hcount.
      assert (Hr' : In r (List.filter (Store.has_code c)
                (Store.update_rows (Screen.set_pairing_code (Some c)) i db))).
      { apply filter_In. split; [now apply list_elem_of_In|].
        now apply has_code_true. }
      destruct (List.filter (Store.has_code c) _); [inversion Hr'|].
      simpl in Hcount. lia.
Qed.

Lemma update_pairing_code_well_formed (net : bool) (i : string)
    (c : option string) (db : list Screen.t) :
  Store.well_formed db ->
  Store.well_formed (snd (Store.update_pairing_code net i c db)).
Proof.
  intros Hwf. destruct c as [code|]; [|now apply clear_code_well_formed].
  destruct Hwf as [Hpk Huq]. unfold Store.update_pairing_code.
  destruct net; simpl; [|now split].
  destruct (existsb (Store.has_id i) db) eqn:Ex; simpl.
  - destruct (Nat.ltb_spec 1
                (Store.code_count code
                   (Store.update_rows
                      (Screen.set_pairing_code (Some code)) i db)))
      as [Hgt|Hle]; simpl; [now split|].
    split.
    + now rewrite update_rows_ids.
    + now apply issue_keeps_codes_distinct.
  - rewrite update_rows_absent; [now split|].
    intros r Hr Hi.
    assert (Htrue : existsb (Store.has_id i) db = true).
    { apply existsb_exists. exists r. split; [now apply list_elem_of_In|].
      now apply has_id_true. }
    congruence.
Qed.

(** Filtering commutes with an update that does not change the outcome of
    the test. *)
Lemma filter_update_rows (p : Screen.t -> bool) (f : Screen.t -> Screen.t)
    (i : string) (db : list Screen.t) :
  (forall r, p (f r) = p r) ->
  List.filter p (Store.update_rows f i db) =
  List.map (fun s => if Store.has_id i s then f s else s) (List.filter p db).
Proof.
  intros Hp. induction db as [|a db IH]; [reflexivity|].
  rewrite update_rows_cons. cbn [List.filter].
  assert (Ha : p (if Store.has_id i a then f a else a) = p a)
    by (destruct (Store.has_id i a); auto).
  rewrite Ha. destruct (p a); simpl; now rewrite IH.
Qed.

End TableFacts.

(** ** Pairing codes over time *)

Section CodeFacts.

Lemma filter_two {A : Type} (p : A -> bool) (x y : A) (l : list A) :
  x ∈ l -> y ∈ l -> x <> y -> p x = true -> p y = true ->
  (2 <= length (List.filter p l))%nat.
Proof.
  intros Hx Hy Hne Hpx Hpy.
  induction l as [|a l IH]; [inversion Hx|].
  apply elem_of_cons in Hx as [->|Hx]; apply elem_of_cons in Hy as [->|Hy].
  - contradiction.
  - cbn [List.filter]. rewrite Hpx. simpl.
    assert (Hin : In y (List.filter p l))
      by (apply filter_In; split; [now apply list_elem_of_In|exact Hpy]).
    destruct (List.filter p l); [inversion Hin|simpl; lia].
  - cbn [List.filter]. rewrite Hpy. simpl.
    assert (Hin : In x (List.filter p l))
      by (apply filter_In; split; [now apply list_elem_of_In|exact Hpx]).
    destruct (List.filter p l); [inversion Hin|simpl; lia].
  - specialize (IH Hx Hy). cbn [List.filter].
    destruct (p a); simpl; lia.
Qed.

Lemma existsb_has_id (i : string) (s : Screen.t) (db : list Screen.t) :
  s ∈ db -> Screen.id s = i -> existsb (Store.has_id i) db = true.
Proof.
  intros Hs Hi. apply existsb_exists. exists s.
  split; [now apply list_elem_of_In|now apply has_id_true].
Qed.

(** X1. Whatever the network does, [handlePairing] leaves the [screens]
    table within its constraints: ids stay distinct and so do the non-null
    pairing codes. *)
Theorem pairing_keeps_table_constraints (net_select net_update : bool)
    (w : Display.World) :
  Store.well_formed (Display.screens w) ->
  Store.well_formed
    (Display.screens (fst (Display.handlePairing net_select net_update w))).
Proof.
  intros Hwf. unfold Display.handlePairing.
  destruct (Store.select_single _ _ _); simpl; [|exact Hwf].
  now apply update_pairing_code_well_formed.
Qed.

(** X2. [handleShowPairingCode] keeps the table within its constraints,
    and when another screen already holds the generated code it writes
    nothing, shows no code and reports the failure. *)
Theorem issuing_keeps_constraints_and_refuses_taken_code (net : bool)
    (newCode : string) (screenId : option string) (db : list Screen.t) :
  Store.well_formed db ->
  Store.well_formed
    (fst (fst (Editor.handleShowPairingCode net newCode screenId db))) /\
  (forall i s other,
      screenId = Some i -> Display.truthy (Some i) = true ->
      s ∈ db -> Screen.id s = i ->
      other ∈ db -> Screen.id other <> i ->
      Screen.pairing_code other = Some newCode ->
      Editor.handleShowPairingCode net newCode screenId db =
      (db, None, Some (toast_error "Failed to generate pairing code."))).
Proof.
  intros Hwf. split.
  - unfold Editor.handleShowPairingCode.
    destruct screenId as [i|]; [|exact Hwf].
    destruct (Editor.falsy_id (Some i)); [exact Hwf|].
    pose proof (update_pairing_code_well_formed net i (Some newCode) db Hwf)
      as H.
    destruct (Store.update_pairing_code net i (Some newCode) db) as [r db'].
    simpl in H. now destruct (Store.is_error r).
  - intros i s other -> Ht Hs Hi Hother Hne Hcode.
    unfold Editor.handleShowPairingCode, Editor.falsy_id. rewrite Ht. simpl.
    unfold Store.update_pairing_code.
    destruct net; [|reflexivity].
    rewrite (existsb_has_id i s db Hs Hi). simpl.
    assert (Hcount :
      (2 <= Store.code_count newCode
              (Store.update_rows (Screen.set_pairing_code (Some newCode))
                 i db))%nat).
    { unfold Store.code_count.
      apply (filter_two _ (Screen.set_pairing_code (Some newCode) s) other).
      - now apply update_rows_target.
      - now apply update_rows_other.
      - intros E. apply Hne. rewrite <- E. exact Hi.
      - now apply has_code_true.
      - now apply has_code_true. }
    destruct (Nat.ltb_spec 1
                (Store.code_count newCode
                   (Store.update_rows
                      (Screen.set_pairing_code (Some newCode)) i db)));
      [reflexivity|lia].
Qed.

(** X3. A screen has at most one live code: once a new code has been
    issued on a screen, the code it held before is redeemable by
    nobody. *)
Theorem reissue_revokes_previous_code (c1 c2 i : string) (s : Screen.t)
    (db db' : list Screen.t) :
  Store.well_formed db ->
  s ∈ db -> Screen.id s = i -> Screen.pairing_code s = Some c1 ->
  c2 <> c1 ->
  Editor.handleShowPairingCode true c2 (Some i) db = (db', Some c2, None) ->
  forall st ls net_select net_update,
    JS.toUpperCase (Display.pairingCode st) = c1 ->
    Display.handlePairing net_select net_update (Display.mkWorld st ls db') =
    (Display.mkWorld (Display.setLoading false st) ls db',
     Display.InvalidCode).
Proof.
  intros [Hpk Huq] Hs Hi Hc1 Hne Hissue st ls n1 n2 Hup.
  assert (Hdb' : db' = Store.update_rows
                         (Screen.set_pairing_code (Some c2)) i db).
  { unfold Editor.handleShowPairingCode in Hissue.
    destruct (Editor.falsy_id (Some i)); [discriminate|].
    unfold Store.update_pairing_code in Hissue.
    destruct (existsb (Store.has_id i) db && _); simpl in Hissue;
      [discriminate|].
    now injection Hissue as <-. }
  apply (handlePairing_no_match n1 n2 (Display.mkWorld st ls db')).
  simpl. rewrite Hup, Hdb'. intros r Hr Hcr.
  apply elem_of_update_rows in Hr as (r0 & Hr0 & ->).
  destruct (Store.has_id i r0) eqn:E.
  - simpl in Hcr. congruence.
  - pose proof (filter_has_code_unique c1 s db Huq Hs Hc1) as Hf.
    pose proof (filter_has_code_unique c1 r0 db Huq Hr0 Hcr) as Hf'.
    rewrite Hf in Hf'. injection Hf' as <-.
    apply has_id_true in Hi. congruence.
Qed.

(** X4. The clearing update is fire-and-forget: when it does not reach
    the store, the client is bound all the same, the table is as it was,
    and the same code pairs a further client with the same screen. *)
Theorem failed_clear_leaves_code_redeemable (w : Display.World)
    (s : Screen.t) :
  Store.well_formed (Display.screens w) ->
  s ∈ Display.screens w ->
  Screen.pairing_code s =
    Some (JS.toUpperCase (Display.pairingCode (Display.client w))) ->
  exists w1,
    Display.handlePairing true false w = (w1, Display.Paired) /\
    Display.screenId (Display.client w1) = Some (Screen.id s) /\
    Display.screens w1 = Display.screens w /\
    forall st2 ls2 net_update,
      JS.toUpperCase (Display.pairingCode st2) =
      JS.toUpperCase (Display.pairingCode (Display.client w)) ->
      exists w2,
        Display.handlePairing true net_update
          (Display.mkWorld st2 ls2 (Display.screens w1)) =
          (w2, Display.Paired) /\
        Display.screenId (Display.client w2) = Some (Screen.id s).
Proof.
  intros [Hpk Huq] Hs Hc.
  pose proof (filter_has_code_unique _ s _ Huq Hs Hc) as Hf.
  eexists. split; [apply (handlePairing_match false w s Hf)|].
  simpl. split; [now destruct (Display.client w)|].
  split; [reflexivity|].
  intros st2 ls2 n Hsame. eexists. split.
  - apply (handlePairing_match n (Display.mkWorld st2 ls2 _) s).
    simpl. now rewrite Hsame.
  - simpl. now destruct st2.
Qed.

End CodeFacts.

(** ** Editing and saving *)

Section EditingFacts.

Lemma filter_index_past {A : Type} (k n : nat) (l : list A) :
  (k < n)%nat ->
  Editor.filter_index (fun j => negb (j =? k)%nat) n l = l.
Proof.
  revert n. induction l as [|x l IH]; intros n Hn; [reflexivity|].
  cbn [Editor.filter_index].
  destruct (Nat.eqb_spec n k) as [->|_]; [lia|].
  cbn [negb]. f_equal. apply IH. lia.
Qed.

Lemma filter_index_delete {A : Type} (k off : nat) (l : list A) :
  Editor.filter_index (fun j => negb (j =? k + off)%nat) off l = delete k l.
Proof.
  revert k off. induction l as [|x l IH]; intros k off; [reflexivity|].
  cbn [Editor.filter_index]. destruct k as [|k].
  - rewrite Nat.add_0_l, Nat.eqb_refl. cbn [negb].
    apply filter_index_past. lia.
  - destruct (Nat.eqb_spec off (S k + off)) as [E|_]; [lia|].
    cbn [negb]. simpl. f_equal.
    replace (S (k + off)) with (k + S off)%nat by lia.
    apply IH.
Qed.

Lemma remove_takes_out_one_position_aux (index : nat)
    (playlist : list PlaylistItem.t) :
  (index < length playlist)%nat ->
  S (length (fst (Editor.removeFromPlaylist index playlist))) =
    length playlist /\
  (2 <= length playlist ->
   fst (Editor.removeFromPlaylist index playlist) <> [])%nat.
Proof.
  intros Hlt. unfold Editor.removeFromPlaylist; simpl.
  pose proof (filter_index_delete index 0 playlist) as H.
  rewrite Nat.add_0_r in H. rewrite H.
  assert (Hlen : S (length (delete index playlist)) = length playlist).
  { rewrite delete_take_drop, length_app, length_take, length_drop. lia. }
  split; [exact Hlen|].
  intros HL E. rewrite E in Hlen. simpl in Hlen. lia.
Qed.

(** X5. [removeFromPlaylist] takes out the entry at the given position and
    nothing else: what comes before and after keeps its order, the list
    gets one shorter, and a position past the end changes nothing. *)
Theorem remove_takes_out_one_position (index : nat)
    (playlist : list PlaylistItem.t) :
  fst (Editor.removeFromPlaylist index playlist) =
    (take index playlist ++ drop (S index) playlist)%list /\
  ((index < length playlist)%nat ->
   S (length (fst (Editor.removeFromPlaylist index playlist))) =
   length playlist) /\
  ((length playlist <= index)%nat ->
   fst (Editor.removeFromPlaylist index playlist) = playlist).
Proof.
  unfold Editor.removeFromPlaylist; simpl.
  pose proof (filter_index_delete index 0 playlist) as H.
  rewrite Nat.add_0_r in H. rewrite H, delete_take_drop.
  split; [reflexivity|]. split.
  - intros Hlt. rewrite length_app, length_take, length_drop. lia.
  - intros Hge. rewrite take_ge, drop_ge by lia. apply app_nil_r.
Qed.

(** X6. Removing the entry just appended gives the playlist back. *)
Theorem append_then_remove_last_restores (media : Media.t)
    (playlist : list PlaylistItem.t) :
  fst (Editor.removeFromPlaylist (length playlist)
         (fst (Editor.addToPlaylist media playlist))) = playlist.
Proof.
  unfold Editor.removeFromPlaylist, Editor.addToPlaylist; simpl.
  pose proof (filter_index_delete (length playlist) 0
                (playlist ++ [Editor.playlistItem_of media])%list) as H.
  rewrite Nat.add_0_r in H. rewrite H, delete_take_drop.
  rewrite take_app_length.
  rewrite drop_app_ge by lia.
  replace (S (length playlist) - length playlist)%nat with 1%nat by lia.
  simpl. apply app_nil_r.
Qed.

(** X7. An entry added in the editor always carries a duration other than
    zero, so the display's delay for it is that duration in milliseconds
    and never the display's own fallback; it is positive unless the media
    row holds a negative duration. *)
Theorem appended_entry_sets_its_own_delay (media : Media.t) :
  exists d,
    PlaylistItem.duration (Editor.playlistItem_of media) = JS.val d /\
    d <> 0 /\
    Display.timer_delay (Editor.playlistItem_of media) = d * 1000 /\
    ((forall m, Media.duration media = Some m -> 0 <= m) -> 0 < d).
Proof.
  exists (Editor.resolved_duration media).
  assert (Hnz : Editor.resolved_duration media <> 0).
  { unfold Editor.resolved_duration.
    destruct (Media.duration media) as [m|];
      [destruct (Z.eqb_spec m 0); [|assumption]|];
      destruct (JS.opt_startsWith _ _); lia. }
  split; [reflexivity|]. split; [exact Hnz|]. split.
  - unfold Display.timer_delay; simpl.
    destruct (Z.eqb_spec (Editor.resolved_duration media) 0);
      [contradiction|reflexivity].
  - intros Hpos. unfold Editor.resolved_duration in *.
    destruct (Media.duration media) as [m|].
    + specialize (Hpos m eq_refl).
      destruct (Z.eqb_spec m 0); [|lia].
      destruct (JS.opt_startsWith _ _); lia.
    + destruct (JS.opt_startsWith _ _); lia.
Qed.

(** X8. Saving to a screen id that no row has writes nothing and is still
    reported as a success; reading that screen back fails. *)
Theorem save_to_unknown_screen_reports_success (i : string)
    (playlist : list PlaylistItem.t) (db : list Screen.t) (net : bool) :
  Display.truthy (Some i) = true ->
  (forall r, r ∈ db -> Screen.id r <> i) ->
  Editor.savePlaylist true (Some i) playlist db =
    (db, Some (toast_success "Playlist saved successfully!")) /\
  Editor.fetchScreen net (Some i) db = None.
Proof.
  intros Ht Habsent.
  unfold Editor.savePlaylist, Editor.fetchScreen, Editor.falsy_id.
  rewrite Ht. simpl. rewrite update_rows_absent by exact Habsent.
  split; [reflexivity|].
  unfold Store.select_single. rewrite filter_none.
  - now destruct net.
  - intros x Hx. apply not_true_is_false. intros E.
    apply has_id_true in E. now apply (Habsent x).
Qed.

(** X9. Saves overwrite one another as wholes: after two saves to the same
    screen the table is what the second save alone would have made it. *)
Theorem save_last_writer_wins (screenId : option string)
    (first second : list PlaylistItem.t) (db : list Screen.t) :
  fst (Editor.savePlaylist true screenId second
         (fst (Editor.savePlaylist true screenId first db))) =
  fst (Editor.savePlaylist true screenId second db).
Proof.
  unfold Editor.savePlaylist. destruct screenId as [i|]; [|reflexivity].
  destruct (Editor.falsy_id (Some i)); [reflexivity|]. simpl.
  rewrite update_rows_twice by reflexivity.
  unfold Store.update_rows. apply List.map_ext. intros r.
  now destruct (Store.has_id i r).
Qed.

(** X10. A save touches the playlist column only: ids, codes and online
    flags are as before, the constraints still hold, and any pairing
    attempt made after the save ends as it would have before it, with the
    same notification and the same binding. *)
Theorem save_does_not_disturb_pairing (net : bool)
    (screenId : option string) (playlist : list PlaylistItem.t)
    (db : list Screen.t) :
  let db' := fst (Editor.savePlaylist net screenId playlist db) in
  List.map Screen.id db' = List.map Screen.id db /\
  List.map Screen.pairing_code db' = List.map Screen.pairing_code db /\
  List.map Screen.is_online db' = List.map Screen.is_online db /\
  (Store.well_formed db -> Store.well_formed db') /\
  forall net_select net_update st ls,
    snd (Display.handlePairing net_select net_update
           (Display.mkWorld st ls db')) =
    snd (Display.handlePairing net_select net_update
           (Display.mkWorld st ls db)) /\
    Display.client
      (fst (Display.handlePairing net_select net_update
              (Display.mkWorld st ls db'))) =
    Display.client
      (fst (Display.handlePairing net_select net_update
              (Display.mkWorld st ls db))) /\
    Display.localStorage
      (fst (Display.handlePairing net_select net_update
              (Display.mkWorld st ls db'))) =
    Display.localStorage
      (fst (Display.handlePairing net_select net_update
              (Display.mkWorld st ls db))).
Proof.
  cbv zeta.
  remember (fst (Editor.savePlaylist net screenId playlist db)) as db' eqn:E.
  assert (Hdb' : db' = db \/
                 exists i, db' = Store.update_rows
                                   (Screen.set_playlist (Some playlist)) i db).
  { subst db'. unfold Editor.savePlaylist.
    destruct screenId as [i|]; [|now left].
    destruct (Editor.falsy_id (Some i)); [now left|].
    unfold Store.update_playlist. destruct net; simpl; [|now left].
    right. now exists i. }
  clear E. destruct Hdb' as [->|[i ->]].
  { split; [reflexivity|]. split; [reflexivity|]. split; [reflexivity|].
    split; [auto|]. intros; repeat split. }
  split; [now apply update_rows_ids|].
  split.
  { unfold Store.update_rows. rewrite List.map_map. apply List.map_ext.
    intros r. now destruct (Store.has_id i r). }
  split.
  { unfold Store.update_rows. rewrite List.map_map. apply List.map_ext.
    intros r. now destruct (Store.has_id i r). }
  split; [now apply update_rows_well_formed|].
  intros n1 n2 st ls. unfold Display.handlePairing, Store.select_single.
  simpl. rewrite filter_update_rows by reflexivity.
  destruct n1; [|repeat split].
  destruct (List.filter _ db) as [|s [|s' l]]; simpl; [repeat split| |
    repeat split].
  destruct (Store.has_id i s); repeat split.
Qed.

End EditingFacts.
(** ** The player between events *)

Section PlayerFacts.

Variable getPublicUrl : string -> string.

Lemma index_some {A : Type} (l : list A) (n : JS.number) (x : A) :
  JS.index l n = Some x <->
  exists z, n = JS.Num z /\ 0 <= z < Z.of_nat (length l) /\
            l !! Z.to_nat z = Some x.
Proof.
  split.
  - destruct n as [z|]; simpl; [|discriminate].
    destruct (Z.ltb_spec z 0) as [Hneg|Hpos]; [discriminate|]. intros Hx.
    exists z. split; [reflexivity|]. split; [|exact Hx].
    apply lookup_lt_Some in Hx. lia.
  - intros (z & -> & Hz & Hx). simpl.
    destruct (Z.ltb_spec z 0) as [Hneg|Hpos]; [lia|exact Hx].
Qed.

(** The player effect on a state whose current item exists. *)
Lemma playerEffect_on_item (c : string) (l : bool) (s : option string)
    (p : list PlaylistItem.t) (i : JS.number) (u : option string)
    (t : option Z) (item : PlaylistItem.t) :
  JS.index p i = Some item ->
  Display.playerEffect getPublicUrl (Display.mk c l s p i u t) =
  Display.mk c l s p i
    (Some (getPublicUrl (PlaylistItem.file_path item)))
    (if Display.is_video item then None
     else Some (Display.timer_delay item)).
Proof.
  intros Hit. unfold Display.playerEffect. simpl.
  destruct p as [|x p].
  { apply index_some in Hit as (z & _ & Hz & _). simpl in Hz. lia. }
  simpl. rewrite Hit. now destruct (Display.is_video item).
Qed.

(** The player effect on a state whose current item is missing. *)
Lemma playerEffect_no_item (st : Display.State) :
  Display.playlist st <> [] ->
  JS.index (Display.playlist st) (Display.currentItemIndex st) = None ->
  Display.playerEffect getPublicUrl st = Display.setTimer None st.
Proof.
  intros Hne Hnone. unfold Display.playerEffect.
  destruct st as [c l s p i u t]; simpl in *.
  destruct p as [|x p]; [contradiction|].
  cbn [length Nat.eqb]. now rewrite Hnone.
Qed.

Lemma render_missing_item (st : Display.State) :
  Display.truthy (Display.screenId st) = true ->
  Display.playlist st <> [] ->
  Display.truthy (Display.mediaUrl st) = true ->
  JS.index (Display.playlist st) (Display.currentItemIndex st) = None ->
  Display.render st = Display.RenderError.
Proof.
  intros Hb Hne Hu Hnone. unfold Display.render.
  rewrite Hb, Hu, Hnone.
  destruct (Display.playlist st); [contradiction|reflexivity].
Qed.

(** The player effect always leaves a timer that fits the current item. *)
Lemma playerEffect_timer_for_current (st : Display.State) :
  Lifecycle.timer_for_current (Display.playerEffect getPublicUrl st).
Proof.
  destruct st as [c l s p i u t].
  destruct (JS.index p i) as [item|] eqn:Hit.
  - rewrite (playerEffect_on_item c l s p i u t item Hit).
    intros d Hd. simpl in *. exists item.
    destruct (Display.is_video item); [discriminate|].
    injection Hd as <-. repeat split; auto. lia.
  - unfold Display.playerEffect; simpl.
    destruct (length p =? 0)%nat; [intros d Hd; discriminate|].
    rewrite Hit. intros d Hd; discriminate.
Qed.

Lemma setCurrentItemIndex_timer_for_current (f : JS.number -> JS.number)
    (st : Display.State) :
  Lifecycle.timer_for_current st ->
  Lifecycle.timer_for_current
    (Display.setCurrentItemIndex getPublicUrl f st).
Proof.
  intros H. unfold Display.setCurrentItemIndex.
  destruct (JS.number_eqb _ _); [exact H|].
  apply playerEffect_timer_for_current.
Qed.

Lemma step_timer_for_current (st : Display.State) (e : Lifecycle.event) :
  Lifecycle.timer_for_current st ->
  Lifecycle.timer_for_current (Lifecycle.step getPublicUrl st e).
Proof.
  intros H. destruct e as [pl| |]; simpl.
  - apply playerEffect_timer_for_current.
  - unfold Display.tick. destruct (Display.timer st) as [d|] eqn:Ht; [|exact H].
    destruct (Z.leb_spec d 1).
    + unfold Display.timerFires. rewrite Ht.
      apply setCurrentItemIndex_timer_for_current.
      intros d' Hd'. destruct st; discriminate.
    + intros d' Hd'. destruct (H d Ht) as (item & Hit & Hv & Hle).
      exists item. destruct st as [c l s p i u t]; simpl in *.
      injection Hd' as <-. repeat split; auto. lia.
  - now apply setCurrentItemIndex_timer_for_current.
Qed.

Lemma advance_index_in_range (st : Display.State) :
  Lifecycle.index_in_range st ->
  Lifecycle.index_in_range (Display.advance getPublicUrl st).
Proof.
  intros [Hempty|[item Hit]].
  - left. now rewrite advance_playlist.
  - right. apply index_some in Hit as (z & Hz & Hrange & Hlook).
    rewrite advance_playlist, advance_index, Hz. simpl.
    destruct (Z.eqb_spec (Z.of_nat (length (Display.playlist st))) 0);
      [lia|].
    assert (Hrem : 0 <= Z.rem (z + 1) (Z.of_nat (length (Display.playlist st)))
                   < Z.of_nat (length (Display.playlist st))).
    { rewrite Z.rem_mod_nonneg by lia. apply Z.mod_pos_bound. lia. }
    destruct (lookup_lt_is_Some_2 (Display.playlist st)
                (Z.to_nat (Z.rem (z + 1)
                             (Z.of_nat (length (Display.playlist st))))))
      as [next Hnext]; [lia|].
    exists next. apply index_some. eauto.
Qed.

Lemma step_index_in_range (st : Display.State) (e : Lifecycle.event) :
  Lifecycle.index_in_range st ->
  Lifecycle.index_in_range (Lifecycle.step getPublicUrl st e).
Proof.
  intros H. destruct e as [pl| |]; simpl.
  - unfold Lifecycle.index_in_range.
    rewrite playerEffect_playlist, playerEffect_index.
    destruct st as [c l s p i u t]; simpl.
    destruct pl as [|x pl]; [now left|right]. now exists x.
  - unfold Display.tick. destruct (Display.timer st) as [d|] eqn:Ht; [|exact H].
    destruct (d <=? 1).
    + unfold Display.timerFires. rewrite Ht.
      apply advance_index_in_range. now destruct st.
    + now destruct st.
  - now apply advance_index_in_range.
Qed.

Lemma render_in_range (st : Display.State) :
  Lifecycle.index_in_range st -> Display.render st <> Display.RenderError.
Proof.
  intros H. unfold Display.render.
  destruct (Display.truthy (Display.screenId st)); [|discriminate].
  destruct H as [Hempty|[item Hit]].
  - rewrite Hempty. discriminate.
  - destruct (length (Display.playlist st) =? 0)%nat; [discriminate|].
    destruct (Display.truthy (Display.mediaUrl st)) eqn:Hu; [|discriminate].
    rewrite Hit. destruct (Display.mediaUrl st); [|discriminate].
    destruct (Display.is_image item); [discriminate|].
    destruct (Display.is_video item); discriminate.
Qed.

(** X11. Whatever updates arrive, however much time passes and whenever
    videos end, the current index keeps pointing at an item of the playlist
    as long as the playlist has one, and the client never renders an
    error. *)
Theorem playback_keeps_index_in_range (events : list Lifecycle.event)
    (st : Display.State) :
  Lifecycle.index_in_range st ->
  Lifecycle.index_in_range (Lifecycle.run getPublicUrl events st) /\
  Display.render (Lifecycle.run getPublicUrl events st) <>
    Display.RenderError.
Proof.
  intros H.
  assert (Hinv : Lifecycle.index_in_range
                   (Lifecycle.run getPublicUrl events st)).
  { revert st H. induction events as [|e events IH]; intros st H;
      [exact H|].
    simpl. apply IH. now apply step_index_in_range. }
  split; [exact Hinv|now apply render_in_range].
Qed.

(** X12. A timer is pending only while a non-video item is current, and
    it never has more than that item's delay left: no timer runs over a
    video, over an empty playlist or past an update. *)
Theorem timer_always_fits_current_item (events : list Lifecycle.event)
    (st : Display.State) :
  Lifecycle.timer_for_current st ->
  Lifecycle.timer_for_current (Lifecycle.run getPublicUrl events st).
Proof.
  revert st. induction events as [|e events IH]; intros st H; [exact H|].
  simpl. apply IH. now apply step_timer_for_current.
Qed.

(** The state after an update, written out. *)
Lemma update_restarts_playback_eq (newPlaylist : list PlaylistItem.t)
    (st : Display.State) :
  fst (Display.onPlaylistUpdate getPublicUrl newPlaylist st) =
  Display.mk (Display.pairingCode st) (Display.loading st)
    (Display.screenId st) newPlaylist (JS.Num 0)
    (match newPlaylist with
     | [] => None
     | first :: _ => Some (getPublicUrl (PlaylistItem.file_path first))
     end)
    (match newPlaylist with
     | [] => None
     | first :: _ =>
         if Display.is_video first then None
         else Some (Display.timer_delay first)
     end).
Proof.
  unfold Display.onPlaylistUpdate. destruct st as [c l s p i u t]; simpl.
  destruct newPlaylist as [|first rest]; [reflexivity|].
  unfold Display.writeIndex, Display.writePlaylist; simpl.
  now rewrite (playerEffect_on_item c l s (first :: rest) (JS.Num 0) u t
                 first eq_refl).
Qed.

(** X13. An update erases the playback history: the playlist, index,
    media URL and timer after it depend on the delivered playlist alone.
    The first item is shown from its start with its full delay, and a
    timer left over from before is gone. *)
Theorem update_restarts_playback (newPlaylist : list PlaylistItem.t)
    (st : Display.State) :
  fst (Display.onPlaylistUpdate getPublicUrl newPlaylist st) =
  Display.mk (Display.pairingCode st) (Display.loading st)
    (Display.screenId st) newPlaylist (JS.Num 0)
    (match newPlaylist with
     | [] => None
     | first :: _ => Some (getPublicUrl (PlaylistItem.file_path first))
     end)
    (match newPlaylist with
     | [] => None
     | first :: _ =>
         if Display.is_video first then None
         else Some (Display.timer_delay first)
     end).
Proof.
  unfold Display.onPlaylistUpdate. destruct st as [c l s p i u t]; simpl.
  destruct newPlaylist as [|first rest]; [reflexivity|].
  unfold Display.writeIndex, Display.writePlaylist; simpl.
  now rewrite (playerEffect_on_item c l s (first :: rest) (JS.Num 0) u t
                 first eq_refl).
Qed.

Lemma total_delay_app (a b : list PlaylistItem.t) :
  Lifecycle.total_delay (a ++ b) =
  Lifecycle.total_delay a + Lifecycle.total_delay b.
Proof.
  unfold Lifecycle.total_delay.
  induction a as [|x a IH]; simpl; [reflexivity|]. rewrite IH. lia.
Qed.

Lemma total_delay_nonneg (p : list PlaylistItem.t) :
  Forall (fun item => Display.is_video item = false /\
                      1 <= Display.timer_delay item) p ->
  0 <= Lifecycle.total_delay p.
Proof.
  unfold Lifecycle.total_delay.
  induction 1 as [|x p [_ Hx] _ IH]; simpl; lia.
Qed.

(** A non-video item is shown for its delay and then gives way to the
    next one, on a playlist of two items or more. *)
Lemma shown_for_its_delay (c : string) (l : bool) (s : option string)
    (p : list PlaylistItem.t) (k : nat) (item : PlaylistItem.t) :
  (2 <= length p)%nat ->
  p !! k = Some item ->
  Display.is_video item = false -> 1 <= Display.timer_delay item ->
  (forall n, Z.of_nat n < Display.timer_delay item ->
     Display.currentItemIndex
       (Display.elapse getPublicUrl n
          (Display.playerEffect getPublicUrl
             (Display.mk c l s p (JS.Num (Z.of_nat k)) None None))) =
     JS.Num (Z.of_nat k)) /\
  Display.elapse getPublicUrl (Z.to_nat (Display.timer_delay item))
    (Display.playerEffect getPublicUrl
       (Display.mk c l s p (JS.Num (Z.of_nat k)) None None)) =
  Display.playerEffect getPublicUrl
    (Display.mk c l s p (JS.Num (Z.of_nat (S k mod length p))) None None).
Proof.
  intros HL Hk Hv Hd.
  assert (Hkl : (k < length p)%nat) by (now apply lookup_lt_Some in Hk).
  assert (Hit : JS.index p (JS.Num (Z.of_nat k)) = Some item).
  { apply index_some. exists (Z.of_nat k). rewrite Nat2Z.id.
    split; [reflexivity|]. split; [lia|exact Hk]. }
  rewrite (playerEffect_on_item c l s p _ None None item Hit), Hv.
  set (u := Some (getPublicUrl (PlaylistItem.file_path item))).
  set (d := Display.timer_delay item) in *.
  split.
  - intros n Hn. now rewrite (elapse_before getPublicUrl n d).
  - replace (Z.to_nat d) with (S (Z.to_nat (d - 1))) by lia.
    rewrite elapse_succ, (elapse_before getPublicUrl _ d) by (auto; simpl; lia).
    rewrite Z2Nat.id by lia. replace (d - (d - 1)) with 1 by lia.
    unfold Display.tick, Display.timerFires, Display.advance,
      Display.setCurrentItemIndex. simpl.
    destruct (Z.eqb_spec (Z.of_nat (length p)) 0); [lia|]. simpl.
    assert (Hnext : Z.rem (Z.of_nat k + 1) (Z.of_nat (length p)) =
                    Z.of_nat (S k mod length p)).
    { rewrite Z.rem_mod_nonneg by lia.
      rewrite Nat2Z.inj_mod. f_equal. lia. }
    rewrite Hnext.
    assert (Hchange : (Z.of_nat (S k mod length p) =? Z.of_nat k) = false).
    { apply Z.eqb_neq. intros E. apply Nat2Z.inj in E.
      destruct (Nat.eq_dec (S k) (length p)) as [El|Nl].
      - rewrite El, Nat.Div0.mod_same in E. lia.
      - rewrite Nat.mod_small in E by lia. lia. }
    rewrite Hchange.
    destruct (lookup_lt_is_Some_2 p (S k mod length p)) as [next Hn];
      [apply Nat.mod_upper_bound; lia|].
    assert (Hitn : JS.index p (JS.Num (Z.of_nat (S k mod length p))) =
                   Some next).
    { apply index_some. exists (Z.of_nat (S k mod length p)).
      rewrite Nat2Z.id. split; [reflexivity|]. split; [|exact Hn].
      apply lookup_lt_Some in Hn. lia. }
    unfold Display.writeIndex, Display.setTimer; simpl.
    rewrite (playerEffect_on_item c l s p _ u None next Hitn).
    now rewrite (playerEffect_on_item c l s p _ None None next Hitn).
Qed.

Lemma elapsed_prefix (c : string) (l : bool) (s : option string)
    (p : list PlaylistItem.t) (j : nat) :
  Forall (fun item => Display.is_video item = false /\
                      1 <= Display.timer_delay item) p ->
  (2 <= length p)%nat -> (j <= length p)%nat ->
  Display.elapse getPublicUrl
    (Z.to_nat (Lifecycle.total_delay (take j p)))
    (Display.playerEffect getPublicUrl
       (Display.mk c l s p (JS.Num 0) None None)) =
  Display.playerEffect getPublicUrl
    (Display.mk c l s p (JS.Num (Z.of_nat (j mod length p))) None None).
Proof.
  intros Hall HL. induction j as [|j IH]; intros Hj.
  - rewrite Nat.Div0.mod_0_l. reflexivity.
  - destruct (lookup_lt_is_Some_2 p j) as [item Hitem]; [lia|].
    rewrite (take_S_r p j item Hitem), total_delay_app.
    assert (Hok : Display.is_video item = false /\
                  1 <= Display.timer_delay item).
    { rewrite Forall_forall in Hall. apply Hall.
      eapply list_elem_of_lookup_2. exact Hitem. }
    destruct Hok as [Hv Hd].
    assert (Hpre : 0 <= Lifecycle.total_delay (take j p)).
    { apply total_delay_nonneg. now apply Forall_take. }
    assert (Hone : Lifecycle.total_delay [item] = Display.timer_delay item).
    { unfold Lifecycle.total_delay; simpl. lia. }
    rewrite Hone, Z2Nat.inj_add by lia.
    rewrite elapse_add, IH by lia.
    rewrite (Nat.mod_small j) by lia.
    exact (proj2 (shown_for_its_delay c l s p j item HL Hitem Hv Hd)).
Qed.

(** X14. On a playlist of at least two items, none of them a video and
    each with a delay of a millisecond or more that [setTimeout] can hold,
    every item is current for the whole of its own delay, the items come
    in playlist order, and once the delays add up the client is back in the
    very state it started the playlist in. *)
Theorem playlist_cycles_with_period (playlist : list PlaylistItem.t)
    (st : Display.State) :
  Forall (fun item => Display.is_video item = false /\
                      1 <= Display.timer_delay item <= Display.max_delay)
    playlist ->
  (2 <= length playlist)%nat ->
  (forall j item n,
      playlist !! j = Some item ->
      Z.of_nat n < Display.timer_delay item ->
      Display.currentItemIndex
        (Display.elapse getPublicUrl
           (Z.to_nat (Lifecycle.total_delay (take j playlist)) + n)
           (fst (Display.onPlaylistUpdate getPublicUrl playlist st))) =
      JS.Num (Z.of_nat j)) /\
  Display.elapse getPublicUrl (Z.to_nat (Lifecycle.total_delay playlist))
    (fst (Display.onPlaylistUpdate getPublicUrl playlist st)) =
  fst (Display.onPlaylistUpdate getPublicUrl playlist st).
Proof.
  intros Hbounded HL.
  assert (Hall : Forall (fun item => Display.is_video item = false /\
                                     1 <= Display.timer_delay item) playlist).
  { eapply Forall_impl; [exact Hbounded|]. intros item [Hv [Hd _]]. auto. }
  assert (Hstart :
    fst (Display.onPlaylistUpdate getPublicUrl playlist st) =
    Display.playerEffect getPublicUrl
      (Display.mk (Display.pairingCode st) (Display.loading st)
         (Display.screenId st) playlist (JS.Num 0) None None)).
  { rewrite update_restarts_playback_eq.
    destruct playlist as [|first rest]; [simpl in HL; lia|].
    now rewrite (playerEffect_on_item _ _ _ (first :: rest) (JS.Num 0)
                   None None first eq_refl). }
  rewrite Hstart. split.
  - intros j item n Hj Hn.
    assert (Hjl : (j < length playlist)%nat)
      by (now apply lookup_lt_Some in Hj).
    assert (Hok : Display.is_video item = false /\
                  1 <= Display.timer_delay item).
    { rewrite Forall_forall in Hall. apply Hall.
      eapply list_elem_of_lookup_2. exact Hj. }
    destruct Hok as [Hv Hd].
    rewrite elapse_add, elapsed_prefix by (auto; lia).
    rewrite Nat.mod_small by lia.
    now apply (proj1 (shown_for_its_delay _ _ _ playlist j item HL Hj Hv Hd)).
  - pose proof (elapsed_prefix (Display.pairingCode st) (Display.loading st)
                  (Display.screenId st) playlist (length playlist) Hall HL
                  (Nat.le_refl _)) as H.
    rewrite firstn_all in H. rewrite H, Nat.Div0.mod_same. reflexivity.
Qed.

(** X15. A playlist of a single item does not loop. The end of its video
    changes nothing at all, so the video is not started again; and when
    the item is not a video its timer fires once and no further timer is
    ever set. *)
Theorem single_item_playlist_never_restarts (item : PlaylistItem.t)
    (st : Display.State) :
  Display.handleVideoEnded getPublicUrl
    (fst (Display.onPlaylistUpdate getPublicUrl [item] st)) =
  fst (Display.onPlaylistUpdate getPublicUrl [item] st) /\
  (Display.is_video item = false -> 1 <= Display.timer_delay item ->
   forall n,
     Display.elapse getPublicUrl (Z.to_nat (Display.timer_delay item) + n)
       (fst (Display.onPlaylistUpdate getPublicUrl [item] st)) =
     Display.setTimer None
       (fst (Display.onPlaylistUpdate getPublicUrl [item] st))).
Proof.
  rewrite update_restarts_playback_eq.
  split.
  - reflexivity.
  - intros Hv Hd n. rewrite Hv.
    set (d := Display.timer_delay item) in *.
    rewrite elapse_add.
    replace (Z.to_nat d) with (S (Z.to_nat (d - 1))) by lia.
    assert (Hlt : Z.of_nat (Z.to_nat (d - 1)) < d) by lia.
    rewrite elapse_succ.
    rewrite (elapse_before getPublicUrl (Z.to_nat (d - 1)) d);
      [|reflexivity|exact Hlt].
    rewrite Z2Nat.id by lia. replace (d - (d - 1)) with 1 by lia.
    rewrite elapse_no_timer; reflexivity.
Qed.

End PlayerFacts.

(** ** From pairing to playback *)

Section LifecycleFacts.

Variable getPublicUrl : string -> string.

Lemma select_by_id (i : string) (s : Screen.t) (db : list Screen.t) :
  NoDup (List.map Screen.id db) -> s ∈ db -> Screen.id s = i ->
  Store.select_single true (Store.has_id i) db = Store.Data s.
Proof.
  intros Hpk Hs Hi. unfold Store.select_single.
  now rewrite (select_single_by_id i s db Hpk Hs Hi).
Qed.

Lemma select_by_id_absent (net : bool) (i : string) (db : list Screen.t) :
  (forall r, r ∈ db -> Screen.id r <> i) ->
  Store.select_single net (Store.has_id i) db = Store.Error.
Proof.
  intros H. unfold Store.select_single. rewrite filter_none.
  - now destruct net.
  - intros x Hx. apply not_true_is_false. intros E.
    apply has_id_true in E. now apply (H x).
Qed.

Lemma online_rows_well_formed (net : bool) (i : string) (b : bool)
    (db : list Screen.t) :
  Store.well_formed db ->
  Store.well_formed (snd (Lifecycle.update_is_online net i b db)).
Proof.
  intros Hwf. unfold Lifecycle.update_is_online.
  destruct net; simpl; [|exact Hwf].
  now apply update_rows_well_formed.
Qed.

(** X16. A binding survives a reload: after a successful pairing with a
    screen whose id is not empty, mounting the component again over the
    same local storage restores that id, whatever state the component
    starts in; over a storage without the key it restores nothing. *)
Theorem binding_survives_reload (net_update : bool) (w : Display.World)
    (s : Screen.t) :
  Store.well_formed (Display.screens w) ->
  s ∈ Display.screens w ->
  Screen.pairing_code s =
    Some (JS.toUpperCase (Display.pairingCode (Display.client w))) ->
  Display.truthy (Some (Screen.id s)) = true ->
  (forall st,
      Display.screenId
        (Display.onMount
           (Display.localStorage
              (fst (Display.handlePairing true net_update w))) st) =
      Some (Screen.id s)) /\
  (forall (stored : gmap string string) st,
      stored !! Display.storage_key = None ->
      Display.onMount stored st = st).
Proof.
  intros [Hpk Huq] Hs Hc Ht. split.
  - intros st.
    rewrite (handlePairing_match net_update w s
               (filter_has_code_unique _ s _ Huq Hs Hc)).
    simpl. unfold Display.onMount.
    rewrite lookup_insert_eq, Ht. now destruct st.
  - intros stored st Hnone. unfold Display.onMount. now rewrite Hnone.
Qed.

(** X17. When the bound screen cannot be read, because the request fails
    or because no row has the stored id, the client gives the binding up:
    the key is removed from local storage, the state is unbound, the
    pairing form is rendered and a later mount restores nothing. The
    playlist it had is kept. *)
Theorem failed_fetch_unpairs (net_online net_select : bool)
    (w : Display.World) (i : string) :
  Display.screenId (Display.client w) = Some i ->
  Display.truthy (Some i) = true ->
  net_select = false \/ (forall r, r ∈ Display.screens w -> Screen.id r <> i) ->
  exists w',
    Lifecycle.fetchPlaylistAndSubscribe getPublicUrl net_online net_select w =
      Lifecycle.Unpaired w'
        (toast_error "Could not fetch screen data. Unpairing.") /\
    Display.screenId (Display.client w') = None /\
    Display.localStorage w' !! Display.storage_key = None /\
    Display.render (Display.client w') = Display.PairingForm /\
    Display.playlist (Display.client w') =
      Display.playlist (Display.client w) /\
    List.map Screen.id (Display.screens w') =
      List.map Screen.id (Display.screens w) /\
    forall st, Display.onMount (Display.localStorage w') st = st.
Proof.
  intros Hid Ht Hwhy.
  assert (Herr :
    Store.select_single net_select (Store.has_id i)
      (snd (Lifecycle.update_is_online net_online i true
              (Display.screens w))) = Store.Error).
  { destruct Hwhy as [->|Habs]; [reflexivity|].
    apply select_by_id_absent. intros r Hr.
    unfold Lifecycle.update_is_online in Hr.
    destruct net_online; simpl in Hr; [|now apply Habs].
    rewrite update_rows_absent in Hr by exact Habs. now apply Habs. }
  unfold Lifecycle.fetchPlaylistAndSubscribe.
  rewrite Hid, Ht, Herr. eexists. split; [reflexivity|]. simpl.
  split; [now destruct (Display.client w)|].
  split; [apply lookup_delete_eq|].
  split; [unfold Display.render; now destruct (Display.client w)|].
  split; [now destruct (Display.client w)|].
  split.
  - unfold Lifecycle.update_is_online.
    destruct net_online; simpl; [|reflexivity].
    now apply update_rows_ids.
  - intros st. unfold Display.onMount. now rewrite lookup_delete_eq.
Qed.

Lemma policy_select_by_id (actor : option string) (i : string)
    (s : Screen.t) (db : list Screen.t) :
  NoDup (List.map Screen.id db) -> s ∈ db -> Screen.id s = i ->
  Policy.visible actor s = true ->
  Policy.select_single actor true (Store.has_id i) db = Store.Data s.
Proof.
  intros Hpk Hs Hi Hv. unfold Policy.select_single, Store.select_single.
  rewrite filter_filter_comm, (select_single_by_id i s db Hpk Hs Hi).
  simpl. now rewrite Hv.
Qed.

Lemma policy_select_hidden (actor : option string) (net : bool) (i : string)
    (s : Screen.t) (db : list Screen.t) :
  NoDup (List.map Screen.id db) -> s ∈ db -> Screen.id s = i ->
  Policy.visible actor s = false ->
  Policy.select_single actor net (Store.has_id i) db = Store.Error.
Proof.
  intros Hpk Hs Hi Hv. unfold Policy.select_single, Store.select_single.
  rewrite filter_filter_comm, (select_single_by_id i s db Hpk Hs Hi).
  simpl. rewrite Hv. now destruct net.
Qed.

(** What the display's update of [is_online] does to the table. *)
Lemma policy_update_is_online (actor : option string) (net : bool)
    (i : string) (s : Screen.t) (db : list Screen.t) :
  NoDup (List.map Screen.id db) -> s ∈ db -> Screen.id s = i ->
  snd (Policy.update_is_online actor net i true db) =
  if Policy.owns actor s && net
  then Store.update_rows (Lifecycle.set_is_online true) i db
  else db.
Proof.
  intros Hpk Hs Hi. unfold Policy.update_is_online.
  destruct net; cbn [snd]; [|now rewrite andb_false_r].
  rewrite (policy_update_rows_cases actor _ i s db Hpk Hs Hi).
  now rewrite andb_true_r.
Qed.

(** The run of [fetchPlaylistAndSubscribe] on a row the session may
    see. *)
Lemma policy_fetch_loaded (actor : option string) (net_online : bool)
    (w : Display.World) (i : string) (s : Screen.t)
    (playlist : list PlaylistItem.t) :
  NoDup (List.map Screen.id (Display.screens w)) ->
  Display.screenId (Display.client w) = Some i ->
  Display.truthy (Some i) = true ->
  s ∈ Display.screens w -> Screen.id s = i ->
  Screen.playlist s = Some playlist ->
  Policy.visible actor s = true ->
  Policy.fetchPlaylistAndSubscribe getPublicUrl actor net_online true w =
  Lifecycle.Loaded
    (Display.mkWorld
       (Display.playerEffect getPublicUrl
          (Display.writePlaylist playlist (Display.client w)))
       (Display.localStorage w)
       (if Policy.owns actor s && net_online
        then Store.update_rows (Lifecycle.set_is_online true) i
               (Display.screens w)
        else Display.screens w)).
Proof.
  intros Hpk Hid Ht Hs Hi Hpl Hv.
  unfold Policy.fetchPlaylistAndSubscribe. rewrite Hid, Ht. cbv zeta.
  rewrite (policy_update_is_online actor net_online i s _ Hpk Hs Hi).
  destruct (Policy.owns actor s && net_online) eqn:Eo.
  - assert (Hv' : Policy.visible actor (Lifecycle.set_is_online true s)
                  = true) by exact Hv.
    rewrite (policy_select_by_id actor i (Lifecycle.set_is_online true s));
      [|now rewrite update_rows_ids|now apply update_rows_target|exact Hi|
       exact Hv'].
    cbn [Lifecycle.set_is_online Screen.playlist]. now rewrite Hpl.
  - now rewrite (policy_select_by_id actor i s _ Hpk Hs Hi Hv), Hpl.
Qed.

(** [Lifecycle.fetchPlaylistAndSubscribe] is the run of a session that
    owns the rows of the table. *)
Lemma fetchPlaylistAndSubscribe_of_owner (uid : string)
    (net_online net_select : bool) (w : Display.World) :
  (forall r, r ∈ Display.screens w -> Screen.user_id r = uid) ->
  Policy.fetchPlaylistAndSubscribe getPublicUrl (Some uid) net_online
    net_select w =
  Lifecycle.fetchPlaylistAndSubscribe getPublicUrl net_online net_select w.
Proof.
  intros Hown.
  assert (Ho : forall r, In r (Display.screens w) ->
                         Policy.owns (Some uid) r = true).
  { intros r Hr. simpl. apply String.eqb_eq. symmetry. apply Hown.
    now apply list_elem_of_In. }
  assert (Hupd : forall f i,
    Policy.update_rows (Some uid) f i (Display.screens w) =
    Store.update_rows f i (Display.screens w)).
  { intros f i. unfold Policy.update_rows, Store.update_rows.
    apply List.map_ext_in. intros r Hr. now rewrite (Ho r Hr), andb_true_r. }
  assert (Hdb : forall i,
    snd (Policy.update_is_online (Some uid) net_online i true
           (Display.screens w)) =
    snd (Lifecycle.update_is_online net_online i true (Display.screens w))).
  { intros i. unfold Policy.update_is_online, Lifecycle.update_is_online.
    destruct net_online; [|reflexivity]. cbn [snd]. apply Hupd. }
  assert (Hsee : forall i,
    List.filter (Policy.visible (Some uid))
      (snd (Lifecycle.update_is_online net_online i true (Display.screens w)))
    = snd (Lifecycle.update_is_online net_online i true (Display.screens w))).
  { intros i. apply forallb_filter_id. apply forallb_forall. intros r Hr.
    unfold Policy.visible.
    assert (Hu : Screen.user_id r = uid).
    { unfold Lifecycle.update_is_online in Hr.
      destruct net_online; cbn [snd] in Hr;
        [|apply Hown; now apply list_elem_of_In].
      apply list_elem_of_In, elem_of_update_rows in Hr as (r0 & Hr0 & ->).
      destruct (Store.has_id i r0); [|now apply Hown].
      simpl. now apply Hown. }
    simpl. rewrite Hu, String.eqb_refl. reflexivity. }
  unfold Policy.fetchPlaylistAndSubscribe, Lifecycle.fetchPlaylistAndSubscribe.
  destruct (Display.screenId (Display.client w)) as [i|]; [|reflexivity].
  destruct (Display.truthy (Some i)); [|reflexivity]. cbv zeta.
  unfold Policy.select_single. now rewrite Hdb, Hsee.
Qed.

(** X18. A display reads its screen when its session may see the row:
    the stored playlist becomes the client's playlist, while the binding
    and the playback index are left as they were (unlike an update, the
    first load does not reset the index). The row is marked online only
    when the session owns the screen and the update goes through; in every
    other run the table is left as it was. The table's constraints hold
    afterwards. A display whose session may not see the row gives the
    binding up. *)
Theorem fetch_loads_playlist_and_marks_online_if_owner
    (actor : option string) (net_online : bool) (w : Display.World)
    (i : string) (s : Screen.t) (playlist : list PlaylistItem.t) :
  Store.well_formed (Display.screens w) ->
  Display.screenId (Display.client w) = Some i ->
  Display.truthy (Some i) = true ->
  s ∈ Display.screens w -> Screen.id s = i ->
  Screen.playlist s = Some playlist ->
  (Policy.visible actor s = true ->
   exists w',
     Policy.fetchPlaylistAndSubscribe getPublicUrl actor net_online true w =
       Lifecycle.Loaded w' /\
     Display.playlist (Display.client w') = playlist /\
     Display.currentItemIndex (Display.client w') =
       Display.currentItemIndex (Display.client w) /\
     Display.screenId (Display.client w') = Some i /\
     Display.localStorage w' = Display.localStorage w /\
     Display.screens w' =
       (if Policy.owns actor s && net_online
        then Store.update_rows (Lifecycle.set_is_online true) i
               (Display.screens w)
        else Display.screens w) /\
     (Policy.owns actor s && net_online = true ->
      Lifecycle.set_is_online true s ∈ Display.screens w' /\
      forall r, r ∈ Display.screens w -> r <> s -> r ∈ Display.screens w') /\
     Store.well_formed (Display.screens w')) /\
  (Policy.visible actor s = false ->
   exists w',
     Policy.fetchPlaylistAndSubscribe getPublicUrl actor net_online true w =
       Lifecycle.Unpaired w'
         (toast_error "Could not fetch screen data. Unpairing.") /\
     Display.screenId (Display.client w') = None /\
     Display.localStorage w' !! Display.storage_key = None /\
     Display.screens w' = Display.screens w).
Proof.
  intros Hwf Hid Ht Hs Hi Hpl. pose proof Hwf as [Hpk Huq]. split.
  - intros Hv.
    rewrite (policy_fetch_loaded actor net_online w i s playlist Hpk Hid Ht
               Hs Hi Hpl Hv).
    eexists. split; [reflexivity|]. simpl.
    rewrite playerEffect_playlist, playerEffect_index, playerEffect_screenId.
    split; [now destruct (Display.client w)|].
    split; [now destruct (Display.client w)|].
    split; [destruct (Display.client w); simpl in *; congruence|].
    split; [reflexivity|]. split; [reflexivity|]. split.
    + intros ->. split; [now apply update_rows_target|].
      intros r Hr Hne. apply update_rows_other; [exact Hr|].
      intros E. apply Hne.
      apply (same_id_same_row (Display.screens w)); auto. congruence.
    + destruct (_ && _); [|exact Hwf]. now apply update_rows_well_formed.
  - intros Hv.
    assert (Ho : Policy.owns actor s = false).
    { unfold Policy.visible in Hv. now apply orb_false_iff in Hv as [Ho _]. }
    unfold Policy.fetchPlaylistAndSubscribe. rewrite Hid, Ht. cbv zeta.
    rewrite (policy_update_is_online actor net_online i s _ Hpk Hs Hi).
    rewrite Ho. cbn [andb].
    rewrite (policy_select_hidden actor true i s _ Hpk Hs Hi Hv).
    eexists. split; [reflexivity|]. simpl.
    split; [now destruct (Display.client w)|].
    split; [apply lookup_delete_eq|reflexivity].
Qed.

(** X19. Because the first load keeps the index, a client that comes to
    it with an index past the end of the loaded playlist and a media URL
    still set fails in its next render: the item it reads is missing. *)
Theorem fetch_with_stale_index_fails_to_render (w : Display.World)
    (i : string) (s : Screen.t) (playlist : list PlaylistItem.t) (z : Z) :
  Store.well_formed (Display.screens w) ->
  Display.screenId (Display.client w) = Some i ->
  Display.truthy (Some i) = true ->
  s ∈ Display.screens w -> Screen.id s = i ->
  Screen.playlist s = Some playlist ->
  playlist <> [] ->
  Display.currentItemIndex (Display.client w) = JS.Num z ->
  Z.of_nat (length playlist) <= z ->
  Display.truthy (Display.mediaUrl (Display.client w)) = true ->
  Display.render
    (Display.client
       (Lifecycle.world_of
          (Lifecycle.fetchPlaylistAndSubscribe getPublicUrl true true w))) =
  Display.RenderError.
Proof.
  intros [Hpk Huq] Hid Ht Hs Hi Hpl Hne Hidx Hz Hurl.
  unfold Lifecycle.fetchPlaylistAndSubscribe. rewrite Hid, Ht.
  cbn [Lifecycle.update_is_online snd].
  rewrite (select_by_id i (Lifecycle.set_is_online true s));
    [|now rewrite update_rows_ids|now apply update_rows_target|exact Hi].
  cbn [Lifecycle.set_is_online Screen.playlist]. rewrite Hpl.
  cbn [Lifecycle.world_of Display.client].
  assert (Hnone : JS.index playlist (JS.Num z) = None).
  { simpl. destruct (Z.ltb_spec z 0); [reflexivity|].
    apply lookup_ge_None. lia. }
  destruct (Display.client w) as [c l sid p idx u t]; simpl in *.
  subst idx sid.
  rewrite playerEffect_no_item by (simpl; auto).
  apply render_missing_item; simpl; auto.
Qed.

(** X20. From the editor to the screen: after the owner saves a playlist
    and issues on the screen the code that is the upper-case form of what
    a display submits, that display pairs and then loads its screen, and
    ends up bound to the screen with exactly the saved playlist. This holds
    for every session the display may run in and whether or not its two
    updates go through; the row has lost its code, and is marked online,
    only when the session owns the screen and the update in question went
    through. *)
Theorem saved_playlist_reaches_paired_display (actor : option string)
    (toUpperCase : string -> string) (net_update net_online : bool)
    (db : list Screen.t) (s : Screen.t) (i C : string)
    (playlist : list PlaylistItem.t) (st : Display.State)
    (ls : gmap string string) :
  Store.well_formed db ->
  s ∈ db -> Screen.id s = i -> Display.truthy (Some i) = true ->
  (forall r, r ∈ db -> r <> s -> Screen.pairing_code r <> Some C) ->
  toUpperCase (Display.pairingCode st) = C ->
  let db1 := fst (Editor.savePlaylist true (Some i) playlist db) in
  let db2 := fst (fst (Editor.handleShowPairingCode true C (Some i) db1)) in
  let paired :=
    fst (Policy.handlePairing actor toUpperCase true net_update
           (Display.mkWorld st ls db2)) in
  exists w',
    snd (fst (Editor.handleShowPairingCode true C (Some i) db1)) = Some C /\
    Policy.fetchPlaylistAndSubscribe getPublicUrl actor net_online true
      paired = Lifecycle.Loaded w' /\
    Display.screenId (Display.client w') = Some i /\
    Display.playlist (Display.client w') = playlist /\
    (exists r, r ∈ Display.screens w' /\ Screen.id r = i) /\
    forall r, r ∈ Display.screens w' -> Screen.id r = i ->
      Screen.playlist r = Some playlist /\
      Screen.pairing_code r =
        (if Policy.owns actor s && net_update then None else Some C) /\
      Screen.is_online r =
        (if Policy.owns actor s && net_online then true
         else Screen.is_online s).
Proof.
  intros [Hpk Huq] Hs Hi Ht Hothers Hup db1 db2 paired.
  assert (Hfalsy : Editor.falsy_id (Some i) = false)
    by (unfold Editor.falsy_id; now rewrite Ht).
  set (s1 := Screen.set_playlist (Some playlist) s).
  assert (Hdb1 : db1 = Store.update_rows
                         (Screen.set_playlist (Some playlist)) i db).
  { subst db1. unfold Editor.savePlaylist. now rewrite Hfalsy. }
  assert (Hpk1 : NoDup (List.map Screen.id db1))
    by (now rewrite Hdb1, update_rows_ids).
  assert (Hs1 : s1 ∈ db1) by (rewrite Hdb1; now apply update_rows_target).
  assert (Hothers1 : forall r, r ∈ db1 -> r <> s1 ->
                               Screen.pairing_code r <> Some C).
  { intros r Hr Hne. rewrite Hdb1 in Hr.
    apply elem_of_update_rows in Hr as (r0 & Hr0 & ->).
    destruct (Store.has_id i r0) eqn:E.
    - apply has_id_true in E. exfalso. apply Hne. unfold s1. f_equal.
      apply (same_id_same_row db); auto. congruence.
    - apply Hothers; [exact Hr0|]. intros ->.
      apply has_id_true in Hi. congruence. }
  pose proof (filter_after_issue C i s1 db1 Hpk1 Hs1 Hi Hothers1) as Hf.
  set (s2 := Screen.set_pairing_code (Some C) s1) in *.
  assert (Hissue : Editor.handleShowPairingCode true C (Some i) db1 =
                   (Store.update_rows (Screen.set_pairing_code (Some C)) i db1,
                    Some C, None)).
  { unfold Editor.handleShowPairingCode, Store.update_pairing_code.
    rewrite Hfalsy. unfold Store.code_count. rewrite Hf. simpl.
    now rewrite andb_false_r. }
  assert (Hdb2 : db2 = Store.update_rows
                         (Screen.set_pairing_code (Some C)) i db1)
    by (subst db2; now rewrite Hissue).
  assert (Hpk2 : NoDup (List.map Screen.id db2))
    by (now rewrite Hdb2, update_rows_ids).
  assert (Hs2 : s2 ∈ db2) by (rewrite Hdb2; now apply update_rows_target).
  (* the table and the screen's row after the pairing *)
  set (db3 := if Policy.owns actor s && net_update
              then Store.update_rows (Screen.set_pairing_code None) i db2
              else db2).
  set (s3 := if Policy.owns actor s && net_update
             then Screen.set_pairing_code None s2 else s2).
  assert (Hpaired :
    paired =
    Display.mkWorld
      (Display.setLoading false (Display.setScreenId (Some i) st))
      (<[Display.storage_key := i]> ls) db3).
  { subst paired.
    rewrite (policy_handlePairing_match actor toUpperCase net_update
               (Display.mkWorld st ls db2) s2).
    - cbn [fst Display.client Display.localStorage Display.screens].
      replace (Screen.id s2) with i by (now rewrite <- Hi).
      f_equal. unfold Policy.clear_pairing_code, db3.
      destruct net_update; cbn [snd]; [|now rewrite andb_false_r].
      rewrite (policy_update_rows_cases actor _ i s2 db2 Hpk2 Hs2 Hi).
      rewrite andb_true_r. reflexivity.
    - simpl. now rewrite Hup, Hdb2. }
  assert (Hpk3 : NoDup (List.map Screen.id db3)).
  { unfold db3. destruct (_ && _); [|exact Hpk2].
    now rewrite update_rows_ids. }
  assert (Hs3 : s3 ∈ db3).
  { unfold db3, s3. destruct (_ && _); [|exact Hs2].
    now apply update_rows_target. }
  assert (Hi3 : Screen.id s3 = i)
    by (unfold s3; destruct (_ && _); exact Hi).
  assert (Ho3 : Policy.owns actor s3 = Policy.owns actor s)
    by (unfold s3; destruct (_ && _); reflexivity).
  assert (Hv3 : Policy.visible actor s3 = true).
  { unfold Policy.visible. rewrite Ho3. unfold s3.
    destruct (Policy.owns actor s); [reflexivity|]. reflexivity. }
  assert (Hpl3 : Screen.playlist s3 = Some playlist)
    by (unfold s3; destruct (_ && _); reflexivity).
  assert (Hsid : Display.screenId
                   (Display.setLoading false
                      (Display.setScreenId (Some i) st)) = Some i)
    by (now destruct st).
  pose proof (policy_fetch_loaded actor net_online
                (Display.mkWorld
                   (Display.setLoading false
                      (Display.setScreenId (Some i) st))
                   (<[Display.storage_key := i]> ls) db3)
                i s3 playlist Hpk3 Hsid Ht Hs3 Hi3 Hpl3 Hv3) as Hrun.
  rewrite Ho3 in Hrun. cbn [Display.client Display.localStorage
    Display.screens] in Hrun.
  set (db4 := if Policy.owns actor s && net_online
              then Store.update_rows (Lifecycle.set_is_online true) i db3
              else db3) in *.
  assert (Hpk4 : NoDup (List.map Screen.id db4)).
  { unfold db4. destruct (_ && net_online); [|exact Hpk3].
    now rewrite update_rows_ids. }
  eexists. split; [now rewrite Hissue|].
  split; [rewrite Hpaired; exact Hrun|].
  cbn [Display.client Display.screens].
  rewrite playerEffect_screenId, playerEffect_playlist.
  split; [now destruct st|]. split; [now destruct st|].
  set (s4 := if Policy.owns actor s && net_online
             then Lifecycle.set_is_online true s3 else s3).
  assert (Hs4 : s4 ∈ db4).
  { unfold db4, s4. destruct (_ && net_online); [|exact Hs3].
    now apply update_rows_target. }
  assert (Hi4 : Screen.id s4 = i)
    by (unfold s4; destruct (_ && net_online); exact Hi3).
  split; [exists s4; auto|].
  intros r Hr Hri.
  assert (r = s4) as ->
    by (apply (same_id_same_row db4); auto; congruence).
  unfold s4, s3.
  destruct (Policy.owns actor s && net_online),
    (Policy.owns actor s && net_update); repeat split.
Qed.

End LifecycleFacts.

(** ** Drops, new screens and the dashboard *)

Section OwnerFacts.

(** X21. A drop writes to the [screens] table only when there is a user
    and a file and the upload, the insert and the update all went through.
    When only the update fails, the new media row stays behind although
    no playlist holds it. *)
Theorem drop_writes_playlist_last (user : option string)
    (screen : Screen.t) (acceptedFiles : list ScreenCard.File) (now : Z)
    (upload_ok : bool) (inserted : Store.response (string * string))
    (net : bool) (message : string) (media : list Media.t)
    (db : list Screen.t) :
  let result :=
    ScreenCard.onDrop user screen acceptedFiles now upload_ok inserted net
      message media db in
  (snd (fst result) <> db ->
   is_Some user /\ acceptedFiles <> [] /\ upload_ok = true /\
   Store.is_error inserted = false /\ net = true) /\
  (fst (fst result) <> media ->
   is_Some user /\ acceptedFiles <> [] /\ upload_ok = true /\
   Store.is_error inserted = false) /\
  (forall uid file others id created_at,
      user = Some uid -> acceptedFiles = file :: others ->
      upload_ok = true -> inserted = Store.Data (id, created_at) ->
      net = false ->
      result =
      ((media ++
        [ScreenCard.inserted_row id created_at uid
           (uid +:+ "/" +:+ pretty now +:+ "-" +:+ ScreenCard.file_name file)
           file])%list,
       db, Some (toast_error ("Failed: " +:+ message)))).
Proof.
  cbv zeta. unfold ScreenCard.onDrop. split; [|split].
  - destruct user as [uid|]; [|intros H; now contradiction H].
    destruct acceptedFiles as [|file others];
      [intros H; now contradiction H|].
    destruct upload_ok; [|intros H; now contradiction H].
    destruct inserted as [[id ca]|]; [|intros H; now contradiction H].
    destruct net; [|intros H; now contradiction H].
    intros _. repeat split; eauto; discriminate.
  - destruct user as [uid|]; [|intros H; now contradiction H].
    destruct acceptedFiles as [|file others];
      [intros H; now contradiction H|].
    destruct upload_ok; [|intros H; now contradiction H].
    destruct inserted as [[id ca]|]; [|intros H; now contradiction H].
    intros _. repeat split; eauto; discriminate.
  - intros uid file others id ca -> -> -> -> ->. reflexivity.
Qed.

(** X22. A drop works from the row the card was rendered with: whatever
    playlist was saved to the screen in between, the table after the drop
    is the same, so that the saved playlist is overwritten. *)
Theorem drop_discards_saves_made_since_render (uid : string)
    (screen : Screen.t) (file : ScreenCard.File)
    (others : list ScreenCard.File) (now : Z) (id created_at message : string)
    (media : list Media.t) (db : list Screen.t)
    (saved saved' : list PlaylistItem.t) :
  snd (fst (ScreenCard.onDrop (Some uid) screen (file :: others) now true
              (Store.Data (id, created_at)) true message media
              (fst (Editor.savePlaylist true (Some (Screen.id screen))
                      saved db)))) =
  snd (fst (ScreenCard.onDrop (Some uid) screen (file :: others) now true
              (Store.Data (id, created_at)) true message media
              (fst (Editor.savePlaylist true (Some (Screen.id screen))
                      saved' db)))).
Proof.
  unfold ScreenCard.onDrop, Editor.savePlaylist. simpl.
  destruct (Editor.falsy_id (Some (Screen.id screen))); [reflexivity|].
  simpl. rewrite !update_rows_twice by reflexivity. reflexivity.
Qed.

Lemma new_screen_codes (db : list Screen.t) (row : Screen.t) :
  Screen.pairing_code row = None ->
  omap Screen.pairing_code (db ++ [row])%list = omap Screen.pairing_code db.
Proof.
  intros H. rewrite omap_app. simpl. rewrite H. apply app_nil_r.
Qed.

(** X23. [handleCreateScreen] does nothing for a name of white space only
    or without a user. Otherwise, when the store accepts the row, the
    table gains exactly one row at its end, with the given name, no
    pairing code, an empty playlist and the online flag off; the
    constraints still hold, the form is emptied, and no pairing attempt,
    from whatever session, can bind a display to the new screen before a
    code is issued on it. *)
Theorem create_screen_adds_unpaired_empty_screen (id created_at : string)
    (user : option string) (newScreenName : string) (db : list Screen.t) :
  (ScreensPage.blank newScreenName = true \/ user = None ->
   forall net,
     ScreensPage.handleCreateScreen net id created_at user newScreenName db =
     (db, newScreenName, None)) /\
  (forall uid,
      user = Some uid -> ScreensPage.blank newScreenName = false ->
      (forall r, r ∈ db -> Screen.id r <> id) ->
      ScreensPage.handleCreateScreen true id created_at user newScreenName db =
        ((db ++ [Screen.mk id uid newScreenName None (Some []) false None
                   created_at])%list,
         "", Some (toast_success "Screen created successfully!")) /\
      (Store.well_formed db ->
       Store.well_formed
         (fst (fst (ScreensPage.handleCreateScreen true id created_at user
                      newScreenName db)))) /\
      forall actor toUpperCase net_select net_update st ls w1,
        Policy.handlePairing actor toUpperCase net_select net_update
          (Display.mkWorld st ls
             (fst (fst (ScreensPage.handleCreateScreen true id created_at
                          user newScreenName db)))) =
          (w1, Display.Paired) ->
        Display.screenId (Display.client w1) <> Some id).
Proof.
  split.
  - intros [Hblank| ->] net; unfold ScreensPage.handleCreateScreen;
      [|reflexivity].
    destruct user; [|reflexivity]. now rewrite Hblank.
  - intros uid -> Hname Hfresh.
    assert (Hex : existsb (Store.has_id id) db = false).
    { apply not_true_is_false. intros E. apply existsb_exists in E
        as (r & Hr & Hi). apply has_id_true in Hi.
      apply (Hfresh r); [now apply list_elem_of_In|exact Hi]. }
    assert (Hrun :
      ScreensPage.handleCreateScreen true id created_at (Some uid)
        newScreenName db =
      ((db ++ [Screen.mk id uid newScreenName None (Some []) false None
                 created_at])%list,
       "", Some (toast_success "Screen created successfully!"))).
    { unfold ScreensPage.handleCreateScreen, ScreensPage.insert_screen.
      rewrite Hname. cbn [ScreensPage.new_screen Screen.id].
      now rewrite Hex. }
    rewrite Hrun. cbn [fst]. split; [reflexivity|]. split.
    + intros [Hpk Huq]. split.
      * rewrite List.map_app. simpl. apply NoDup_app.
        split; [exact Hpk|]. split; [|apply NoDup_singleton].
        intros x Hx Hin. apply list_elem_of_singleton in Hin as ->.
        apply list_elem_of_In, in_map_iff in Hx as (r & Hi & Hr).
        apply (Hfresh r); [now apply list_elem_of_In|exact Hi].
      * now rewrite new_screen_codes.
    + intros actor upper n1 n2 st ls w1 Hp Hbound.
      apply policy_handlePairing_paired_inv in Hp as (s & Hs & Hc & Hid).
      cbn [Display.screens] in Hs.
      rewrite Hid in Hbound. injection Hbound as Hbound.
      apply elem_of_app in Hs as [Hs|Hs].
      * now apply (Hfresh s).
      * apply list_elem_of_singleton in Hs as ->. discriminate.
Qed.

(** X24. [formatTimeAgo] never shows a zero or an overflowing count: a
    time less than a minute back, or in the future, reads "Just now";
    from one minute on it reads 1 to 59 minutes, from one hour on 1 to 23
    hours, and from one day on a number of days that is at least 1. *)
Theorem time_ago_counts_are_in_range (now time : Z) :
  let seconds := (now - time) / 1000 in
  (seconds < 60 -> Dashboard.formatTimeAgo now time = "Just now") /\
  (60 <= seconds < 3600 ->
   exists m, 1 <= m <= 59 /\
             Dashboard.formatTimeAgo now time = pretty m +:+ "m ago") /\
  (3600 <= seconds < 86400 ->
   exists h, 1 <= h <= 23 /\
             Dashboard.formatTimeAgo now time = pretty h +:+ "h ago") /\
  (86400 <= seconds ->
   exists d, 1 <= d /\ d * 86400 <= seconds /\
             Dashboard.formatTimeAgo now time = pretty d +:+ "d ago").
Proof.
  cbv zeta. unfold Dashboard.formatTimeAgo.
  set (seconds := (now - time) / 1000).
  split; [|split; [|split]].
  - intros H. destruct (Z.ltb_spec seconds 60); [reflexivity|lia].
  - intros [Hlo Hhi].
    destruct (Z.ltb_spec seconds 60); [lia|].
    destruct (Z.ltb_spec seconds 3600); [|lia].
    exists (seconds / 60). split; [|reflexivity]. split.
    + apply Z.div_le_lower_bound; lia.
    + assert (seconds / 60 < 60) by (apply Z.div_lt_upper_bound; lia). lia.
  - intros [Hlo Hhi].
    destruct (Z.ltb_spec seconds 60); [lia|].
    destruct (Z.ltb_spec seconds 3600); [lia|].
    destruct (Z.ltb_spec seconds 86400); [|lia].
    exists (seconds / 3600). split; [|reflexivity]. split.
    + apply Z.div_le_lower_bound; lia.
    + assert (seconds / 3600 < 24) by (apply Z.div_lt_upper_bound; lia). lia.
  - intros Hlo.
    destruct (Z.ltb_spec seconds 60); [lia|].
    destruct (Z.ltb_spec seconds 3600); [lia|].
    destruct (Z.ltb_spec seconds 86400); [lia|].
    exists (seconds / 86400). split; [|split; [|reflexivity]].
    + apply Z.div_le_lower_bound; lia.
    + rewrite Z.mul_comm. apply Z.mul_div_le. lia.
Qed.

End OwnerFacts.

(** ** The dashboard's figures *)

Section DashboardFacts.

Variable getTime : string -> Z.

Abbreviation newer := (Dashboard.newer getTime).

Lemma positive_inject_Z (z : Z) :
  Sort.positive (inject_Z z) = true <-> 0 < z.
Proof.
  unfold Sort.positive. rewrite negb_true_iff.
  destruct (Qle_bool (inject_Z z) 0) eqn:E.
  - apply Qle_bool_iff in E. change 0%Q with (inject_Z 0) in E.
    rewrite <- Zle_Qle in E. split; [discriminate|lia].
  - split; [|reflexivity]. intros _.
    destruct (Z.le_gt_cases z 0) as [Hle|Hgt]; [|lia].
    rewrite Zle_Qle in Hle. change (inject_Z 0) with 0%Q in Hle.
    apply Qle_bool_iff in Hle. congruence.
Qed.

Lemma insert_newest_sorted (x : Dashboard.Activity)
    (l : list Dashboard.Activity) (k : nat) :
  StronglySorted newer l ->
  StronglySorted newer
    (fst (Sort.insert (Dashboard.newest_first getTime) x l k)).
Proof.
  induction l as [|y rest IH]; intros Hs.
  - simpl. repeat constructor.
  - apply StronglySorted_cons in Hs as [Hy Hrest].
    cbn [Sort.insert]. unfold Sort.bind, Dashboard.newest_first, Sort.ret.
    destruct (Sort.positive _) eqn:E.
    + apply positive_inject_Z in E.
      specialize (IH Hrest).
      pose proof (insert_perm (Dashboard.newest_first getTime) x rest k)
        as Hperm.
      unfold Dashboard.newest_first, Sort.ret in *.
      destruct (Sort.insert _ x rest k) as [r k2]; simpl in *.
      apply StronglySorted_cons. split; [|exact IH].
      rewrite Hperm. constructor; [unfold Dashboard.newer; lia|exact Hy].
    + simpl. apply StronglySorted_cons. split.
      * assert (Hxy : newer x y).
        { unfold Dashboard.newer.
          destruct (Z.le_gt_cases
                      (getTime (Dashboard.timestamp y))
                      (getTime (Dashboard.timestamp x))) as [H|H];
            [exact H|].
          assert (Hp : Sort.positive
                         (inject_Z (getTime (Dashboard.timestamp y) -
                                    getTime (Dashboard.timestamp x))) = true)
            by (apply positive_inject_Z; lia).
          congruence. }
        constructor; [exact Hxy|].
        eapply Forall_impl; [exact Hy|].
        intros r Hr. unfold Dashboard.newer in *. lia.
      * apply StronglySorted_cons. now split.
Qed.

Lemma sort_newest_sorted (l : list Dashboard.Activity) (k : nat) :
  StronglySorted newer (fst (Sort.sort (Dashboard.newest_first getTime) l k)).
Proof.
  revert k. induction l as [|x rest IH]; intros k; [constructor|].
  cbn [Sort.sort]. unfold Sort.bind. specialize (IH k).
  destruct (Sort.sort _ rest k) as [s k1]; simpl in *.
  now apply insert_newest_sorted.
Qed.

Lemma fold_add_size (media : list Media.t) (acc : Z) :
  (forall m z, m ∈ media -> Media.file_size m = Some z -> 0 <= z) ->
  acc <= fold_left Dashboard.add_size media acc.
Proof.
  revert acc. induction media as [|m media IH]; intros acc H; [simpl; lia|].
  simpl. etransitivity; [|apply IH].
  - unfold Dashboard.add_size.
    destruct (Media.file_size m) as [z|] eqn:E; [|lia].
    specialize (H m z (list_elem_of_here _ _) E). lia.
  - intros m' z Hm. apply H. now right.
Qed.

(** X25. The dashboard counts the signed-in user's own rows only: its
    totals are the numbers of that user's screens and media, the online
    count never exceeds the screen count, and the storage figure is not
    negative when no file size is. When either query fails, the figures
    shown before are kept and the failure is reported. *)
Theorem dashboard_counts_own_rows (uid : string) (db : list Screen.t)
    (media : list Media.t) (previous : Dashboard.DashboardStats) :
  let stats :=
    fst (Dashboard.fetchDashboardData getTime true true (Some uid) db media
           previous) in
  Dashboard.totalScreens stats =
    length (List.filter (fun s => String.eqb (Screen.user_id s) uid) db) /\
  Dashboard.totalMediaItems stats =
    length (List.filter (fun m => String.eqb (Media.user_id m) uid) media) /\
  (Dashboard.onlineScreens stats <= Dashboard.totalScreens stats)%nat /\
  (Dashboard.totalScreens stats <= length db)%nat /\
  ((forall m z, m ∈ media -> Media.file_size m = Some z -> 0 <= z) ->
   0 <= Dashboard.totalStorageUsed stats) /\
  (forall net_screens net_media,
      net_screens && net_media = false ->
      Dashboard.fetchDashboardData getTime net_screens net_media (Some uid)
        db media previous =
      (previous, Some (toast_error "Failed to load dashboard data"))).
Proof.
  cbv zeta. simpl. unfold Dashboard.own_screens, Dashboard.own_media.
  split; [reflexivity|]. split; [reflexivity|].
  split; [apply List.filter_length_le|].
  split; [apply List.filter_length_le|]. split.
  - intros H. apply fold_add_size. intros m z Hm.
    apply H. apply list_elem_of_In in Hm.
    apply list_elem_of_In. now apply filter_In in Hm as [Hm _].
  - intros n1 n2 Hfail. unfold Dashboard.fetchDashboardData.
    now rewrite Hfail.
Qed.

(** X26. The recent activity of the dashboard is the newest five entries
    of the user's own screens and media, newest first: it has five entries
    or all of them if there are fewer, each is one of the user's, they are
    in the order of their timestamps, and no entry left out is newer than
    an entry shown. *)
Theorem dashboard_shows_newest_five (uid : string) (db : list Screen.t)
    (media : list Media.t) (previous : Dashboard.DashboardStats) :
  let recent :=
    Dashboard.recentActivity
      (fst (Dashboard.fetchDashboardData getTime true true (Some uid) db
              media previous)) in
  let all :=
    (List.map Dashboard.screen_activity (Dashboard.own_screens uid db) ++
     List.map Dashboard.media_activity (Dashboard.own_media uid media))%list in
  length recent = Nat.min 5 (length all) /\
  (forall a, a ∈ recent -> a ∈ all) /\
  StronglySorted (Dashboard.newer getTime) recent /\
  (forall a b, a ∈ recent -> b ∈ all -> b ∉ recent ->
     Dashboard.newer getTime a b).
Proof.
  cbv zeta. simpl.
  set (all := (List.map Dashboard.screen_activity
                 (Dashboard.own_screens uid db) ++
               List.map Dashboard.media_activity
                 (Dashboard.own_media uid media))%list).
  pose proof (sort_perm (Dashboard.newest_first getTime) all 0%nat) as Hperm.
  pose proof (sort_newest_sorted all 0%nat) as Hsorted.
  set (sorted := fst (Sort.sort (Dashboard.newest_first getTime) all 0%nat))
    in *.
  split; [|split; [|split]].
  - rewrite length_take. now rewrite Hperm.
  - intros a Ha. rewrite <- Hperm.
    apply elem_of_take in Ha as (i & Hi & _).
    eapply list_elem_of_lookup_2. exact Hi.
  - rewrite <- (take_drop 5 sorted) in Hsorted.
    now apply StronglySorted_app_1_l in Hsorted.
  - intros a b Ha Hb Hnot.
    rewrite <- Hperm, <- (take_drop 5 sorted) in Hb.
    apply elem_of_app in Hb as [Hb|Hb]; [contradiction|].
    rewrite <- (take_drop 5 sorted) in Hsorted.
    exact (StronglySorted_app_1_elem_of _ _ _ _ _ Hsorted Ha Hb).
Qed.

End DashboardFacts.

(** ** The preview while editing *)

Section PreviewFacts.

Variable getPublicUrl : string -> string.

Lemma preview_elapse_no_timer (n : nat) (st : Preview.State) :
  Preview.timer st = None -> Preview.elapse getPublicUrl n st = st.
Proof.
  intros Ht. induction n as [|n IH]; [reflexivity|].
  unfold Preview.elapse in *. simpl. rewrite IH.
  unfold Preview.tick. now rewrite Ht.
Qed.

(** X27. Editing does not move the preview. When the last item is being
    previewed and an item is removed, the index points past the end: the
    preview sets no timer, shows neither image nor video, does not fail,
    and stays so however long one waits. Appending an item then brings it
    back to life on the appended item. *)
Theorem preview_stalls_after_removal_until_append (st : Preview.State)
    (index : nat) (media : Media.t) :
  (2 <= length (Preview.playlist st))%nat ->
  (index < length (Preview.playlist st))%nat ->
  Preview.currentPreviewIndex st =
    JS.Num (Z.of_nat (length (Preview.playlist st)) - 1) ->
  let removed :=
    Preview.setPlaylist getPublicUrl
      (fun prev => fst (Editor.removeFromPlaylist index prev)) st in
  let appended :=
    Preview.setPlaylist getPublicUrl
      (fun prev => fst (Editor.addToPlaylist media prev)) removed in
  (Preview.currentPreviewIndex removed = Preview.currentPreviewIndex st /\
   Preview.timer removed = None /\
   Preview.previewUrl removed = Preview.previewUrl st /\
   (Preview.render removed = Preview.Nothing \/
    Preview.render removed = Preview.NoContent) /\
   forall n, Preview.elapse getPublicUrl n removed = removed) /\
  (Preview.currentPreviewIndex appended = Preview.currentPreviewIndex st /\
   JS.index (Preview.playlist appended) (Preview.currentPreviewIndex appended)
     = Some (Editor.playlistItem_of media) /\
   Preview.previewUrl appended =
     Some (getPublicUrl (Media.file_path media)) /\
   Preview.timer appended =
     if Display.is_video (Editor.playlistItem_of media) then None
     else Some (Display.timer_delay (Editor.playlistItem_of media))).
Proof.
  intros HL Hi Hidx. cbv zeta.
  destruct st as [p idx u t].
  cbn [Preview.playlist Preview.currentPreviewIndex] in *. subst idx.
  destruct (remove_takes_out_one_position_aux index p) as [Hlen Hne].
  { exact Hi. }
  set (p' := fst (Editor.removeFromPlaylist index p)) in *.
  assert (Hlen' : Z.of_nat (length p) - 1 = Z.of_nat (length p')) by lia.
  assert (Hnone : JS.index p' (JS.Num (Z.of_nat (length p) - 1)) = None).
  { simpl. destruct (Z.ltb_spec (Z.of_nat (length p) - 1) 0);
      [reflexivity|]. apply lookup_ge_None. lia. }
  assert (Hremoved :
    Preview.setPlaylist getPublicUrl
      (fun prev => fst (Editor.removeFromPlaylist index prev))
      (Preview.mk p (JS.Num (Z.of_nat (length p) - 1)) u t) =
    Preview.mk p' (JS.Num (Z.of_nat (length p) - 1)) u None).
  { unfold Preview.setPlaylist, Preview.previewEffect.
    cbn [Preview.playlist Preview.currentPreviewIndex Preview.previewUrl].
    fold p'. rewrite Hnone.
    destruct (Nat.eqb_spec (length p') 0); [lia|reflexivity]. }
  rewrite Hremoved. split.
  - split; [reflexivity|]. split; [reflexivity|]. split; [reflexivity|].
    split.
    + unfold Preview.render.
      cbn [Preview.playlist Preview.currentPreviewIndex Preview.previewUrl].
      rewrite Hnone. destruct (Display.truthy u); [now left|now right].
    + intros n. now apply preview_elapse_no_timer.
  - assert (Hsome :
      JS.index (p' ++ [Editor.playlistItem_of media])%list
        (JS.Num (Z.of_nat (length p) - 1)) =
      Some (Editor.playlistItem_of media)).
    { rewrite Hlen'. simpl.
      destruct (Z.ltb_spec (Z.of_nat (length p')) 0); [lia|].
      rewrite Nat2Z.id. apply list_lookup_middle. reflexivity. }
    unfold Preview.setPlaylist, Preview.previewEffect.
    cbn [Preview.playlist Preview.currentPreviewIndex Preview.previewUrl
         Editor.addToPlaylist fst].
    rewrite Hsome, length_app.
    destruct (Nat.eqb_spec (length p' + length [Editor.playlistItem_of media])
                0); [simpl in *; lia|].
    cbn [Preview.currentPreviewIndex Preview.playlist Preview.previewUrl
         Preview.timer].
    split; [reflexivity|]. split; [exact Hsome|]. split; [reflexivity|].
    now destruct (Display.is_video (Editor.playlistItem_of media)).
Qed.

End PreviewFacts.

(** ** Instances of the further properties *)

Lemma pairing_keeps_table_constraints_witness :
  Store.well_formed (Display.screens Fixture.at_the_form) /\
  Store.well_formed
    (Display.screens
       (fst (Display.handlePairing true true Fixture.at_the_form))).
Proof.
  assert (Hwf : Store.well_formed (Display.screens Fixture.at_the_form))
    by exact sample_well_formed.
  split; [exact Hwf|].
  exact (pairing_keeps_table_constraints true true Fixture.at_the_form Hwf).
Defined.

Lemma issuing_keeps_constraints_and_refuses_taken_code_witness :
  Store.well_formed Fixture.tables /\
  Sample.hall ∈ Fixture.tables /\ Sample.lobby ∈ Fixture.tables /\
  Screen.pairing_code Sample.lobby = Some "AB12CD" /\
  Editor.handleShowPairingCode true "AB12CD" (Some "S2") Fixture.tables =
    (Fixture.tables, None,
     Some (toast_error "Failed to generate pairing code.")).
Proof.
  assert (Hwf : Store.well_formed Fixture.tables) by exact sample_well_formed.
  assert (Hhall : Sample.hall ∈ Fixture.tables) by (right; left).
  assert (Hlobby : Sample.lobby ∈ Fixture.tables) by left.
  assert (Hcode : Screen.pairing_code Sample.lobby = Some "AB12CD")
    by reflexivity.
  split; [exact Hwf|]. split; [exact Hhall|]. split; [exact Hlobby|].
  split; [exact Hcode|].
  refine (proj2 (issuing_keeps_constraints_and_refuses_taken_code true
                   "AB12CD" (Some "S2") Fixture.tables Hwf)
            "S2" Sample.hall Sample.lobby eq_refl eq_refl Hhall eq_refl
            Hlobby _ Hcode).
  discriminate.
Defined.

Lemma reissue_revokes_previous_code_witness :
  let db' :=
    fst (fst (Editor.handleShowPairingCode true "ZZ99ZZ" (Some "S1")
                Fixture.tables)) in
  Store.well_formed Fixture.tables /\
  Sample.lobby ∈ Fixture.tables /\
  Editor.handleShowPairingCode true "ZZ99ZZ" (Some "S1") Fixture.tables =
    (db', Some "ZZ99ZZ", None) /\
  Display.handlePairing true true
    (Display.mkWorld (Sample.typing "ab12cd") ∅ db') =
  (Display.mkWorld (Sample.typing "ab12cd") ∅ db', Display.InvalidCode).
Proof.
  intros db'.
  assert (Hwf : Store.well_formed Fixture.tables) by exact sample_well_formed.
  assert (Hlobby : Sample.lobby ∈ Fixture.tables) by left.
  assert (Hissue :
    Editor.handleShowPairingCode true "ZZ99ZZ" (Some "S1") Fixture.tables =
    (db', Some "ZZ99ZZ", None)) by reflexivity.
  split; [exact Hwf|]. split; [exact Hlobby|]. split; [exact Hissue|].
  refine (reissue_revokes_previous_code "AB12CD" "ZZ99ZZ" "S1" Sample.lobby
            Fixture.tables db' Hwf Hlobby eq_refl eq_refl _ Hissue
            (Sample.typing "ab12cd") ∅ true true eq_refl).
  discriminate.
Defined.

Lemma failed_clear_leaves_code_redeemable_witness :
  Store.well_formed (Display.screens Fixture.at_the_form) /\
  Sample.lobby ∈ Display.screens Fixture.at_the_form /\
  exists w1,
    Display.handlePairing true false Fixture.at_the_form =
      (w1, Display.Paired) /\
    Display.screens w1 = Fixture.tables.
Proof.
  assert (Hwf : Store.well_formed (Display.screens Fixture.at_the_form))
    by exact sample_well_formed.
  assert (Hlobby : Sample.lobby ∈ Display.screens Fixture.at_the_form)
    by left.
  split; [exact Hwf|]. split; [exact Hlobby|].
  destruct (failed_clear_leaves_code_redeemable Fixture.at_the_form
              Sample.lobby Hwf Hlobby eq_refl)
    as (w1 & Hrun & _ & Hsame & _).
  exists w1. split; [exact Hrun|exact Hsame].
Defined.

Lemma remove_takes_out_one_position_witness :
  (1 < length Playback.image_then_video)%nat /\
  S (length (fst (Editor.removeFromPlaylist 1 Playback.image_then_video))) =
    length Playback.image_then_video /\
  (length Playback.image_then_video <= 7)%nat /\
  fst (Editor.removeFromPlaylist 7 Playback.image_then_video) =
    Playback.image_then_video.
Proof.
  assert (Hin : (1 < length Playback.image_then_video)%nat) by (simpl; lia).
  assert (Hout : (length Playback.image_then_video <= 7)%nat)
    by (simpl; lia).
  split; [exact Hin|]. split.
  - exact (proj1 (proj2 (remove_takes_out_one_position 1
                           Playback.image_then_video)) Hin).
  - split; [exact Hout|].
    exact (proj2 (proj2 (remove_takes_out_one_position 7
                           Playback.image_then_video)) Hout).
Defined.

Lemma appended_entry_sets_its_own_delay_witness :
  (forall m, Media.duration Fixture.clip = Some m -> 0 <= m) /\
  exists d,
    PlaylistItem.duration (Editor.playlistItem_of Fixture.clip) = JS.val d /\
    0 < d.
Proof.
  assert (Hdur : forall m, Media.duration Fixture.clip = Some m -> 0 <= m)
    by (intros m H; discriminate H).
  split; [exact Hdur|].
  destruct (appended_entry_sets_its_own_delay Fixture.clip)
    as (d & Hd & _ & _ & Hpos).
  exists d. split; [exact Hd|exact (Hpos Hdur)].
Defined.

Lemma save_to_unknown_screen_reports_success_witness :
  Display.truthy (Some "S9") = true /\
  (forall r, r ∈ Fixture.tables -> Screen.id r <> "S9") /\
  Editor.savePlaylist true (Some "S9") Fixture.two_images Fixture.tables =
    (Fixture.tables, Some (toast_success "Playlist saved successfully!")).
Proof.
  assert (Ht : Display.truthy (Some "S9") = true) by reflexivity.
  assert (Habsent : forall r, r ∈ Fixture.tables -> Screen.id r <> "S9").
  { intros r Hr.
    apply elem_of_cons in Hr as [->|Hr]; [discriminate|].
    apply elem_of_cons in Hr as [->|Hr]; [discriminate|].
    inversion Hr. }
  split; [exact Ht|]. split; [exact Habsent|].
  exact (proj1 (save_to_unknown_screen_reports_success "S9"
                  Fixture.two_images Fixture.tables true Ht Habsent)).
Defined.

Lemma save_does_not_disturb_pairing_witness :
  Store.well_formed Fixture.tables /\
  Store.well_formed
    (fst (Editor.savePlaylist true (Some "S1") Fixture.two_images
            Fixture.tables)).
Proof.
  assert (Hwf : Store.well_formed Fixture.tables) by exact sample_well_formed.
  split; [exact Hwf|].
  destruct (save_does_not_disturb_pairing true (Some "S1") Fixture.two_images
              Fixture.tables) as (_ & _ & _ & Hkeep & _).
  exact (Hkeep Hwf).
Defined.

Lemma playback_keeps_index_in_range_witness :
  Lifecycle.index_in_range Display.initial /\
  Display.render
    (Lifecycle.run Sample.publicUrl
       [Lifecycle.PlaylistUpdated Playback.image_then_video;
        Lifecycle.MillisecondPassed; Lifecycle.VideoEnded;
        Lifecycle.PlaylistUpdated []; Lifecycle.VideoEnded]
       Display.initial) <> Display.RenderError.
Proof.
  assert (H0 : Lifecycle.index_in_range Display.initial) by (left; reflexivity).
  split; [exact H0|].
  exact (proj2 (playback_keeps_index_in_range Sample.publicUrl _
                  Display.initial H0)).
Defined.

Lemma timer_always_fits_current_item_witness :
  Lifecycle.timer_for_current Display.initial /\
  Lifecycle.timer_for_current
    (Lifecycle.run Sample.publicUrl
       [Lifecycle.PlaylistUpdated Fixture.two_images;
        Lifecycle.MillisecondPassed; Lifecycle.MillisecondPassed]
       Display.initial).
Proof.
  assert (H0 : Lifecycle.timer_for_current Display.initial)
    by (intros d Hd; discriminate Hd).
  split; [exact H0|].
  exact (timer_always_fits_current_item Sample.publicUrl _ Display.initial
           H0).
Defined.

Lemma playlist_cycles_with_period_witness :
  Forall (fun item => Display.is_video item = false /\
                      1 <= Display.timer_delay item <= Display.max_delay)
    Fixture.two_images /\
  (2 <= length Fixture.two_images)%nat /\
  Display.elapse Sample.publicUrl
    (Z.to_nat (Lifecycle.total_delay Fixture.two_images))
    (fst (Display.onPlaylistUpdate Sample.publicUrl Fixture.two_images
            Display.initial)) =
  fst (Display.onPlaylistUpdate Sample.publicUrl Fixture.two_images
         Display.initial).
Proof.
  assert (Hall : Forall (fun item => Display.is_video item = false /\
                                     1 <= Display.timer_delay item <=
                                     Display.max_delay)
                   Fixture.two_images).
  { repeat constructor; vm_compute; discriminate. }
  assert (HL : (2 <= length Fixture.two_images)%nat) by (simpl; lia).
  split; [exact Hall|]. split; [exact HL|].
  exact (proj2 (playlist_cycles_with_period Sample.publicUrl
                  Fixture.two_images Display.initial Hall HL)).
Defined.

Lemma single_item_playlist_never_restarts_witness :
  Display.is_video Fixture.banner = false /\
  1 <= Display.timer_delay Fixture.banner /\
  Display.timer
    (Display.elapse Sample.publicUrl
       (Z.to_nat (Display.timer_delay Fixture.banner) + 4)
       (fst (Display.onPlaylistUpdate Sample.publicUrl [Fixture.banner]
               Display.initial))) = None.
Proof.
  assert (Hv : Display.is_video Fixture.banner = false) by reflexivity.
  assert (Hd : 1 <= Display.timer_delay Fixture.banner)
    by (vm_compute; discriminate).
  split; [exact Hv|]. split; [exact Hd|].
  rewrite (proj2 (single_item_playlist_never_restarts Sample.publicUrl
                    Fixture.banner Display.initial) Hv Hd 4%nat).
  reflexivity.
Defined.

Lemma binding_survives_reload_witness :
  Store.well_formed (Display.screens Fixture.at_the_form) /\
  Sample.lobby ∈ Display.screens Fixture.at_the_form /\
  Display.truthy (Some (Screen.id Sample.lobby)) = true /\
  Display.screenId
    (Display.onMount
       (Display.localStorage
          (fst (Display.handlePairing true true Fixture.at_the_form)))
       Display.initial) = Some "S1".
Proof.
  assert (Hwf : Store.well_formed (Display.screens Fixture.at_the_form))
    by exact sample_well_formed.
  assert (Hlobby : Sample.lobby ∈ Display.screens Fixture.at_the_form)
    by left.
  assert (Ht : Display.truthy (Some (Screen.id Sample.lobby)) = true)
    by reflexivity.
  split; [exact Hwf|]. split; [exact Hlobby|]. split; [exact Ht|].
  exact (proj1 (binding_survives_reload true Fixture.at_the_form Sample.lobby
                  Hwf Hlobby eq_refl Ht) Display.initial).
Defined.

Lemma failed_fetch_unpairs_witness :
  Display.screenId (Display.client Fixture.bound_to_nothing) = Some "S9" /\
  Display.truthy (Some "S9") = true /\
  (forall r, r ∈ Display.screens Fixture.bound_to_nothing ->
             Screen.id r <> "S9") /\
  exists w',
    Lifecycle.fetchPlaylistAndSubscribe Sample.publicUrl true true
      Fixture.bound_to_nothing =
      Lifecycle.Unpaired w'
        (toast_error "Could not fetch screen data. Unpairing.") /\
    Display.localStorage w' !! Display.storage_key = None.
Proof.
  assert (Hid : Display.screenId (Display.client Fixture.bound_to_nothing) =
                Some "S9") by reflexivity.
  assert (Ht : Display.truthy (Some "S9") = true) by reflexivity.
  assert (Habsent : forall r, r ∈ Display.screens Fixture.bound_to_nothing ->
                              Screen.id r <> "S9").
  { intros r Hr.
    apply elem_of_cons in Hr as [->|Hr]; [discriminate|].
    apply elem_of_cons in Hr as [->|Hr]; [discriminate|].
    inversion Hr. }
  split; [exact Hid|]. split; [exact Ht|]. split; [exact Habsent|].
  destruct (failed_fetch_unpairs Sample.publicUrl true true
              Fixture.bound_to_nothing "S9" Hid Ht (or_intror Habsent))
    as (w' & Hrun & _ & Hgone & _).
  exists w'. split; [exact Hrun|exact Hgone].
Defined.

Lemma fetch_loads_playlist_and_marks_online_if_owner_witness :
  Store.well_formed (Display.screens Fixture.bound_to_lobby) /\
  Sample.lobby ∈ Display.screens Fixture.bound_to_lobby /\
  Screen.playlist Sample.lobby = Some [Playback.image5] /\
  Policy.visible None Sample.lobby = true /\
  exists w',
    Policy.fetchPlaylistAndSubscribe Sample.publicUrl None true true
      Fixture.bound_to_lobby = Lifecycle.Loaded w' /\
    Display.playlist (Display.client w') = [Playback.image5] /\
    Display.screens w' = [Sample.lobby; Sample.hall].
Proof.
  assert (Hwf : Store.well_formed (Display.screens Fixture.bound_to_lobby))
    by exact sample_well_formed.
  assert (Hlobby : Sample.lobby ∈ Display.screens Fixture.bound_to_lobby)
    by left.
  assert (Hpl : Screen.playlist Sample.lobby = Some [Playback.image5])
    by reflexivity.
  assert (Hv : Policy.visible None Sample.lobby = true) by reflexivity.
  split; [exact Hwf|]. split; [exact Hlobby|]. split; [exact Hpl|].
  split; [exact Hv|].
  destruct (proj1 (fetch_loads_playlist_and_marks_online_if_owner
                     Sample.publicUrl None true Fixture.bound_to_lobby "S1"
                     Sample.lobby [Playback.image5]
                     Hwf eq_refl eq_refl Hlobby eq_refl Hpl) Hv)
    as (w' & Hrun & Hlist & _ & _ & _ & Htable & _).
  exists w'. split; [exact Hrun|]. split; [exact Hlist|exact Htable].
Defined.

Lemma fetch_with_stale_index_fails_to_render_witness :
  Store.well_formed (Display.screens Fixture.bound_with_stale_index) /\
  Sample.lobby ∈ Display.screens Fixture.bound_with_stale_index /\
  Z.of_nat (length [Playback.image5]) <= 1 /\
  Display.render
    (Display.client
       (Lifecycle.world_of
          (Lifecycle.fetchPlaylistAndSubscribe Sample.publicUrl true true
             Fixture.bound_with_stale_index))) = Display.RenderError.
Proof.
  assert (Hwf : Store.well_formed
                  (Display.screens Fixture.bound_with_stale_index))
    by exact sample_well_formed.
  assert (Hlobby : Sample.lobby ∈
                   Display.screens Fixture.bound_with_stale_index) by left.
  assert (Hz : Z.of_nat (length [Playback.image5]) <= 1) by (simpl; lia).
  split; [exact Hwf|]. split; [exact Hlobby|]. split; [exact Hz|].
  refine (fetch_with_stale_index_fails_to_render Sample.publicUrl
            Fixture.bound_with_stale_index "S1" Sample.lobby
            [Playback.image5] 1 Hwf eq_refl eq_refl Hlobby eq_refl eq_refl
            _ eq_refl Hz eq_refl).
  discriminate.
Defined.

Lemma saved_playlist_reaches_paired_display_witness :
  Store.well_formed Fixture.tables /\
  Sample.hall ∈ Fixture.tables /\
  (forall r, r ∈ Fixture.tables -> r <> Sample.hall ->
             Screen.pairing_code r <> Some "QR56ST") /\
  JS.toUpperCase (Display.pairingCode (Sample.typing "qr56st")) = "QR56ST" /\
  exists w',
    Display.screenId (Display.client w') = Some "S2" /\
    Display.playlist (Display.client w') = Fixture.two_images /\
    forall r, r ∈ Display.screens w' -> Screen.id r = "S2" ->
      Screen.pairing_code r = Some "QR56ST" /\ Screen.is_online r = false.
Proof.
  assert (Hwf : Store.well_formed Fixture.tables) by exact sample_well_formed.
  assert (Hhall : Sample.hall ∈ Fixture.tables) by (right; left).
  assert (Hothers : forall r, r ∈ Fixture.tables -> r <> Sample.hall ->
                              Screen.pairing_code r <> Some "QR56ST").
  { intros r Hr Hne.
    apply elem_of_cons in Hr as [->|Hr]; [discriminate|].
    apply elem_of_cons in Hr as [->|Hr]; [contradiction|].
    inversion Hr. }
  assert (Hup : JS.toUpperCase
                  (Display.pairingCode (Sample.typing "qr56st")) = "QR56ST")
    by reflexivity.
  split; [exact Hwf|]. split; [exact Hhall|]. split; [exact Hothers|].
  split; [exact Hup|].
  destruct (saved_playlist_reaches_paired_display Sample.publicUrl None
              JS.toUpperCase true true
              Fixture.tables Sample.hall "S2" "QR56ST" Fixture.two_images
              (Sample.typing "qr56st") ∅ Hwf Hhall eq_refl eq_refl Hothers
              Hup)
    as (w' & _ & _ & Hid & Hpl & _ & Hrow).
  exists w'. split; [exact Hid|]. split; [exact Hpl|].
  intros r Hr Hri. destruct (Hrow r Hr Hri) as (_ & Hcode & Honline).
  split; [exact Hcode|exact Honline].
Defined.

Lemma drop_writes_playlist_last_witness :
  ScreenCard.onDrop (Some "u1") Sample.lobby [Sample.photo] 1700000000000
    true (Store.Data ("m9", "t9")) false "timeout" [] Fixture.tables =
  ([ScreenCard.inserted_row "m9" "t9" "u1" "u1/1700000000000-photo.jpg"
      Sample.photo],
   Fixture.tables, Some (toast_error "Failed: timeout")).
Proof.
  exact (proj2 (proj2 (drop_writes_playlist_last (Some "u1") Sample.lobby
                         [Sample.photo] 1700000000000 true
                         (Store.Data ("m9", "t9")) false "timeout" []
                         Fixture.tables))
           "u1" Sample.photo [] "m9" "t9" eq_refl eq_refl eq_refl eq_refl
           eq_refl).
Defined.

Lemma create_screen_adds_unpaired_empty_screen_witness :
  ScreensPage.blank "Cafe" = false /\
  (forall r, r ∈ Fixture.tables -> Screen.id r <> "S7") /\
  Store.well_formed Fixture.tables /\
  Store.well_formed
    (fst (fst (ScreensPage.handleCreateScreen true "S7" "t7" (Some "u1")
                 "Cafe" Fixture.tables))) /\
  ScreensPage.handleCreateScreen true "S7" "t7" (Some "u1") "  "
    Fixture.tables = (Fixture.tables, "  ", None).
Proof.
  assert (Hname : ScreensPage.blank "Cafe" = false) by reflexivity.
  assert (Hfresh : forall r, r ∈ Fixture.tables -> Screen.id r <> "S7").
  { intros r Hr.
    apply elem_of_cons in Hr as [->|Hr]; [discriminate|].
    apply elem_of_cons in Hr as [->|Hr]; [discriminate|].
    inversion Hr. }
  assert (Hwf : Store.well_formed Fixture.tables) by exact sample_well_formed.
  split; [exact Hname|]. split; [exact Hfresh|]. split; [exact Hwf|].
  split.
  - destruct (proj2 (create_screen_adds_unpaired_empty_screen "S7" "t7"
                       (Some "u1") "Cafe" Fixture.tables)
                "u1" eq_refl Hname Hfresh) as (_ & Hkeep & _).
    exact (Hkeep Hwf).
  - exact (proj1 (create_screen_adds_unpaired_empty_screen "S7" "t7"
                    (Some "u1") "  " Fixture.tables)
             (or_introl eq_refl) true).
Defined.

Lemma time_ago_counts_are_in_range_witness :
  60 <= (7200000 - 3900000) / 1000 < 3600 /\
  exists m, 1 <= m <= 59 /\
    Dashboard.formatTimeAgo 7200000 3900000 = pretty m +:+ "m ago".
Proof.
  assert (Hrange : 60 <= (7200000 - 3900000) / 1000 < 3600)
    by (split; [vm_compute; discriminate|vm_compute; reflexivity]).
  split; [exact Hrange|].
  exact (proj1 (proj2 (time_ago_counts_are_in_range 7200000 3900000))
           Hrange).
Defined.

Lemma dashboard_counts_own_rows_witness :
  (forall m z, m ∈ [Sample.leaflet; Fixture.clip] ->
               Media.file_size m = Some z -> 0 <= z) /\
  0 <= Dashboard.totalStorageUsed
         (fst (Dashboard.fetchDashboardData Fixture.clock true true
                 (Some "u1") Fixture.tables [Sample.leaflet; Fixture.clip]
                 Dashboard.initial)).
Proof.
  assert (Hsizes : forall m z, m ∈ [Sample.leaflet; Fixture.clip] ->
                               Media.file_size m = Some z -> 0 <= z).
  { intros m z Hm.
    apply elem_of_cons in Hm as [->|Hm];
      [intros H; injection H as <-; discriminate|].
    apply elem_of_cons in Hm as [->|Hm];
      [intros H; injection H as <-; discriminate|].
    inversion Hm. }
  split; [exact Hsizes|].
  destruct (dashboard_counts_own_rows Fixture.clock "u1" Fixture.tables
              [Sample.leaflet; Fixture.clip] Dashboard.initial)
    as (_ & _ & _ & _ & Hpos & _).
  exact (Hpos Hsizes).
Defined.

Lemma dashboard_shows_newest_five_witness :
  Dashboard.media_activity Fixture.clip ∈
    Dashboard.recentActivity
      (fst (Dashboard.fetchDashboardData Fixture.clock true true (Some "u1")
              Fixture.tables [Sample.leaflet; Fixture.clip]
              Dashboard.initial)) /\
  StronglySorted (Dashboard.newer Fixture.clock)
    (Dashboard.recentActivity
       (fst (Dashboard.fetchDashboardData Fixture.clock true true (Some "u1")
               Fixture.tables [Sample.leaflet; Fixture.clip]
               Dashboard.initial))).
Proof.
  split; [vm_compute; left|].
  exact (proj1 (proj2 (proj2 (dashboard_shows_newest_five Fixture.clock "u1"
                                Fixture.tables [Sample.leaflet; Fixture.clip]
                                Dashboard.initial)))).
Defined.

Lemma preview_stalls_after_removal_until_append_witness :
  (2 <= length (Preview.playlist Fixture.previewing_last))%nat /\
  (0 < length (Preview.playlist Fixture.previewing_last))%nat /\
  Preview.currentPreviewIndex Fixture.previewing_last =
    JS.Num (Z.of_nat (length (Preview.playlist Fixture.previewing_last)) - 1) /\
  Preview.timer
    (Preview.setPlaylist Sample.publicUrl
       (fun prev => fst (Editor.removeFromPlaylist 0 prev))
       Fixture.previewing_last) = None.
Proof.
  assert (HL : (2 <= length (Preview.playlist Fixture.previewing_last))%nat)
    by (simpl; lia).
  assert (Hi : (0 < length (Preview.playlist Fixture.previewing_last))%nat)
    by (simpl; lia).
  assert (Hidx : Preview.currentPreviewIndex Fixture.previewing_last =
                 JS.Num (Z.of_nat
                           (length (Preview.playlist Fixture.previewing_last))
                         - 1)) by reflexivity.
  split; [exact HL|]. split; [exact Hi|]. split; [exact Hidx|].
  destruct (preview_stalls_after_removal_until_append Sample.publicUrl
              Fixture.previewing_last 0 Fixture.clip HL Hi Hidx)
    as ((_ & Ht & _) & _).
  exact Ht.
Defined.
